(** * llm-proxy: a shallow embedding of the proxy core and its properties

    The development follows the Go sources of the repository:
    - [session.go]        (SessionManager, ComputePatterns)
    - [proxy.go]          (Proxy.nextSeq, Proxy.ServeHTTP, copyHeaders)
    - [streaming.go]      (streamResponse, StreamingResponseWriter)
    - [obfuscate.go]      (ObfuscateAPIKey, ObfuscateHeaders)
    - [loki_exporter.go]  (LokiExporter.Push, run, sendBatch, Close)
    - [multi_writer.go]   (MultiWriter)

    Go values are modelled as follows: [int] is a 64-bit two's complement
    integer (a [Z] wrapped by [wrap64]), [string] is a byte string
    ([String.string]), [map[string]T] is a [gmap string T], slices are
    lists, and a function that mutates its receiver is a function from the
    old state to the new one. *)

From Stdlib Require Import ZArith Lia Bool Ascii String List.
From stdpp Require Import base option list gmap strings fin_maps.

Local Open Scope string_scope.

(** ** Go machine integers *)

Module GoInt.

(** Go's [int] on the build targets (amd64, arm64) has 64 bits; [++] and
    [+] wrap around. *)
Definition wrap64 (z : Z) : Z :=
  ((z + 2 ^ 63) mod 2 ^ 64 - 2 ^ 63)%Z.

Definition in_range (z : Z) : Prop :=
  (- 2 ^ 63 <= z < 2 ^ 63)%Z.

Definition max_int : Z := (2 ^ 63 - 1)%Z.

Definition incr (z : Z) : Z := wrap64 (z + 1).

Definition add (a b : Z) : Z := wrap64 (a + b).

(** Equality modulo 2^64. *)
Definition cong64 (a b : Z) : Prop := exists k : Z, a = (b + k * 2 ^ 64)%Z.

End GoInt.

(** ** session.go: pattern state *)

Module Session.

Import GoInt.

(** [PatternState], with the fields the tests and [ComputePatterns] use. *)
Record PatternState := mkPatternState {
  TurnCount : Z;
  LastToolName : string;
  ToolStreak : Z;
  RetryCount : Z;
  SessionToolCount : Z;
  LastWasError : bool;
  PendingToolIDs : gmap string string
}.

(** The default state [LoadPatternState] returns for a new session. *)
Definition defaultPatternState : PatternState :=
  mkPatternState 0 "" 0 0 0 false ∅.

Definition set_streak_retry (st : PatternState) (streak retry : Z) : PatternState :=
  mkPatternState (TurnCount st) (LastToolName st) streak retry
                 (SessionToolCount st) (LastWasError st) (PendingToolIDs st).

Definition set_last_tool (st : PatternState) (name : string) : PatternState :=
  mkPatternState (TurnCount st) name (ToolStreak st) (RetryCount st)
                 (SessionToolCount st) (LastWasError st) (PendingToolIDs st).

(** [ComputePatterns(state, firstToolName) bool]: the state is mutated in
    place in the source; here the new state is returned with the result. *)
Definition ComputePatterns (state : PatternState) (firstToolName : string)
  : bool * PatternState :=
  if String.eqb firstToolName "" then
    (false, set_streak_retry state 0 0)
  else
    let isRetry :=
      String.eqb firstToolName (LastToolName state) && LastWasError state in
    let streak :=
      if String.eqb firstToolName (LastToolName state)
      then incr (ToolStreak state) else 1%Z in
    let retry :=
      if isRetry then incr (RetryCount state) else 0%Z in
    (isRetry, set_last_tool (set_streak_retry state streak retry) firstToolName).

Definition set_last_was_error (st : PatternState) (b : bool) : PatternState :=
  mkPatternState (TurnCount st) (LastToolName st) (ToolStreak st) (RetryCount st)
                 (SessionToolCount st) b (PendingToolIDs st).

(** A session's responses one after the other. Between two calls of
    [ComputePatterns] the request flow sets [LastWasError]; a turn is the
    flag it has set and the first tool name of the response. *)
Definition patternRun (st : PatternState) (turns : list (bool * string))
  : PatternState :=
  foldl (fun st' turn =>
           snd (ComputePatterns (set_last_was_error st' (fst turn)) (snd turn)))
        st turns.

(** How many of the first elements of a list are equal to [t]. *)
Fixpoint countWhile (t : string) (l : list string) : nat :=
  match l with
  | x :: rest => if String.eqb x t then S (countWhile t rest) else O
  | [] => O
  end.

(** The length of the run of equal tool names that ends a list of first
    tool names; no run when the last response used no tool. *)
Definition trailingRun (names : list string) : nat :=
  match rev names with
  | [] => O
  | t :: rest => if String.eqb t "" then O else S (countWhile t rest)
  end.

End Session.

(** ** Go strings (package [strings]) *)

Module GoStrings.

(** [strings.HasPrefix(s, prefix)]. *)
Definition HasPrefix (s pre : string) : bool := String.prefix pre s.

(** [s[n:]] and [s[:n]] on byte strings. *)
Fixpoint drop (n : nat) (s : string) : string :=
  match n, s with
  | O, _ => s
  | S n', String _ s' => drop n' s'
  | S _, EmptyString => EmptyString
  end.

Fixpoint take (n : nat) (s : string) : string :=
  match n, s with
  | O, _ => EmptyString
  | S n', String c s' => String c (take n' s')
  | S _, EmptyString => EmptyString
  end.

(** [strings.TrimPrefix(s, prefix)]. *)
Definition TrimPrefix (s pre : string) : string :=
  if HasPrefix s pre then drop (String.length pre) s else s.

(** [strings.HasSuffix(s, suffix)] and [strings.TrimSuffix(s, suffix)]. *)
Definition HasSuffix (s suf : string) : bool :=
  (String.length suf <=? String.length s)%nat
  && String.eqb (drop (String.length s - String.length suf) s) suf.

Definition TrimSuffix (s suf : string) : string :=
  if HasSuffix s suf then take (String.length s - String.length suf) s else s.

(** [strings.Index(s, substr)]: the index of the first instance of
    [substr] in [s], or [-1]. *)
Definition Index (s substr : string) : Z :=
  match String.index 0 substr s with
  | Some n => Z.of_nat n
  | None => (-1)%Z
  end.

Definition is_upper (c : ascii) : bool :=
  (65 <=? nat_of_ascii c)%nat && (nat_of_ascii c <=? 90)%nat.

Definition is_lower (c : ascii) : bool :=
  (97 <=? nat_of_ascii c)%nat && (nat_of_ascii c <=? 122)%nat.

Definition lower_byte (c : ascii) : ascii :=
  if is_upper c then ascii_of_nat (nat_of_ascii c + 32) else c.

Definition upper_byte (c : ascii) : ascii :=
  if is_lower c then ascii_of_nat (nat_of_ascii c - 32) else c.

(** [strings.ToLower(s)] on ASCII strings (header field names are ASCII
    tokens). *)
Fixpoint ToLower (s : string) : string :=
  match s with
  | EmptyString => EmptyString
  | String c s' => String (lower_byte c) (ToLower s')
  end.

(** Whether a byte occurs in a string, and the index of its first
    occurrence ([strings.IndexByte]). *)
Fixpoint has_byte (c : ascii) (s : string) : bool :=
  match s with
  | EmptyString => false
  | String x s' => Ascii.eqb x c || has_byte c s'
  end.

Fixpoint first_byte (c : ascii) (s : string) : option nat :=
  match s with
  | EmptyString => None
  | String x s' =>
      if Ascii.eqb x c then Some O
      else match first_byte c s' with
           | Some n => Some (S n)
           | None => None
           end
  end.

(** [strings.Contains(s, substr)]. *)
Definition Contains (s substr : string) : bool :=
  match String.index 0 substr s with
  | Some _ => true
  | None => false
  end.

End GoStrings.

(** ** net/http headers *)

Module HTTP.

Import GoStrings.

(** [http.Header] is [map[string][]string]. *)
Abbreviation Header := (gmap string (list string)).

Definition is_digit (c : ascii) : bool :=
  (48 <=? nat_of_ascii c)%nat && (nat_of_ascii c <=? 57)%nat.

(** [textproto.validHeaderFieldByte]: the token characters of RFC 7230. *)
Definition validHeaderFieldByte (c : ascii) : bool :=
  is_upper c || is_lower c || is_digit c
  || existsb (Ascii.eqb c)
       (list_ascii_of_string "!#$%&'*+-.^_`|~").

Fixpoint canon_bytes (upper : bool) (s : string) : string :=
  match s with
  | EmptyString => EmptyString
  | String c s' =>
      let c' := if upper then upper_byte c else lower_byte c in
      String c' (canon_bytes (Ascii.eqb c' "-"%char) s')
  end.

(** [textproto.CanonicalMIMEHeaderKey]: a key made of token characters
    gets an upper-case letter first and after each hyphen and lower-case
    letters elsewhere; any other key is returned unchanged. *)
Definition CanonicalMIMEHeaderKey (s : string) : string :=
  if forallb validHeaderFieldByte (list_ascii_of_string s)
  then canon_bytes true s else s.

(** [h.Add(key, value)], [h.Set(key, value)], [h.Get(key)]. *)
Definition Header_Add (h : Header) (key value : string) : Header :=
  let k := CanonicalMIMEHeaderKey key in
  <[k := (default [] (h !! k) ++ [value])%list]> h.

Definition Header_Set (h : Header) (key value : string) : Header :=
  <[CanonicalMIMEHeaderKey key := [value]]> h.

Definition Header_Get (h : Header) (key : string) : string :=
  match h !! CanonicalMIMEHeaderKey key with
  | Some (v :: _) => v
  | _ => ""
  end.

(** The values a header map holds under a key ([nil] when absent). *)
Definition Values (h : Header) (key : string) : list string :=
  default [] (h !! key).

(** All the keys of a header map are in canonical form, as they are in
    the maps net/http builds from the wire. *)
Definition canonicalKeys (h : Header) : bool :=
  forallb (fun kv => String.eqb (CanonicalMIMEHeaderKey (fst kv)) (fst kv))
          (map_to_list h).

(** What a handler hands to its [http.ResponseWriter], in order. *)
Inductive WriterOp :=
| OpWriteHeader (status : Z) (snapshot : Header)
| OpWrite (data : string)
| OpFlush.

(** An [http.ResponseWriter]: the header map of [w.Header()] and the
    operations performed so far. [WriteHeader] sends the header map as
    it is at that moment. *)
Record ResponseWriter := mkRW {
  rw_header : Header;
  rw_ops : list WriterOp
}.

Definition newResponseWriter : ResponseWriter := mkRW ∅ [].

Definition rw_with_header (w : ResponseWriter) (h : Header) : ResponseWriter :=
  mkRW h (rw_ops w).

Definition WriteHeader (w : ResponseWriter) (status : Z) : ResponseWriter :=
  mkRW (rw_header w) (rw_ops w ++ [OpWriteHeader status (rw_header w)])%list.

Definition Write (w : ResponseWriter) (data : string) : ResponseWriter :=
  mkRW (rw_header w) (rw_ops w ++ [OpWrite data])%list.

Definition Flush (w : ResponseWriter) : ResponseWriter :=
  mkRW (rw_header w) (rw_ops w ++ [OpFlush])%list.

(** [http.Error(w, msg, code)]. *)
Definition Error (w : ResponseWriter) (msg : string) (code : Z) : ResponseWriter :=
  let h := Header_Set (Header_Set (rw_header w)
                         "Content-Type" "text/plain; charset=utf-8")
                      "X-Content-Type-Options" "nosniff" in
  Write (WriteHeader (rw_with_header w h) code) (msg ++ String "010"%char "").



Definition bodyOf (ops : list WriterOp) : string :=
  foldr (fun op acc => match op with OpWrite d => d ++ acc | _ => acc end) "" ops.

Definition client_body (w : ResponseWriter) : string := bodyOf (rw_ops w).

Definition StatusBadRequest : Z := 400.
Definition StatusInternalServerError : Z := 500.
Definition StatusBadGateway : Z := 502.

End HTTP.

(** ** The journal (file logger) seen from its callers *)

Module Journal.

Import HTTP.

Record ResponseTiming := mkTiming { TTFBMs : Z; TotalMs : Z }.

(** [StreamChunk {ts, delta_ms, raw}]; the clock reading is an input. *)
Record StreamChunk := mkChunk { Timestamp : Z; DeltaMs : Z; Raw : string }.

Inductive LogCall :=
| CallSessionStart (sessionID provider upstream : string)
| CallRequest (sessionID provider : string) (seq : Z) (method path : string)
              (headers : Header) (body : string) (requestID : string)
| CallResponse (sessionID provider : string) (seq status : Z)
               (headers : Header) (body : string)
               (chunks : option (list StreamChunk))
               (timing : ResponseTiming) (requestID : string)
| CallFork (sessionID provider : string) (fromSeq : Z) (parentSession : string).

(** Modelled from the spec: the file logger [*Logger] (logger.go) is not
    under src/ in the version its callers use. Spec 4.1: [log(entry)]
    appends one line to the journal of the entry's session and fails with
    an [IoError] on a disk error, which is returned to the caller. The
    journal is the sequence of log calls received; whether the n-th call
    fails is decided by the disk, an input of the model. *)
Record Logger := mkLogger {
  machineID : string;
  upstreams : gmap string string;
  calls : list LogCall;
  disk : nat -> option string;
  closeErr : option string;
  closed : bool
}.

Definition newLogger (machine : string) (d : nat -> option string) : Logger :=
  mkLogger machine ∅ [] d None false.

Definition log (l : Logger) (c : LogCall) : option string * Logger :=
  (disk l (length (calls l)),
   mkLogger (machineID l) (upstreams l) (calls l ++ [c])%list (disk l)
            (closeErr l) (closed l)).

Definition RegisterUpstream (l : Logger) (sessionID upstream : string) : Logger :=
  mkLogger (machineID l) (<[sessionID := upstream]> (upstreams l)) (calls l)
           (disk l) (closeErr l) (closed l).

Definition Close (l : Logger) : option string * Logger :=
  (closeErr l,
   mkLogger (machineID l) (upstreams l) (calls l) (disk l) (closeErr l) true).

(** The [seq] fields of the [request] entries of one session, in journal
    order. *)
Definition request_seqs (sessionID : string) (cs : list LogCall) : list Z :=
  omap (fun c => match c with
                 | CallRequest sid _ seq _ _ _ _ _ =>
                     if String.eqb sid sessionID then Some seq else None
                 | _ => None
                 end) cs.

End Journal.

(** ** proxy.go *)

Module Proxy.

Import GoInt GoStrings HTTP Journal.

Definition ErrInvalidProxyPath : string :=
  "invalid proxy path: expected /{provider}/{upstream}/{path}".
Definition ErrUnknownProvider : string :=
  "unknown provider: must be 'anthropic' or 'openai'".

Definition validProviders (provider : string) : bool :=
  String.eqb provider "anthropic" || String.eqb provider "openai".

Definition cut (s sep : string) : option (string * string) :=
  match String.index 0 sep s with
  | Some i => Some (take i s, drop (i + String.length sep) s)
  | None => None
  end.

(** [strings.SplitN(s, sep, n)] for a non-empty separator and [n >= 0]. *)
Fixpoint SplitN (s sep : string) (n : nat) {struct n} : list string :=
  match n with
  | O => []
  | S O => [s]
  | S n' =>
      match cut s sep with
      | Some (a, b) => a :: SplitN b sep n'
      | None => [s]
      end
  end.

(** [ParseProxyURL(urlPath) (provider, upstream, path, err)]. *)
Definition ParseProxyURL (urlPath : string)
  : string * string * string * option string :=
  let trimmed := TrimPrefix urlPath "/" in
  match SplitN trimmed "/" 3 with
  | [provider; upstream; rest] =>
      if negb (validProviders provider) then ("", "", "", Some ErrUnknownProvider)
      else if String.eqb upstream "" then ("", "", "", Some ErrInvalidProxyPath)
      else (provider, upstream, "/" ++ rest, None)
  | _ => ("", "", "", Some ErrInvalidProxyPath)
  end.

Definition isLocalhost (host : string) : bool :=
  HasPrefix host "127.0.0.1" || HasPrefix host "localhost".

(** [copyHeaders(dst, src)]: every value of every key of [src] is added
    to [dst]; nothing is filtered. The keys are visited in the order of
    [map_fold] (Go leaves the order unspecified). *)
Definition copyHeaders (dst src : Header) : Header :=
  map_fold (fun key values d =>
              foldl (fun d' value => Header_Add d' key value) d values)
           dst src.

Record ProxyState := mkProxy {
  logger : option Logger;
  seqNums : gmap string Z
}.

Definition NewProxy : ProxyState := mkProxy None ∅.

Definition NewProxyWithLogger (l : Logger) : ProxyState := mkProxy (Some l) ∅.

(** [p.nextSeq(sessionID)]: reads the counter (0 for an unknown session),
    stores the counter plus one and returns the value read. *)
Definition nextSeq (p : ProxyState) (sessionID : string) : Z * ProxyState :=
  let seq := default 0%Z (seqNums p !! sessionID) in
  (seq, mkProxy (logger p) (<[sessionID := add seq 1]> (seqNums p))).

(** The numbers handed out when [nextSeq] is called for the session ids
    of a list, one after the other (the mutex serializes the calls). *)
Fixpoint nextSeqs (p : ProxyState) (sids : list string)
  : list (string * Z) * ProxyState :=
  match sids with
  | [] => ([], p)
  | sid :: rest =>
      let '(seq, p1) := nextSeq p sid in
      let '(out, p2) := nextSeqs p1 rest in
      ((sid, seq) :: out, p2)
  end.

(** The numbers of one session among them. *)
Definition seqsFor (sid : string) (out : list (string * Z)) : list Z :=
  omap (fun x => if String.eqb (fst x) sid then Some (snd x) else None) out.

Definition callsFor (sid : string) (sids : list string) : nat :=
  length (List.filter (String.eqb sid) sids).

Record Request := mkRequest {
  Method : string;
  URLPath : string;
  RawQuery : string;
  ReqHeader : Header;
  (** [r.Body]: [None] for a nil body, else what [io.ReadAll] returns. *)
  ReqBody : option (string * option string)
}.

Record UpstreamRequest := mkUpstreamRequest {
  up_method : string;
  up_url : string;
  up_header : Header;
  up_host : string;
  up_body : string
}.

(** What [p.client.Do] gives back: an error, or a response whose body is
    then read by [io.ReadAll] (bytes read, and the read error if any). *)
Inductive DoResult :=
| DoError (msg : string)
| DoResponse (StatusCode : Z) (RespHeader : Header)
             (body : string) (readErr : option string).

(** The surroundings of one call of [ServeHTTP]: the session id drawn by
    [generateSessionID], the error of [http.NewRequestWithContext], the
    upstream, and the two clock readings. *)
Record Env := mkEnv {
  env_sessionID : string;
  env_newRequestErr : option string;
  env_upstream : UpstreamRequest -> DoResult;
  env_ttfb : Z;
  env_total : Z
}.

Definition with_logger (p : ProxyState) (l : Logger) : ProxyState :=
  mkProxy (Some l) (seqNums p).

(** Lines 101-109: session id, sequence number, [session_start] and
    [request] entries. Returns the id and the number for the response. *)
Definition logRequest (env : Env) (p : ProxyState) (provider upstream path : string)
           (r : Request) (reqBody : string) : string * Z * ProxyState :=
  match logger p with
  | None => ("", 0%Z, p)
  | Some _ =>
      let sessionID := env_sessionID env in
      let '(seq, p1) := nextSeq p sessionID in
      match logger p1 with
      | None => (sessionID, seq, p1)
      | Some l =>
          let '(_, l1) := log l (CallSessionStart sessionID provider upstream) in
          let '(_, l2) := log l1 (CallRequest sessionID provider seq (Method r)
                                              path (ReqHeader r) reqBody "") in
          (sessionID, seq, with_logger p1 l2)
      end
  end.

(** Lines 111-149: the upstream's answer is read, logged and handed to
    the client. *)
Definition forwardResponse (env : Env) (p : ProxyState) (w : ResponseWriter)
           (provider sessionID : string) (seq : Z) (res : DoResult)
  : ResponseWriter * ProxyState :=
  match res with
  | DoError msg =>
      (Error w ("upstream request failed: " ++ msg) StatusBadGateway, p)
  | DoResponse status hdr body (Some e) =>
      (Error w ("failed to read response body: " ++ e) StatusBadGateway, p)
  | DoResponse status hdr respBody None =>
      let p1 :=
        match logger p with
        | None => p
        | Some l =>
            let timing := mkTiming (env_ttfb env) (env_total env) in
            with_logger p (snd (log l (CallResponse sessionID provider seq status
                                                    hdr respBody None timing "")))
        end in
      let w1 := rw_with_header w (copyHeaders (rw_header w) hdr) in
      let w2 := WriteHeader w1 status in
      (Write w2 respBody, p1)
  end.

(** The request sent upstream (lines 65-99): scheme, URL, headers, host. *)
Definition buildUpstreamRequest (upstream path : string) (r : Request)
           (reqBody : string) : UpstreamRequest :=
  let scheme := if isLocalhost upstream then "http" else "https" in
  let upstreamURL := scheme ++ "://" ++ upstream ++ path in
  let upstreamURL :=
    if String.eqb (RawQuery r) "" then upstreamURL
    else upstreamURL ++ "?" ++ RawQuery r in
  mkUpstreamRequest (Method r) upstreamURL (copyHeaders ∅ (ReqHeader r))
                    upstream reqBody.

(** [p.ServeHTTP(w, r)]: the response writer and the proxy after the
    call, and the request that went upstream, if one did. *)
Definition ServeHTTP (env : Env) (p : ProxyState) (w : ResponseWriter) (r : Request)
  : ResponseWriter * ProxyState * option UpstreamRequest :=
  match ParseProxyURL (URLPath r) with
  | (_, _, _, Some err) => (Error w err StatusBadRequest, p, None)
  | (provider, upstream, path, None) =>
      match ReqBody r with
      | Some (_, Some e) =>
          (Error w ("failed to read request body: " ++ e)
                 StatusInternalServerError, p, None)
      | body =>
          let reqBody := match body with Some (data, _) => data | None => "" end in
          match env_newRequestErr env with
          | Some e =>
              (Error w ("failed to create request: " ++ e)
                     StatusInternalServerError, p, None)
          | None =>
              let proxyReq := buildUpstreamRequest upstream path r reqBody in
              let '(sessionID, seq, p1) :=
                logRequest env p provider upstream path r reqBody in
              let '(w', p2) :=
                forwardResponse env p1 w provider sessionID seq
                                (env_upstream env proxyReq) in
              (w', p2, Some proxyReq)
          end
      end
  end.

End Proxy.

(** ** streaming.go *)

Module Streaming.

Import GoStrings HTTP Journal.

Definition newline : ascii := "010"%char.

(** [isStreamingResponse(resp)]. *)
Definition isStreamingResponse (respHeader : Header) : bool :=
  HasPrefix (Header_Get respHeader "Content-Type") "text/event-stream".

(** [StreamingResponseWriter]: the wrapped writer, the captured chunks
    and the accumulated delta text. *)
Record StreamingResponseWriter := mkSW {
  sw_writer : ResponseWriter;
  sw_chunks : list StreamChunk;
  sw_startTime : Z;
  sw_lastChunk : Z;
  sw_accumulatedText : string;
  sw_provider : string
}.

(** The surroundings of a streamed response: the clock readings taken by
    [NewStreamingResponseWriter], by the n-th [Write] and at the end, and
    [extractDeltaText] (which decodes JSON with encoding/json). *)
Record StreamEnv := mkStreamEnv {
  clock_start : Z;
  clock : nat -> Z;
  clock_end : Z;
  extractDeltaText : string -> string -> string
}.

Definition NewStreamingResponseWriter (env : StreamEnv) (w : ResponseWriter)
           (provider : string) : StreamingResponseWriter :=
  mkSW w [] (clock_start env) (clock_start env) "" provider.

(** [s.Write(data)]. *)
Definition SW_Write (env : StreamEnv) (s : StreamingResponseWriter) (data : string)
  : StreamingResponseWriter :=
  let now := clock env (length (sw_chunks s)) in
  let chunk := mkChunk now (now - sw_startTime s) data in
  let text := extractDeltaText env data (sw_provider s) in
  mkSW (Write (sw_writer s) data)
       (sw_chunks s ++ [chunk])%list
       (sw_startTime s) now
       (if String.eqb text "" then sw_accumulatedText s
        else sw_accumulatedText s ++ text)
       (sw_provider s).

(** [s.Flush()]; the wrapped writer is an [http.Flusher]. *)
Definition SW_Flush (s : StreamingResponseWriter) : StreamingResponseWriter :=
  mkSW (Flush (sw_writer s)) (sw_chunks s) (sw_startTime s) (sw_lastChunk s)
       (sw_accumulatedText s) (sw_provider s).

(** [reader.ReadBytes(delim)] on the bytes still to come: the bytes up
    to and including the first [delim], the rest, and whether [delim]
    was found (if not, the reader reports its end: EOF or an error). *)
Fixpoint ReadBytes (delim : ascii) (data : string) : string * string * bool :=
  match data with
  | EmptyString => (EmptyString, EmptyString, false)
  | String c rest =>
      if Ascii.eqb c delim then (String c EmptyString, rest, true)
      else
        let '(line, rem, found) := ReadBytes delim rest in
        (String c line, rem, found)
  end.

(** The read loop of [streamResponse]. [data] is what the upstream body
    still delivers and [readErr] how it ends ([None] for io.EOF). The
    result is the writer after the loop and the error the loop returns
    with, if any; [None] when the fuel runs out. *)
Fixpoint streamLoop (fuel : nat) (env : StreamEnv) (sw : StreamingResponseWriter)
         (data : string) (readErr : option string)
  : option (StreamingResponseWriter * option string) :=
  match fuel with
  | O => None
  | S fuel' =>
      let '(line, rest, found) := ReadBytes newline data in
      let sw1 :=
        if (0 <? String.length line)%nat
        then SW_Flush (SW_Write env sw line) else sw in
      if found then streamLoop fuel' env sw1 rest readErr
      else Some (sw1, readErr)
  end.

(** One more iteration than there are bytes always suffices. *)
Definition loopFuel (data : string) : nat := S (String.length data).

(** [streamResponse(w, resp, logger, sm, sessionID, provider, seq,
    startTime, reqBody)] with [sm == nil], as [ServeHTTP] calls it. *)
Definition streamResponse (env : StreamEnv) (w : ResponseWriter)
           (status : Z) (respHeader : Header) (body : string)
           (readErr : option string)
           (lg : option Logger) (sessionID provider : string) (seq startTime : Z)
  : option (ResponseWriter * option Logger * option string) :=
  let sw := NewStreamingResponseWriter env w provider in
  let w1 := rw_with_header w (Proxy.copyHeaders (rw_header w) respHeader) in
  let sw := mkSW (WriteHeader w1 status) (sw_chunks sw) (sw_startTime sw)
                 (sw_lastChunk sw) (sw_accumulatedText sw) (sw_provider sw) in
  match streamLoop (loopFuel body) env sw body readErr with
  | None => None
  | Some (sw', Some e) => Some (sw_writer sw', lg, Some e)
  | Some (sw', None) =>
      let lg' :=
        match lg with
        | None => None
        | Some l =>
            let ttfb := match sw_chunks sw' with
                        | c :: _ => DeltaMs c
                        | [] => 0%Z
                        end in
            let timing := mkTiming ttfb (clock_end env - startTime) in
            Some (snd (log l (CallResponse sessionID provider seq status respHeader
                                           "" (Some (sw_chunks sw')) timing "")))
        end in
      Some (sw_writer sw', lg', None)
  end.

(** The operations forwarded lines leave on the writer: one [Write] and
    one [Flush] each. *)
Definition lineOps (ls : list string) : list WriterOp :=
  flat_map (fun l => [OpWrite l; OpFlush]) ls.

(** The bytes of a list of lines. *)
Definition joined (ls : list string) : string := foldr String.append "" ls.

(** The data of the [Write] operations of a writer, in order. *)
Definition writes (ops : list WriterOp) : list string :=
  omap (fun op => match op with OpWrite d => Some d | _ => None end) ops.

(** A line as [ReadBytes] frames it: not empty, and a newline can only
    be its last byte. *)
Fixpoint is_line (s : string) : bool :=
  match s with
  | EmptyString => false
  | String c EmptyString => true
  | String c rest => negb (Ascii.eqb c newline) && is_line rest
  end.

Fixpoint ends_with_newline (s : string) : bool :=
  match s with
  | EmptyString => false
  | String c EmptyString => Ascii.eqb c newline
  | String _ rest => ends_with_newline rest
  end.


(** The chunk [SW_Write] records for the [i]-th line written. *)
Definition chunkAt (env : StreamEnv) (startTime : Z) (i : nat) (line : string)
  : StreamChunk :=
  mkChunk (clock env i) (clock env i - startTime) line.

Fixpoint chunksFrom (env : StreamEnv) (startTime : Z) (i : nat) (ls : list string)
  : list StreamChunk :=
  match ls with
  | [] => []
  | l :: rest => chunkAt env startTime i l :: chunksFrom env startTime (S i) rest
  end.

End Streaming.

(** ** obfuscate.go *)

Module Obfuscate.

Import GoStrings HTTP.

Definition prefixes : list string :=
  ["sk-ant-api03-"; "sk-ant-"; "sk-proj-"; "sk-"].

(** [extractPrefix(key)]: the first listed prefix the key starts with,
    else the key up to and including its first hyphen (when that hyphen
    is not the first byte), else the empty string. *)
Definition extractPrefix (key : string) : string :=
  match find (HasPrefix key) prefixes with
  | Some p => TrimSuffix p "-" ++ "-"
  | None =>
      let idx := Index key "-" in
      if (0 <? idx)%Z then take (Z.to_nat idx + 1) key else ""
  end.

(** [ObfuscateAPIKey(key)]. *)
Definition ObfuscateAPIKey (key : string) : string :=
  if String.eqb key "" then ""
  else
    let pre := extractPrefix key in
    let suffix :=
      if (4 <? String.length key)%nat
      then drop (String.length key - 4) key else "" in
    pre ++ "..." ++ suffix.

Definition isAPIKeyHeader (name : string) : bool :=
  let lower := ToLower name in
  String.eqb lower "x-api-key" || String.eqb lower "authorization".

Definition obfuscateHeaderValue (value : string) : string :=
  if HasPrefix value "Bearer "
  then "Bearer " ++ ObfuscateAPIKey (TrimPrefix value "Bearer ")
  else ObfuscateAPIKey value.

(** The new values of one key. *)
Definition newValues (key : string) (values : list string) : list string :=
  map (fun v => if isAPIKeyHeader key then obfuscateHeaderValue v else v) values.

(** [ObfuscateHeaders(headers)] as a function on header maps: the result
    starts empty and receives one entry per key of [headers]. *)
Definition ObfuscateHeaders (headers : Header) : Header :=
  map_fold (fun key values result => <[key := newValues key values]> result)
           ∅ headers.

(** The bytes of a header value that are treated as the key: what
    follows ["Bearer "], or the whole value. *)
Definition keyOf (value : string) : string :=
  if HasPrefix value "Bearer " then TrimPrefix value "Bearer " else value.

Definition hyphen : ascii := "-"%char.

Fixpoint has_hyphen (s : string) : bool :=
  match s with
  | EmptyString => false
  | String c s' => Ascii.eqb c hyphen || has_hyphen s'
  end.

(** The index of the first hyphen of a string. *)
Fixpoint first_hyphen (s : string) : option nat :=
  match s with
  | EmptyString => None
  | String c s' =>
      if Ascii.eqb c hyphen then Some O
      else match first_hyphen s' with
           | Some n => Some (S n)
           | None => None
           end
  end.

Definition starts_with_hyphen (s : string) : bool :=
  match s with
  | String c _ => Ascii.eqb c hyphen
  | EmptyString => false
  end.

(** Keys on which obfuscating a second time changes nothing more: the
    empty key, a key without a hyphen, and a key of more than four bytes
    that does not begin with a hyphen. *)
Definition stableKey (key : string) : bool :=
  String.eqb key ""
  || negb (has_hyphen key)
  || ((4 <? String.length key)%nat && negb (starts_with_hyphen key)).

Definition stableValue (value : string) : bool := stableKey (keyOf value).


End Obfuscate.

(** ** Maps and slices as shared objects

    An [http.Header] is a reference to a map whose values are slices, that
    is, references to arrays. The store below holds the maps and the
    arrays; [ObfuscateHeaders] is run on it to see what it allocates and
    what it writes. *)

Module Heap.

Import HTTP Obfuscate.

Abbreviation loc := positive.

Record Store := mkStore {
  arrays : gmap loc (list string);
  maps : gmap loc (gmap string loc)
}.

(** [make(http.Header)]. *)
Definition alloc_map (st : Store) : loc * Store :=
  let l := fresh (dom (maps st)) in
  (l, mkStore (arrays st) (<[l := ∅]> (maps st))).

(** [make([]string, n)]: a new array of [n] empty strings. *)
Definition alloc_slice (st : Store) (n : nat) : loc * Store :=
  let l := fresh (dom (arrays st)) in
  (l, mkStore (<[l := replicate n ""]> (arrays st)) (maps st)).

(** [s[i] = v]. *)
Definition slice_set (st : Store) (s : loc) (i : nat) (v : string) : Store :=
  mkStore (alter (fun a => <[i := v]> a) s (arrays st)) (maps st).

(** [m[key] = s]. *)
Definition map_set (st : Store) (m : loc) (key : string) (s : loc) : Store :=
  mkStore (arrays st) (alter (fun h => <[key := s]> h) m (maps st)).

(** Reading: [range] over a nil map or a nil slice visits nothing. *)
Definition read_map (st : Store) (m : loc) : gmap string loc :=
  default ∅ (maps st !! m).

Definition read_slice (st : Store) (s : loc) : list string :=
  default [] (arrays st !! s).

(** The header map a reference denotes. *)
Definition header_at (st : Store) (m : loc) : Header :=
  (fun s => read_slice st s) <$> read_map st m.

(** [for i, v := range values { newValues[i] = ... }]. *)
Fixpoint fill (st : Store) (dst : loc) (key : string) (i : nat)
         (values : list string) : Store :=
  match values with
  | [] => st
  | v :: rest =>
      let v' := if isAPIKeyHeader key then obfuscateHeaderValue v else v in
      fill (slice_set st dst i v') dst key (S i) rest
  end.

(** One iteration of the outer loop of [ObfuscateHeaders]. *)
Definition obfuscate_key (result : loc) (st : Store) (kv : string * loc) : Store :=
  let '(key, vloc) := kv in
  let values := read_slice st vloc in
  let '(nv, st1) := alloc_slice st (length values) in
  let st2 := fill st1 nv key 0 values in
  map_set st2 result key nv.

(** [ObfuscateHeaders(headers)] on the store. *)
Definition ObfuscateHeaders (st : Store) (headers : loc) : loc * Store :=
  let '(result, st1) := alloc_map st in
  (result, foldl (obfuscate_key result) st1 (map_to_list (read_map st headers))).

(** What holds of the store between two iterations over the keys: the
    only map that differs from the start is the result, the arrays of the
    start are as they were, and the result refers to arrays allocated
    since. *)
Definition loopInv (st0 : Store) (result : loc) (st : Store) (R : gmap string loc)
  : Prop :=
  maps st = <[result := R]> (maps st0)
  /\ (forall l a, arrays st0 !! l = Some a -> arrays st !! l = Some a)
  /\ (forall k nv, R !! k = Some nv ->
        is_Some (arrays st !! nv) /\ arrays st0 !! nv = None).

(** Every slice the header map at [headers] refers to is allocated (a
    Go heap has no dangling slices). *)
Definition valuesAllocated (st : Store) (headers : loc) : bool :=
  forallb (fun kv => match arrays st !! snd kv with
                     | Some _ => true
                     | None => false
                     end)
          (map_to_list (read_map st headers)).

End Heap.

(** ** loki_exporter.go *)

Module Loki.

Import GoInt HTTP Journal.

(** The dynamic values an entry ([map[string]interface{}]) can hold. A
    type assertion to [string] succeeds on [VString] only, one to
    [map[string]interface{}] on [VMap] only. [VOther ok] stands for a
    value of any other type; [ok] tells whether [json.Marshal] accepts
    it (it rejects channels, functions, complex numbers, NaN). *)
#[warnings="-register-all"]
Inductive GoValue :=
| VNil
| VBool (b : bool)
| VInt (z : Z)
| VString (s : string)
| VHeader (h : Header)
| VTiming (t : ResponseTiming)
| VChunks (cs : list StreamChunk)
| VList (l : list GoValue)
| VMap (m : gmap string GoValue)
| VOther (ok : bool).

Abbreviation Entry := (gmap string GoValue).

(** Whether [json.Marshal] succeeds on a value. *)
Fixpoint marshals (v : GoValue) : bool :=
  match v with
  | VList l => forallb marshals l
  | VMap m => map_fold (fun _ x acc => marshals x && acc) true m
  | VOther ok => ok
  | _ => true
  end.

Definition marshalsEntry (entry : Entry) : bool := marshals (VMap entry).

Record LokiExporterConfig := mkConfig {
  URL : string;
  AuthToken : string;
  BatchSize : Z;
  BatchWait : Z;
  RetryMax : Z;
  RetryWait : Z;
  UseGzip : bool;
  Environment : string;
  BufferSize : Z;
  ShutdownTimeout : Z
}.

(** A [time.Time], as its [UnixNano()]. *)
Abbreviation Time := Z.

(** [lokiEntry]. *)
Record lokiEntry := mkLokiEntry {
  le_entry : Entry;
  le_provider : string;
  le_timestamp : Time;
  le_logType : string;
  le_machine : string
}.

(** The exporter: its queue ([entryChan], of capacity [BufferSize]), the
    worker's [batch], the four counters, and what the model adds: the
    network (whether the n-th call of [doSend] succeeds), the number of
    [doSend] calls made, and the flags of [closeOnce] and of the
    worker's exit. *)
Record LokiExporter := mkExporter {
  config : LokiExporterConfig;
  entryChan : list lokiEntry;
  batch : list lokiEntry;
  entriesSent : Z;
  entriesFailed : Z;
  entriesDropped : Z;
  batchesSent : Z;
  network : nat -> bool;
  attempts : nat;
  closeCalled : bool;
  workerDone : bool
}.

Definition second : Z := 1000000000.
Definition millisecond : Z := 1000000.

Definition applyDefaults (cfg : LokiExporterConfig) : LokiExporterConfig :=
  mkConfig (URL cfg) (AuthToken cfg)
    (if (BatchSize cfg <=? 0)%Z then 1000%Z else BatchSize cfg)
    (if (BatchWait cfg <=? 0)%Z then (5 * second)%Z else BatchWait cfg)
    (if (RetryMax cfg <=? 0)%Z then 5%Z else RetryMax cfg)
    (if (RetryWait cfg <=? 0)%Z then (100 * millisecond)%Z else RetryWait cfg)
    (UseGzip cfg) (Environment cfg)
    (if (BufferSize cfg <=? 0)%Z then 10000%Z else BufferSize cfg)
    (if (ShutdownTimeout cfg <=? 0)%Z then (30 * second)%Z else ShutdownTimeout cfg).

(** [x << n] on an [int64], for a shift count [n >= 0]. *)
Definition shl64 (x n : Z) : Z := wrap64 (x * 2 ^ n).

(** The delay before the retry numbered [attempt >= 1] in [sendBatch]
    (lines 273-276), before the random jitter is added:
    [RetryWait * time.Duration(1<<(attempt-1))], capped at ten seconds. *)
Definition backoffDelay (cfg : LokiExporterConfig) (attempt : Z) : Z :=
  let delay := wrap64 (RetryWait cfg * shl64 1 (attempt - 1)) in
  if (10 * second <? delay)%Z then (10 * second)%Z else delay.

Section Exporter.

(** [time.Parse(time.RFC3339Nano, _)] of package time. *)
Variable parseRFC3339Nano : string -> option Time.

Abbreviation Exporter := LokiExporter.

(** [NewLokiExporter(cfg)]; [net] is the network the worker will meet. *)
Definition NewLokiExporter (net : nat -> bool) (cfg : LokiExporterConfig)
  : option Exporter * option string :=
  if String.eqb (URL cfg) "" then (None, Some "LokiExporter: URL is required")
  else (Some (mkExporter (applyDefaults cfg) [] [] 0 0 0 0 net 0 false false), None).

Definition metaOf (entry : Entry) : option Entry :=
  match entry !! "_meta" with
  | Some (VMap meta) => Some meta
  | _ => None
  end.

Definition stringAt (m : Entry) (key : string) : option string :=
  match m !! key with
  | Some (VString s) => Some s
  | _ => None
  end.

(** The timestamp, log type and machine [Push] extracts. *)
Definition extractTimestamp (now : Time) (entry : Entry) : Time :=
  match metaOf entry with
  | Some meta =>
      match stringAt meta "ts" with
      | Some ts =>
          match parseRFC3339Nano ts with
          | Some parsed => parsed
          | None => now
          end
      | None => now
      end
  | None => now
  end.

Definition extractLogType (entry : Entry) : string :=
  match stringAt entry "type" with
  | Some t => t
  | None => "unknown"
  end.

Definition extractMachine (entry : Entry) : string :=
  match metaOf entry with
  | Some meta =>
      match stringAt meta "machine" with
      | Some m => m
      | None => "unknown"
      end
  | None => "unknown"
  end.

Definition with_chan (e : Exporter) (q : list lokiEntry) : Exporter :=
  mkExporter (config e) q (batch e) (entriesSent e) (entriesFailed e)
             (entriesDropped e) (batchesSent e) (network e) (attempts e)
             (closeCalled e) (workerDone e).

Definition with_batch (e : Exporter) (b : list lokiEntry) : Exporter :=
  mkExporter (config e) (entryChan e) b (entriesSent e) (entriesFailed e)
             (entriesDropped e) (batchesSent e) (network e) (attempts e)
             (closeCalled e) (workerDone e).

Definition with_counters (e : Exporter) (sent failed dropped batches : Z)
           (att : nat) : Exporter :=
  mkExporter (config e) (entryChan e) (batch e) sent failed dropped batches
             (network e) att (closeCalled e) (workerDone e).

Definition with_flags (e : Exporter) (cc wd : bool) : Exporter :=
  mkExporter (config e) (entryChan e) (batch e) (entriesSent e)
             (entriesFailed e) (entriesDropped e) (batchesSent e)
             (network e) (attempts e) cc wd.

(** [e.Push(entry, provider)]; [now] is the reading of [time.Now()].
    The [select] with a [default] branch sends when the channel has
    room and counts a drop otherwise. *)
Definition Push (now : Time) (e : Exporter) (entry : Entry) (provider : string)
  : Exporter :=
  let le := mkLokiEntry entry provider (extractTimestamp now entry)
                        (extractLogType entry) (extractMachine entry) in
  if (Z.of_nat (length (entryChan e)) <? BufferSize (config e))%Z
  then with_chan e (entryChan e ++ [le])%list
  else with_counters e (entriesSent e) (entriesFailed e)
                     (add (entriesDropped e) 1) (batchesSent e) (attempts e).

(** The first loop of [sendBatch]: an entry whose serialization fails
    adds one to [entriesFailed] and is left out of the payload. *)
Definition countMarshalFailures (e : Exporter) (entries : list lokiEntry)
  : Exporter :=
  foldl (fun e' le =>
           if marshalsEntry (le_entry le) then e'
           else with_counters e' (entriesSent e') (add (entriesFailed e') 1)
                              (entriesDropped e') (batchesSent e') (attempts e'))
        e entries.

(** The retry loop of [sendBatch]: up to [n] calls of [doSend]. *)
Fixpoint trySend (n : nat) (e : Exporter) : bool * Exporter :=
  match n with
  | O => (false, e)
  | S n' =>
      let ok := network e (attempts e) in
      let e' := with_counters e (entriesSent e) (entriesFailed e)
                              (entriesDropped e) (batchesSent e)
                              (S (attempts e)) in
      if ok then (true, e') else trySend n' e'
  end.

(** [e.sendBatch(entries)]: [attempt] runs from 0 to [RetryMax]. *)
Definition sendBatch (e : Exporter) (entries : list lokiEntry) : Exporter :=
  match entries with
  | [] => e
  | _ =>
      let e1 := countMarshalFailures e entries in
      let entriesInBatch := Z.of_nat (length entries) in
      let '(ok, e2) := trySend (Z.to_nat (RetryMax (config e1) + 1)) e1 in
      if ok
      then with_counters e2 (add (entriesSent e2) entriesInBatch)
                         (entriesFailed e2) (entriesDropped e2)
                         (add (batchesSent e2) 1) (attempts e2)
      else with_counters e2 (entriesSent e2)
                         (add (entriesFailed e2) entriesInBatch)
                         (entriesDropped e2) (batchesSent e2) (attempts e2)
  end.

(** The three branches of the worker's [select] in [run]. *)
Definition workerRecv (e : Exporter) : Exporter :=
  match entryChan e with
  | [] => e
  | entry :: q =>
      let b := (batch e ++ [entry])%list in
      if (BatchSize (config e) <=? Z.of_nat (length b))%Z
      then with_batch (sendBatch (with_chan e q) b) []
      else with_batch (with_chan e q) b
  end.

Definition workerTick (e : Exporter) : Exporter :=
  match batch e with
  | [] => e
  | b => with_batch (sendBatch e b) []
  end.

Definition workerShutdown (e : Exporter) : Exporter :=
  let b := (batch e ++ entryChan e)%list in
  let e1 := with_batch (with_chan e []) b in
  let e2 := match b with
            | [] => e1
            | _ => sendBatch e1 b
            end in
  with_flags e2 (closeCalled e2) true.

(** What can happen before [Close]: a caller pushes, or the worker
    takes its receive branch or its ticker branch. *)
Inductive Action :=
| APush (now : Time) (entry : Entry) (provider : string)
| ARecv
| ATick.

Definition step (e : Exporter) (a : Action) : Exporter :=
  match a with
  | APush now entry provider => Push now e entry provider
  | ARecv => if workerDone e then e else workerRecv e
  | ATick => if workerDone e then e else workerTick e
  end.

Definition runActions (e : Exporter) (acts : list Action) : Exporter :=
  foldl step e acts.

(** [e.Close()]: the first call closes [closeChan] and waits for the
    worker, which drains the queue and sends the last batch; when the
    wait outlasts [ShutdownTimeout] ([timedOut]) an error is returned
    while the worker is still at work. Later calls return nil. *)
Definition Close (timedOut : bool) (e : Exporter) : option string * Exporter :=
  if closeCalled e then (None, e)
  else if timedOut
  then (Some "shutdown timeout", with_flags e true (workerDone e))
  else (None, with_flags (if workerDone e then e else workerShutdown e)
                         true true).

Definition isPush (a : Action) : bool :=
  match a with APush _ _ _ => true | _ => false end.

(** The sum the accounting identity is about. *)
Definition accounted (e : Exporter) : Z :=
  (entriesSent e + entriesFailed e + entriesDropped e)%Z.

(** How many entries of a list [json.Marshal] rejects. *)
Definition unmarshalable (q : list lokiEntry) : nat :=
  length (List.filter (fun le => negb (marshalsEntry (le_entry le))) q).

(** The counters together with what is still on its way: every entry
    in the queue or in the batch will be counted once when its batch is
    sent, and once more if it cannot be serialized. *)
Definition balance (e : Exporter) : Z :=
  (accounted e
   + Z.of_nat (length (entryChan e) + length (batch e))
   + Z.of_nat (unmarshalable (entryChan e) + unmarshalable (batch e)))%Z.

(** The entries handed to [Push] during a run. *)
Definition pushedEntries (acts : list Action) : list Entry :=
  omap (fun a => match a with APush _ entry _ => Some entry | _ => None end) acts.

(** The entries the queue took in during a run (the pushes that were
    not dropped), in order. *)
Fixpoint accepted (e : Exporter) (acts : list Action) : list lokiEntry :=
  match acts with
  | [] => []
  | a :: rest =>
      let e' := step e a in
      match a with
      | APush _ _ _ =>
          (drop (length (entryChan e)) (entryChan e') ++ accepted e' rest)%list
      | _ => accepted e' rest
      end
  end.

Definition pushCount (acts : list Action) : nat :=
  length (List.filter isPush acts).

End Exporter.

End Loki.

(** ** multi_writer.go *)

Module MultiWriter.

Import HTTP Journal Loki.

(** What the two destinations see, in the order they see it. *)
Inductive Event :=
| EvJournal (c : LogCall)
| EvPush (entry : Entry) (provider : string)
| EvLokiClose
| EvJournalClose.

(** [MultiWriter {file, loki}]; [loki] may be nil. [trace] records the
    calls made on the two destinations. *)
Record MultiWriter := mkMW {
  file : Logger;
  loki : option LokiExporter;
  trace : list Event
}.

Definition NewMultiWriter (f : Logger) (l : option LokiExporter) : MultiWriter :=
  mkMW f l [].

Section Methods.

Variable parseRFC3339Nano : string -> option Time.

(** The readings of [timeNowRFC3339Nano()] and, inside [Push], of
    [time.Now()]. *)
Variable ts : string.
Variable now : Time.

Definition metaMap (machine host session : string) (requestID : option string)
  : Entry :=
  let base : Entry :=
    <["ts" := VString ts]>
      (<["machine" := VString machine]>
         (<["host" := VString host]>
            (<["session" := VString session]> ∅))) in
  match requestID with
  | Some rid => <["request_id" := VString rid]> base
  | None => base
  end.

(** The call on the file logger, which every log method makes first. *)
Definition callFile (m : MultiWriter) (c : LogCall) : option string * MultiWriter :=
  let '(err, f') := log (file m) c in
  (err, mkMW f' (loki m) (trace m ++ [EvJournal c])%list).

(** [if m.loki != nil { ...; m.loki.Push(entry, provider) }]. *)
Definition pushLoki (m : MultiWriter) (entry : Entry) (provider : string)
  : MultiWriter :=
  match loki m with
  | None => m
  | Some e =>
      mkMW (file m) (Some (Push parseRFC3339Nano now e entry provider))
           (trace m ++ [EvPush entry provider])%list
  end.

Definition sessionStartEntry (m : MultiWriter) (sessionID provider upstream : string)
  : Entry :=
  <["type" := VString "session_start"]>
    (<["provider" := VString provider]>
       (<["upstream" := VString upstream]>
          (<["_meta" := VMap (metaMap (machineID (file m)) upstream sessionID None)]>
             ∅))).

Definition LogSessionStart (m : MultiWriter) (sessionID provider upstream : string)
  : option string * MultiWriter :=
  let '(err, m1) := callFile m (CallSessionStart sessionID provider upstream) in
  (err, pushLoki m1 (sessionStartEntry m1 sessionID provider upstream) provider).

Definition requestEntry (m : MultiWriter) (sessionID : string) (seq : Z)
           (method path : string) (headers : Header) (body requestID : string)
  : Entry :=
  let upstream := default "" (upstreams (file m) !! sessionID) in
  <["type" := VString "request"]>
    (<["seq" := VInt seq]>
       (<["method" := VString method]>
          (<["path" := VString path]>
             (<["headers" := VHeader (Obfuscate.ObfuscateHeaders headers)]>
                (<["body" := VString body]>
                   (<["size" := VInt (Z.of_nat (String.length body))]>
                      (<["_meta" := VMap (metaMap (machineID (file m)) upstream
                                                  sessionID (Some requestID))]>
                         ∅))))))).

Definition LogRequest (m : MultiWriter) (sessionID provider : string) (seq : Z)
           (method path : string) (headers : Header) (body requestID : string)
  : option string * MultiWriter :=
  let '(err, m1) :=
    callFile m (CallRequest sessionID provider seq method path headers body
                            requestID) in
  (err, pushLoki m1 (requestEntry m1 sessionID seq method path headers body
                                  requestID) provider).

Definition responseEntry (m : MultiWriter) (sessionID : string) (seq status : Z)
           (headers : Header) (body : string)
           (chunks : option (list StreamChunk)) (timing : ResponseTiming)
           (requestID : string) : Entry :=
  let upstream := default "" (upstreams (file m) !! sessionID) in
  let entry : Entry :=
    <["type" := VString "response"]>
      (<["seq" := VInt seq]>
         (<["status" := VInt status]>
            (<["headers" := VHeader headers]>
               (<["timing" := VTiming timing]>
                  (<["size" := VInt (Z.of_nat (String.length body))]>
                     (<["_meta" := VMap (metaMap (machineID (file m)) upstream
                                                 sessionID (Some requestID))]>
                        ∅)))))) in
  match chunks with
  | Some cs => <["chunks" := VChunks cs]> entry
  | None => <["body" := VString body]> entry
  end.

Definition LogResponse (m : MultiWriter) (sessionID provider : string)
           (seq status : Z) (headers : Header) (body : string)
           (chunks : option (list StreamChunk)) (timing : ResponseTiming)
           (requestID : string) : option string * MultiWriter :=
  let '(err, m1) :=
    callFile m (CallResponse sessionID provider seq status headers body chunks
                             timing requestID) in
  (err, pushLoki m1 (responseEntry m1 sessionID seq status headers body chunks
                                   timing requestID) provider).

Definition forkEntry (m : MultiWriter) (sessionID : string) (fromSeq : Z)
           (parentSession : string) : Entry :=
  let upstream := default "" (upstreams (file m) !! sessionID) in
  <["type" := VString "fork"]>
    (<["from_seq" := VInt fromSeq]>
       (<["parent_session" := VString parentSession]>
          (<["reason" := VString "message_history_diverged"]>
             (<["_meta" := VMap (metaMap (machineID (file m)) upstream
                                         sessionID None)]>
                ∅)))).

Definition LogFork (m : MultiWriter) (sessionID provider : string) (fromSeq : Z)
           (parentSession : string) : option string * MultiWriter :=
  let '(err, m1) := callFile m (CallFork sessionID provider fromSeq parentSession) in
  (err, pushLoki m1 (forkEntry m1 sessionID fromSeq parentSession) provider).

(** The four log methods behind one call. *)
Definition logVia (m : MultiWriter) (c : LogCall) : option string * MultiWriter :=
  match c with
  | CallSessionStart sid provider upstream =>
      LogSessionStart m sid provider upstream
  | CallRequest sid provider seq method path headers body rid =>
      LogRequest m sid provider seq method path headers body rid
  | CallResponse sid provider seq status headers body chunks timing rid =>
      LogResponse m sid provider seq status headers body chunks timing rid
  | CallFork sid provider fromSeq parent =>
      LogFork m sid provider fromSeq parent
  end.

(** The entry a log method builds for the exporter. *)
Definition entryOf (m : MultiWriter) (c : LogCall) : Entry :=
  match c with
  | CallSessionStart sid provider upstream =>
      sessionStartEntry m sid provider upstream
  | CallRequest sid provider seq method path headers body rid =>
      requestEntry m sid seq method path headers body rid
  | CallResponse sid provider seq status headers body chunks timing rid =>
      responseEntry m sid seq status headers body chunks timing rid
  | CallFork sid provider fromSeq parent =>
      forkEntry m sid fromSeq parent
  end.

Definition providerOf (c : LogCall) : string :=
  match c with
  | CallSessionStart _ provider _ => provider
  | CallRequest _ provider _ _ _ _ _ _ => provider
  | CallResponse _ provider _ _ _ _ _ _ _ => provider
  | CallFork _ provider _ _ => provider
  end.

End Methods.

(** [m.Close()]: the exporter first, then the file logger; the
    exporter's error, if any, is the one returned. *)
Definition Close (timedOut : bool) (m : MultiWriter) : option string * MultiWriter :=
  let '(err, l', tr) :=
    match loki m with
    | None => (None, None, trace m)
    | Some e =>
        let '(lokiErr, e') := Loki.Close timedOut e in
        (lokiErr, Some e', (trace m ++ [EvLokiClose])%list)
    end in
  let '(fileErr, f') := Journal.Close (file m) in
  let err' := match fileErr, err with
              | Some fe, None => Some fe
              | _, _ => err
              end in
  (err', mkMW f' l' (tr ++ [EvJournalClose])%list).

End MultiWriter.

(** ** The session store *)

Module SessionStore.

Import Session.

Record SessionRow := mkRow {
  client_session_id : string;
  row_provider : string;
  row_upstream : string;
  last_seq : Z;
  file_path : string
}.

(** Modelled from the spec: [SessionDB] (db.go) with its client-id
    operations is not under src/. Spec 4.2 gives its operations:
    [create_session] and [create_session_with_client_id] insert and fail
    with [Conflict] if the id exists, [find_by_client_session_id] returns
    the session id or the empty string, [get_session_with_client_id]
    returns (client id, provider, upstream, last_seq),
    [update_session_seq] updates and fails if the id is missing. Spec 3:
    [last_seq] is at least 1 and the client session id is unique when
    not empty; a session is created with [last_seq = 1], the number of
    the request that created it. *)
Record SessionDB := mkDB {
  rows : gmap string SessionRow;
  by_client : gmap string string;
  patterns : gmap string PatternState
}.

Definition emptyDB : SessionDB := mkDB ∅ ∅ ∅.

Definition ErrConflict : string := "Conflict".
Definition ErrNotFound : string := "NotFound".

Definition CreateSession (db : SessionDB) (id provider upstream filePath : string)
  : option string * SessionDB :=
  match rows db !! id with
  | Some _ => (Some ErrConflict, db)
  | None =>
      (None, mkDB (<[id := mkRow "" provider upstream 1 filePath]> (rows db))
                  (by_client db) (patterns db))
  end.

Definition CreateSessionWithClientID (db : SessionDB)
           (id clientSessionID provider upstream filePath : string)
  : option string * SessionDB :=
  match rows db !! id, by_client db !! clientSessionID with
  | None, None =>
      (None, mkDB (<[id := mkRow clientSessionID provider upstream 1 filePath]>
                     (rows db))
                  (<[clientSessionID := id]> (by_client db)) (patterns db))
  | _, _ => (Some ErrConflict, db)
  end.

Definition FindByClientSessionID (db : SessionDB) (clientSessionID : string)
  : string * option string :=
  (default "" (by_client db !! clientSessionID), None).

Definition GetSessionWithClientID (db : SessionDB) (id : string)
  : string * string * string * Z * option string :=
  match rows db !! id with
  | Some r => (client_session_id r, row_provider r, row_upstream r, last_seq r, None)
  | None => ("", "", "", 0%Z, Some ErrNotFound)
  end.

Definition UpdateSessionSeq (db : SessionDB) (id : string) (seq : Z)
  : option string * SessionDB :=
  match rows db !! id with
  | Some r =>
      (None, mkDB (<[id := mkRow (client_session_id r) (row_provider r)
                                 (row_upstream r) seq (file_path r)]> (rows db))
                  (by_client db) (patterns db))
  | None => (Some ErrNotFound, db)
  end.

End SessionStore.

(** ** session.go: the session manager *)

Module SessionManager.

Import GoInt HTTP SessionStore.

Record SessionManager := mkSM {
  baseDir : string;
  db : SessionDB
}.

(** The surroundings of one call: the id drawn by [generateSessionID],
    the date string of [time.Now()], and the outcome of [os.MkdirAll]. *)
Record Env := mkEnv {
  env_sessionID : string;
  env_dateStr : string;
  env_mkdirErr : option string
}.

(** The result tuple [(sessionID, seq, isNew, err)]. *)
Definition Result : Type := string * Z * bool * option string.

Definition failed (e : string) : Result := ("", 0%Z, false, Some e).

(** [filepath.Join] of clean, non-empty elements. *)
Definition Join3 (a b c : string) : string := a ++ "/" ++ b ++ "/" ++ c.

Definition createNewSession (env : Env) (sm : SessionManager)
           (provider upstream : string) : Result * SessionManager :=
  let sessionID := env_sessionID env in
  let filePath := Join3 upstream (env_dateStr env) (sessionID ++ ".jsonl") in
  match env_mkdirErr env with
  | Some e => (failed e, sm)
  | None =>
      match CreateSession (db sm) sessionID provider upstream filePath with
      | (Some e, _) => (failed e, sm)
      | (None, db') => ((sessionID, 1%Z, true, None), mkSM (baseDir sm) db')
      end
  end.

Definition createNewSessionWithClientID (env : Env) (sm : SessionManager)
           (clientSessionID provider upstream : string) : Result * SessionManager :=
  let sessionID := env_sessionID env in
  let filePath := Join3 upstream (env_dateStr env) (sessionID ++ ".jsonl") in
  match env_mkdirErr env with
  | Some e => (failed e, sm)
  | None =>
      match CreateSessionWithClientID (db sm) sessionID clientSessionID
                                      provider upstream filePath with
      | (Some e, _) => (failed e, sm)
      | (None, db') => ((sessionID, 1%Z, true, None), mkSM (baseDir sm) db')
      end
  end.

Definition getOrCreateByClientSessionID (env : Env) (sm : SessionManager)
           (clientSessionID provider upstream : string) : Result * SessionManager :=
  match FindByClientSessionID (db sm) clientSessionID with
  | (_, Some e) => (failed e, sm)
  | (existingSession, None) =>
      if negb (String.eqb existingSession "") then
        match GetSessionWithClientID (db sm) existingSession with
        | (_, _, _, _, Some e) => (failed e, sm)
        | (_, _, _, lastSeq, None) =>
            let nextSeq := add lastSeq 1 in
            match UpdateSessionSeq (db sm) existingSession nextSeq with
            | (Some e, _) => (failed e, sm)
            | (None, db') =>
                ((existingSession, nextSeq, false, None), mkSM (baseDir sm) db')
            end
        end
      else createNewSessionWithClientID env sm clientSessionID provider upstream
  end.

Section GetOrCreate.

(** [ExtractClientSessionID(body, provider, headers, path)] decodes the
    request body; it is not under src/. *)
Variable ExtractClientSessionID : string -> string -> Header -> string -> string.

Definition GetOrCreateSession (env : Env) (sm : SessionManager)
           (body provider upstream : string) (headers : Header) (path : string)
  : Result * SessionManager :=
  let clientSessionID := ExtractClientSessionID body provider headers path in
  if negb (String.eqb clientSessionID "")
  then getOrCreateByClientSessionID env sm clientSessionID provider upstream
  else createNewSession env sm provider upstream.

End GetOrCreate.

(** The sequence numbers handed out to [n] consecutive requests that
    carry the same client session id. *)
Fixpoint seqsOf (envs : list Env) (sm : SessionManager)
         (clientSessionID provider upstream : string) : list Z :=
  match envs with
  | [] => []
  | env :: rest =>
      let '((_, seq, _, _), sm') :=
        getOrCreateByClientSessionID env sm clientSessionID provider upstream in
      seq :: seqsOf rest sm' clientSessionID provider upstream
  end.

End SessionManager.

(** ** The event engine *)

Module Engine.

Import GoInt Session.

(** [ToolResult {tool_use_id, is_error}] of a request and the content
    blocks of a response. *)
Record ToolResult := mkToolResult { ToolUseID : string; IsError : bool }.

Record ContentBlock := mkBlock {
  Type_ : string;
  Text : string;
  ToolID : string;
  ToolName : string
}.

Record ToolCall := mkToolCall {
  tc_ToolID : string;
  tc_ToolName : string;
  tc_ToolIndex : Z
}.

Record PatternData := mkPatternData {
  pd_TurnCount : Z;
  pd_SessionToolCount : Z;
  pd_ToolStreak : Z;
  pd_RetryCount : Z
}.

Record TokenData := mkTokenData { InputTokens : Z; OutputTokens : Z }.

Inductive Event :=
| TurnStart (turnDepth : Z) (errorRecovered : bool)
| TurnEnd (stopReason : string) (isRetry : bool) (errorType : string)
          (patterns : PatternData) (tokens : TokenData)
| ToolCallEv (toolName : string) (toolIndex : Z) (toolUseID : string)
| ToolResultEv (toolName toolUseID : string) (isError : bool).

(** What the engine takes from the response. *)
Record Response := mkResponse {
  content : list ContentBlock;
  stopReason : string;
  errorType : string;
  tokens : TokenData
}.

Definition with_last_was_error (st : PatternState) (b : bool) : PatternState :=
  mkPatternState (TurnCount st) (LastToolName st) (ToolStreak st) (RetryCount st)
                 (SessionToolCount st) b (PendingToolIDs st).

Definition with_pending (st : PatternState) (p : gmap string string) : PatternState :=
  mkPatternState (TurnCount st) (LastToolName st) (ToolStreak st) (RetryCount st)
                 (SessionToolCount st) (LastWasError st) p.

Definition with_counts (st : PatternState) (turns tools : Z) : PatternState :=
  mkPatternState turns (LastToolName st) (ToolStreak st) (RetryCount st)
                 tools (LastWasError st) (PendingToolIDs st).

(** Modelled from the spec: [clear_matched_tool_id] (spec 4.8) removes
    the mapping and returns the tool name, empty if not present. *)
Definition ClearMatchedToolID (st : PatternState) (toolUseID : string)
  : string * PatternState :=
  (default "" (PendingToolIDs st !! toolUseID),
   with_pending st (delete toolUseID (PendingToolIDs st))).

(** Modelled from the spec: [processToolResultsAndEmitEvents] (proxy.go
    with the event emitter) is not under src/. Spec 4.9 step 1: for each
    tool result of the request the tool name is recovered with
    [clear_matched_tool_id] and a [tool_result] event is emitted; then
    [last_was_error] is set to the OR of the [is_error] flags. *)
Fixpoint foldToolResults (st : PatternState) (results : list ToolResult)
  : list Event * PatternState :=
  match results with
  | [] => ([], st)
  | r :: rest =>
      let '(name, st1) := ClearMatchedToolID st (ToolUseID r) in
      let '(evs, st2) := foldToolResults st1 rest in
      (ToolResultEv name (ToolUseID r) (IsError r) :: evs, st2)
  end.

Definition anyError (results : list ToolResult) : bool :=
  existsb IsError results.

Definition processToolResultsAndEmitEvents (st : PatternState)
           (results : list ToolResult) : list Event * PatternState :=
  let '(evs, st1) := foldToolResults st results in
  (evs, with_last_was_error st1 (anyError results)).

(** [extractToolCalls(content)], as [TestExtractToolCalls] fixes it: the
    [tool_use] blocks in order, indexed from 0 among themselves. *)
Fixpoint extractToolCallsFrom (index : Z) (blocks : list ContentBlock)
  : list ToolCall :=
  match blocks with
  | [] => []
  | b :: rest =>
      if String.eqb (Type_ b) "tool_use"
      then mkToolCall (ToolID b) (ToolName b) index
           :: extractToolCallsFrom (add index 1) rest
      else extractToolCallsFrom index rest
  end.

Definition extractToolCalls (blocks : list ContentBlock) : list ToolCall :=
  extractToolCallsFrom 0 blocks.

Definition toolCallEvent (c : ToolCall) : Event :=
  ToolCallEv (tc_ToolName c) (tc_ToolIndex c) (tc_ToolID c).

Definition recordPending (st : PatternState) (calls : list ToolCall) : PatternState :=
  with_pending st
    (foldl (fun p c => <[tc_ToolID c := tc_ToolName c]> p) (PendingToolIDs st) calls).

(** Modelled from the spec: the event emission of one request/response
    cycle (proxy.go with the event emitter) is not under src/. Spec 4.9
    steps 1-6. The tool results are folded first and [turn_start] is
    emitted after them; the [error_recovered] it carries is the value
    [last_was_error] had when the state was loaded, before this cycle's
    fold overwrote it: the invariant of spec 4.9 ("consumed by the next
    turn's turn_start.error_recovered"), spec 9 and
    [TestErrorRecoveredFlag] fix that reading. *)
Definition runCycle (st : PatternState) (results : list ToolResult)
           (resp : Response) : list Event * PatternState :=
  let errorRecovered := LastWasError st in
  let '(resultEvents, st1) := processToolResultsAndEmitEvents st results in
  let turnStart := TurnStart (add (TurnCount st1) 1) errorRecovered in
  let calls := extractToolCalls (content resp) in
  let st2 := recordPending st1 calls in
  let firstToolName := match calls with
                       | c :: _ => tc_ToolName c
                       | [] => ""
                       end in
  let '(isRetry, st3) := ComputePatterns st2 firstToolName in
  let st4 := with_counts st3 (add (TurnCount st3) 1)
                         (add (SessionToolCount st3) (Z.of_nat (length calls))) in
  let turnEnd :=
    TurnEnd (stopReason resp) isRetry (errorType resp)
            (mkPatternData (TurnCount st4) (SessionToolCount st4)
                           (ToolStreak st4) (RetryCount st4))
            (tokens resp) in
  ((resultEvents ++ [turnStart] ++ map toolCallEvent calls ++ [turnEnd])%list, st4).

(** The state after the fold of step 1, as [turn_start] finds it. *)
Definition stateAtTurnStart (st : PatternState) (results : list ToolResult)
  : PatternState :=
  snd (processToolResultsAndEmitEvents st results).

(** The [turn_start] events of a list of events. *)
Definition turnStarts (evs : list Event) : list (Z * bool) :=
  omap (fun e => match e with
                 | TurnStart d r => Some (d, r)
                 | _ => None
                 end) evs.

Definition turnEndRetries (evs : list Event) : list bool :=
  omap (fun e => match e with
                 | TurnEnd _ r _ _ _ => Some r
                 | _ => None
                 end) evs.

(** Consecutive cycles of one session. *)
Fixpoint runCycles (st : PatternState) (turns : list (list ToolResult * Response))
  : list Event * PatternState :=
  match turns with
  | [] => ([], st)
  | (results, resp) :: rest =>
      let '(evs, st1) := runCycle st results resp in
      let '(evs', st2) := runCycles st1 rest in
      ((evs ++ evs')%list, st2)
  end.

End Engine.

(** ** logger.go: the file logger of the implementation plan *)

Module FileLogger.

Import GoStrings HTTP Journal Loki.

(** The files of the disk: path to content. *)
Abbreviation Disk := (gmap string string).

(** [Logger {baseDir, files}]. [files] maps the key of a session to its
    open file, here the path it was opened at with [O_APPEND]; [None] is
    the nil map [Close] leaves. *)
Record Logger := mkLogger {
  baseDir : string;
  files : option (gmap string string)
}.

(** What the operating system does during one call: the errors of
    [os.MkdirAll] and [os.OpenFile], if any, and the outcome of
    [f.Write]: [None] when all bytes are written, else the number of
    bytes written and the error. *)
Record Os := mkOs {
  os_mkdirErr : option string;
  os_openErr : option string;
  os_writeErr : option (nat * string)
}.

(** How a call ends: it returns an error or nil, or it panics. *)
Inductive Result :=
| Done (err : option string)
| Panic.

Inductive GetResult :=
| GotFile (path : string)
| GetErr (e : string)
| GetPanic.

(** [filepath.Join] of two clean, non-empty elements. *)
Definition Join2 (a b : string) : string := a ++ "/" ++ b.

Definition keyOfSession (sessionID provider : string) : string :=
  provider ++ "/" ++ sessionID.

Definition pathOfSession (l : Logger) (sessionID provider : string) : string :=
  Join2 (Join2 (baseDir l) provider) (sessionID ++ ".jsonl").

(** [NewLogger(baseDir)]. *)
Definition NewLogger (mkdirErr : option string) (dir : string)
  : option Logger * option string :=
  match mkdirErr with
  | Some e => (None, Some ("failed to create log directory: " ++ e))
  | None => (Some (mkLogger dir (Some ∅)), None)
  end.

(** [l.Close()]. *)
Definition Close (l : Logger) : option string * Logger :=
  (None, mkLogger (baseDir l) None).

(** [O_CREATE]: the file exists after a successful open. *)
Definition created (d : Disk) (path : string) : Disk :=
  match d !! path with
  | Some _ => d
  | None => <[path := ""]> d
  end.

(** A write through a descriptor opened with [O_APPEND]. *)
Definition appended (d : Disk) (path data : string) : Disk :=
  <[path := default "" (d !! path) ++ data]> d.

(** [l.getFile(sessionID, provider)]. Storing into the nil map that
    [Close] leaves panics, after the directory and the file have been
    created. *)
Definition getFile (os : Os) (l : Logger) (d : Disk) (sessionID provider : string)
  : GetResult * Logger * Disk :=
  let key := keyOfSession sessionID provider in
  match files l ≫= (fun fs => fs !! key) with
  | Some path => (GotFile path, l, d)
  | None =>
      match os_mkdirErr os with
      | Some e => (GetErr e, l, d)
      | None =>
          let path := pathOfSession l sessionID provider in
          match os_openErr os with
          | Some e => (GetErr e, l, d)
          | None =>
              let d' := created d path in
              match files l with
              | None => (GetPanic, l, d')
              | Some fs =>
                  (GotFile path, mkLogger (baseDir l) (Some (<[key := path]> fs)), d')
              end
          end
      end
  end.

Section Methods.

(** [json.Marshal] on an entry: the bytes, or the error. *)
Variable jsonMarshal : Entry -> string + string.

(** The reading of [time.Now().UTC().Format(time.RFC3339Nano)]. *)
Variable ts : string.

(** [l.writeEntry(sessionID, provider, entry)]. *)
Definition writeEntry (os : Os) (l : Logger) (d : Disk)
           (sessionID provider : string) (entry : Entry)
  : Result * Logger * Disk :=
  match getFile os l d sessionID provider with
  | (GetErr e, l', d') => (Done (Some e), l', d')
  | (GetPanic, l', d') => (Panic, l', d')
  | (GotFile path, l', d') =>
      match jsonMarshal entry with
      | inr e => (Done (Some e), l', d')
      | inl data =>
          let line := data ++ String "010"%char "" in
          match os_writeErr os with
          | None => (Done None, l', appended d' path line)
          | Some (n, e) => (Done (Some e), l', appended d' path (take n line))
          end
      end
  end.

Definition sessionStartEntry (provider upstream : string) : Entry :=
  <["type" := VString "session_start"]>
    (<["ts" := VString ts]>
       (<["provider" := VString provider]>
          (<["upstream" := VString upstream]> ∅))).

Definition LogSessionStart (os : Os) (l : Logger) (d : Disk)
           (sessionID provider upstream : string) : Result * Logger * Disk :=
  writeEntry os l d sessionID provider (sessionStartEntry provider upstream).

Definition requestEntry (seq : Z) (method path : string) (headers : Header)
           (body : string) : Entry :=
  <["type" := VString "request"]>
    (<["ts" := VString ts]>
       (<["seq" := VInt seq]>
          (<["method" := VString method]>
             (<["path" := VString path]>
                (<["headers" := VHeader (Obfuscate.ObfuscateHeaders headers)]>
                   (<["body" := VString body]>
                      (<["size" := VInt (Z.of_nat (String.length body))]> ∅))))))).

Definition LogRequest (os : Os) (l : Logger) (d : Disk)
           (sessionID provider : string) (seq : Z) (method path : string)
           (headers : Header) (body : string) : Result * Logger * Disk :=
  writeEntry os l d sessionID provider (requestEntry seq method path headers body).

Definition responseEntry (seq status : Z) (headers : Header) (body : string)
           (chunks : option (list StreamChunk)) (timing : ResponseTiming) : Entry :=
  let entry : Entry :=
    <["type" := VString "response"]>
      (<["ts" := VString ts]>
         (<["seq" := VInt seq]>
            (<["status" := VInt status]>
               (<["headers" := VHeader headers]>
                  (<["timing" := VTiming timing]>
                     (<["size" := VInt (Z.of_nat (String.length body))]> ∅)))))) in
  match chunks with
  | Some cs => <["chunks" := VChunks cs]> entry
  | None => <["body" := VString body]> entry
  end.

Definition LogResponse (os : Os) (l : Logger) (d : Disk)
           (sessionID provider : string) (seq status : Z) (headers : Header)
           (body : string) (chunks : option (list StreamChunk))
           (timing : ResponseTiming) : Result * Logger * Disk :=
  writeEntry os l d sessionID provider
             (responseEntry seq status headers body chunks timing).

Definition forkEntry (fromSeq : Z) (parentSession : string) : Entry :=
  <["type" := VString "fork"]>
    (<["ts" := VString ts]>
       (<["from_seq" := VInt fromSeq]>
          (<["parent_session" := VString parentSession]>
             (<["reason" := VString "message_history_diverged"]> ∅)))).

Definition LogFork (os : Os) (l : Logger) (d : Disk)
           (sessionID provider : string) (fromSeq : Z) (parentSession : string)
  : Result * Logger * Disk :=
  writeEntry os l d sessionID provider (forkEntry fromSeq parentSession).

(** One call of a log method. *)
Inductive Call :=
| SessionStart (sessionID provider upstream : string)
| Request (sessionID provider : string) (seq : Z) (method path : string)
          (headers : Header) (body : string)
| Response (sessionID provider : string) (seq status : Z) (headers : Header)
           (body : string) (chunks : option (list StreamChunk))
           (timing : ResponseTiming)
| Fork (sessionID provider : string) (fromSeq : Z) (parentSession : string).

Definition logCall (os : Os) (l : Logger) (d : Disk) (c : Call)
  : Result * Logger * Disk :=
  match c with
  | SessionStart sid provider upstream => LogSessionStart os l d sid provider upstream
  | Request sid provider seq method path headers body =>
      LogRequest os l d sid provider seq method path headers body
  | Response sid provider seq status headers body chunks timing =>
      LogResponse os l d sid provider seq status headers body chunks timing
  | Fork sid provider fromSeq parent => LogFork os l d sid provider fromSeq parent
  end.

Definition sessionOf (c : Call) : string * string :=
  match c with
  | SessionStart sid provider _ => (sid, provider)
  | Request sid provider _ _ _ _ _ => (sid, provider)
  | Response sid provider _ _ _ _ _ _ => (sid, provider)
  | Fork sid provider _ _ => (sid, provider)
  end.

Definition entryOfCall (c : Call) : Entry :=
  match c with
  | SessionStart _ provider upstream => sessionStartEntry provider upstream
  | Request _ _ seq method path headers body =>
      requestEntry seq method path headers body
  | Response _ _ seq status headers body chunks timing =>
      responseEntry seq status headers body chunks timing
  | Fork _ _ fromSeq parent => forkEntry fromSeq parent
  end.

End Methods.

(** Every open file of the logger sits at the path of its key. *)
Definition wellFormed (l : Logger) : Prop :=
  forall fs key path,
    files l = Some fs -> fs !! key = Some path ->
    path = baseDir l ++ "/" ++ key ++ ".jsonl".

End FileLogger.

(** ** fingerprint.go *)

Module Fingerprint.

Import Loki.

(** The type switch in [canonicalizeMap] and [canonicalizeSlice]: a map
    is rebuilt key by key and a slice element by element, anything else
    is kept. The keys are visited in sorted order in the source; the
    order in which a Go map is filled cannot be observed, and [map_fold]
    visits every key once. *)
Fixpoint canonicalizeValue (v : GoValue) : GoValue :=
  match v with
  | VMap m => VMap (map_fold (fun k x r => <[k := canonicalizeValue x]> r) ∅ m)
  | VList l => VList (map canonicalizeValue l)
  | _ => v
  end.

(** [canonicalizeMap(m)] and [canonicalizeSlice(s)]. *)
Definition canonicalizeMap (m : Entry) : Entry :=
  map_fold (fun k x r => <[k := canonicalizeValue x]> r) ∅ m.

Definition canonicalizeSlice (s : list GoValue) : list GoValue :=
  map canonicalizeValue s.

(** A [[]map[string]interface{}]: an element can be a nil map ([None]). *)
Abbreviation Messages := (list (option Entry)).

(** [canonicalizeMessages(messages)]: every element of the result is a
    map made by [canonicalizeMap], also for a nil map. *)
Definition canonicalizeMessages (messages : Messages) : Messages :=
  map (fun msg => Some (canonicalizeMap (default ∅ msg))) messages.

(** The number of constructors of a value. *)
Fixpoint weight (v : GoValue) : nat :=
  match v with
  | VMap m => S (map_fold (fun _ x acc => weight x + acc)%nat O m)
  | VList l => S (list_sum (map weight l))
  | _ => 1%nat
  end.

Section Hashing.

(** [json.Unmarshal] into a [map[string]interface{}] (the error, or the
    decoded object) and into a [[]map[string]interface{}]; [json.Marshal]
    on such a slice (the bytes and the error); the hex form of SHA-256. *)
Variable unmarshalObject : string -> string + Entry.
Variable unmarshalMessages : string -> option Messages.
Variable marshalMessages : Messages -> string * option string.
Variable sha256hex : string -> string.

(** [FingerprintMessages(messagesJSON)]. *)
Definition FingerprintMessages (messagesJSON : string) : string :=
  match unmarshalMessages messagesJSON with
  | None => sha256hex messagesJSON
  | Some messages =>
      sha256hex (fst (marshalMessages (canonicalizeMessages messages)))
  end.

(** [ExtractMessages(body, provider)]; a nil slice is [None]. *)
Definition ExtractMessages (body provider : string)
  : option Messages * option string :=
  match unmarshalObject body with
  | inl err => (None, Some err)
  | inr request =>
      match request !! "messages" with
      | Some (VList messagesSlice) =>
          (Some (map (fun m => match m with
                               | VMap msg => Some msg
                               | _ => None
                               end) messagesSlice), None)
      | _ => (None, None)
      end
  end.

(** [ExtractPriorMessages(body, provider)]. *)
Definition ExtractPriorMessages (body provider : string)
  : option Messages * option string :=
  match ExtractMessages body provider with
  | (_, Some err) => (None, Some err)
  | (messages, None) =>
      let messages := default [] messages in
      if (length messages <=? 1)%nat then (None, None)
      else (Some (take (length messages - 1) messages), None)
  end.

(** [ComputePriorFingerprint(body, provider)]. *)
Definition ComputePriorFingerprint (body provider : string)
  : string * option string :=
  match ExtractPriorMessages body provider with
  | (_, Some err) => ("", Some err)
  | (None, None) => ("", None)
  | (Some prior, None) =>
      match marshalMessages prior with
      | (_, Some err) => ("", Some err)
      | (priorJSON, None) => (FingerprintMessages priorJSON, None)
      end
  end.

End Hashing.

End Fingerprint.

(** ** setup.go *)

Module Setup.

Import GoStrings.

Abbreviation Disk := (gmap string string).

Definition shellRCMarker : string := "# LLM Proxy".

Definition lf : string := String "010"%char "".
Definition quote : string := String "034"%char "".

(** The text [PatchShellRC] appends. *)
Definition line : string :=
  lf ++ shellRCMarker ++ lf ++ "eval " ++ quote ++ "$(llm-proxy --env)" ++ quote ++ lf.

(** What the operating system does during one call: the error of
    [os.ReadFile] when it is not "does not exist", the error of
    [os.OpenFile], and the outcome of [f.WriteString] ([None] when all
    bytes are written, else the bytes written and the error). *)
Record Os := mkOs {
  os_readErr : option string;
  os_openErr : option string;
  os_writeErr : option (nat * string)
}.

(** [PatchShellRC(rcPath)]. *)
Definition PatchShellRC (os : Os) (d : Disk) (rcPath : string)
  : option string * Disk :=
  match os_readErr os with
  | Some err => (Some err, d)
  | None =>
      let content := default "" (d !! rcPath) in
      if Contains content shellRCMarker then (None, d)
      else
        match os_openErr os with
        | Some err => (Some err, d)
        | None =>
            match os_writeErr os with
            | None => (None, <[rcPath := content ++ line]> d)
            | Some (n, err) => (Some err, <[rcPath := content ++ take n line]> d)
            end
        end
  end.

(** [filepath.Join(home, shell)] for a clean [home]. *)
Definition Join2 (home shell : string) : string :=
  if String.eqb home "" then shell else home ++ "/" ++ shell.

Definition shells : list string := [".bashrc"; ".zshrc"].

(** [PatchAllShells()]: [home] is what [os.UserHomeDir] returns, [oss]
    what the operating system does during each call of [PatchShellRC];
    [os.Stat] succeeds on the files of the disk. *)
Fixpoint patchShells (oss : list Os) (d : Disk) (home : string)
         (todo : list string) : option string * Disk :=
  match todo with
  | [] => (None, d)
  | shell :: rest =>
      let rcPath := Join2 home shell in
      match d !! rcPath with
      | Some _ =>
          match PatchShellRC (default (mkOs None None None) (head oss)) d rcPath with
          | (Some err, d') => (Some err, d')
          | (None, d') => patchShells (tail oss) d' home rest
          end
      | None => patchShells oss d home rest
      end
  end.

Definition PatchAllShells (oss : list Os) (d : Disk) (home : string)
  : option string * Disk :=
  patchShells oss d home shells.

End Setup.

(** ** Concrete inputs used by the examples below *)

Module Samples.

Import HTTP Journal Proxy.

(** A client request to the Anthropic upstream that carries two
    hop-by-hop headers. *)
Definition clientHeaders : Header :=
  <["Connection" := ["keep-alive"]]>
    (<["Proxy-Authorization" := ["Basic abc"]]>
       (<["X-Api-Key" := ["sk-ant-api03-abcdefgh"]]>
          (<["Content-Type" := ["application/json"]]> ∅))).

Definition request : Request :=
  mkRequest "POST" "/anthropic/api.anthropic.com/v1/messages" ""
            clientHeaders (Some ("{}", None)).

Definition responseHeaders : Header :=
  <["Content-Type" := ["application/json"]]>
    (<["Request-Id" := ["req_1"]]> ∅).

Definition sessionID : string := "20260113-101500-deadbeef".

Definition env : Env :=
  mkEnv sessionID None
        (fun _ => DoResponse 200 responseHeaders "{}" None) 3 5.

Definition quietDisk : nat -> option string := fun _ => None.

Definition fullDisk : nat -> option string :=
  fun _ => Some "no space left on device".

Definition proxy : ProxyState :=
  NewProxyWithLogger (newLogger "user@host" quietDisk).

(** A streamed answer: two SSE lines, a blank line and an unterminated
    tail. *)
Definition sseHeaders : Header :=
  <["Content-Type" := ["text/event-stream"]]>
    (<["Cache-Control" := ["no-cache"]]> ∅).

Definition nl : string := String "010"%char "".

Definition sseBody : string :=
  "event: ping" ++ nl ++ "data: {}" ++ nl ++ nl ++ "tail".

Definition streamEnv : Streaming.StreamEnv :=
  Streaming.mkStreamEnv 0 (fun n => Z.of_nat n) 9 (fun _ _ => "").

(** A fan-out writer whose journal sits on a full disk and whose
    exporter has room for four entries. *)
Definition lokiConfig : Loki.LokiExporterConfig :=
  Loki.mkConfig "http://loki:3100/loki/api/v1/push" "" 2 0 1 0 true "test" 4 0.

Definition exporter (net : nat -> bool) : Loki.LokiExporter :=
  Loki.mkExporter (Loki.applyDefaults lokiConfig) [] [] 0 0 0 0 net 0 false false.

Definition failingWriter : MultiWriter.MultiWriter :=
  MultiWriter.NewMultiWriter (newLogger "user@host" fullDisk)
                             (Some (exporter (fun _ => true))).

Definition requestCall : LogCall :=
  CallRequest sessionID "anthropic" 1 "POST" "/v1/messages" clientHeaders "{}"
              "req-1".

Definition noParse : string -> option Loki.Time := fun _ => None.

(** An entry [json.Marshal] rejects (it holds a channel), and one it
    accepts. *)
Definition badEntry : Loki.Entry :=
  <["type" := Loki.VString "request"]> (<["body" := Loki.VOther false]> ∅).

Definition goodEntry : Loki.Entry :=
  <["type" := Loki.VString "request"]> (<["body" := Loki.VString "{}"]> ∅).

(** The three turns of [TestErrorRecoveredFlag]: the tool results of
    each request and the response to it. *)
Definition toolUse (id name : string) : Engine.ContentBlock :=
  Engine.mkBlock "tool_use" "" id name.

Definition errorRecoveryTurns
  : list (list Engine.ToolResult * Engine.Response) :=
  [ ([],
     Engine.mkResponse [toolUse "tool_err" "Bash"] "tool_use" ""
                       (Engine.mkTokenData 10 5));
    ([Engine.mkToolResult "tool_err" true],
     Engine.mkResponse [toolUse "tool_retry" "Bash"] "tool_use" ""
                       (Engine.mkTokenData 15 10));
    ([Engine.mkToolResult "tool_err" true; Engine.mkToolResult "tool_retry" false],
     Engine.mkResponse [Engine.mkBlock "text" "Done!" "" ""] "end_turn" ""
                       (Engine.mkTokenData 20 5)) ].



(** A store with one header map (at 1) whose two values live at 1 and 2. *)
Definition headerStore : Heap.Store :=
  Heap.mkStore
    (<[1%positive := ["sk-ant-api03-abcdefgh"]]>
       (<[2%positive := ["application/json"]]> ∅))
    (<[1%positive := <["X-Api-Key" := 1%positive]>
                       (<["Content-Type" := 2%positive]> ∅)]> ∅).

(** A run of an exporter: two pushes, one of an entry that cannot be
    serialized, with the worker receiving and ticking in between. *)
Definition lokiRun : list Loki.Action :=
  [Loki.APush 0 goodEntry "anthropic"; Loki.ARecv;
   Loki.APush 0 badEntry "anthropic"; Loki.ATick;
   Loki.APush 0 goodEntry "openai"].

Definition goodRun : list Loki.Action :=
  [Loki.APush 0 goodEntry "anthropic"; Loki.ARecv;
   Loki.APush 0 goodEntry "openai"; Loki.ATick].

Definition netUp : nat -> bool := fun _ => true.

(** Four turns: Bash, Bash after an error, no tool, Read. *)
Definition toolTurns : list (bool * string) :=
  [(false, "Bash"); (true, "Bash"); (false, ""); (false, "Read")].

(** A file logger on an empty disk, a serializer that always succeeds
    and an operating system that reports no error. *)
Definition fileLogger : FileLogger.Logger := FileLogger.mkLogger "logs" (Some ∅).

Definition marshalOk : Loki.Entry -> string + string := fun _ => inl "{}".

Definition osOk : FileLogger.Os := FileLogger.mkOs None None None.

(** A request whose conversation has three messages, the second of
    them not an object, with decoders that know this one body. *)
Definition userMessage (text : string) : Loki.Entry :=
  <["role" := Loki.VString "user"]> (<["content" := Loki.VString text]> ∅).

Definition chatRequest : Loki.Entry :=
  <["model" := Loki.VString "m"]>
    (<["messages" := Loki.VList [Loki.VMap (userMessage "a"); Loki.VNil;
                                 Loki.VMap (userMessage "b")]]> ∅).

Definition decodeObject : string -> string + Loki.Entry := fun _ => inr chatRequest.

Definition encodeMessages : Fingerprint.Messages -> string * option string :=
  fun ms => (String (ascii_of_nat (length ms)) "", None).

(** A home directory with a [.bashrc] that mentions the proxy already
    and a [.zshrc] that does not. *)
Definition homeDisk : Setup.Disk :=
  <["/home/u/.bashrc" := "# LLM Proxy"]> (<["/home/u/.zshrc" := "alias l=ls"]> ∅).

Definition setupOk : Setup.Os := Setup.mkOs None None None.

Definition textResponse : Engine.Response :=
  Engine.mkResponse [Engine.mkBlock "text" "ok" "" ""] "end_turn" ""
                    (Engine.mkTokenData 1 1).

End Samples.

(** * Theorems *)

Section ComputePatternsFacts.

Import GoInt Session.

Lemma incr_in_range (z : Z) :
  in_range z -> z <> max_int -> incr z = (z + 1)%Z.
Proof.
  unfold in_range, max_int, incr, wrap64. intros [Hlo Hhi] Hne.
  rewrite Z.mod_small by lia. lia.
Qed.

(** C4. [ComputePatterns] on every state and first tool name: with an
    empty name the streak and the retry count are reset to 0, the last
    tool name is kept and the result is [false]; otherwise the result is
    [first = last && last_was_error], the streak is incremented on the
    same tool and reset to 1 on another, the retry count is incremented
    on a retry and reset to 0 otherwise, and the last tool name becomes
    the first tool name. [LastWasError] is never modified (and neither
    are the turn count, the session tool count and the pending ids). *)
Theorem ComputePatterns_spec (st : PatternState) (first : string) :
  let r := fst (ComputePatterns st first) in
  let st' := snd (ComputePatterns st first) in
  LastWasError st' = LastWasError st
  /\ TurnCount st' = TurnCount st
  /\ SessionToolCount st' = SessionToolCount st
  /\ PendingToolIDs st' = PendingToolIDs st
  /\ (if String.eqb first ""
      then ToolStreak st' = 0%Z
           /\ RetryCount st' = 0%Z
           /\ LastToolName st' = LastToolName st
           /\ r = false
      else r = (String.eqb first (LastToolName st) && LastWasError st)
           /\ ToolStreak st' =
                (if String.eqb first (LastToolName st)
                 then incr (ToolStreak st) else 1%Z)
           /\ RetryCount st' =
                (if r then incr (RetryCount st) else 0%Z)
           /\ LastToolName st' = first).
Proof.
  unfold ComputePatterns.
  destruct (String.eqb first "") eqn:Hempty; cbn; repeat split; reflexivity.
Qed.

End ComputePatternsFacts.

(** ** Headers and their copies *)

Section HeaderFacts.

Import GoStrings HTTP Proxy.

Lemma canonicalKeys_lookup (h : Header) (k : string) (vs : list string) :
  canonicalKeys h = true -> h !! k = Some vs -> CanonicalMIMEHeaderKey k = k.
Proof.
  unfold canonicalKeys. rewrite forallb_forall. intros Hall Hk.
  apply String.eqb_eq.
  apply (Hall (k, vs)).
  apply list_elem_of_In, elem_of_map_to_list. exact Hk.
Qed.

Lemma Values_insert (h : Header) (k k' : string) (vs : list string) :
  Values (<[k := vs]> h) k' = if decide (k = k') then vs else Values h k'.
Proof.
  unfold Values. rewrite lookup_insert. destruct (decide (k = k')); reflexivity.
Qed.

Lemma Values_foldl_Add (d : Header) (key : string) (values : list string) (k : string) :
  Values (foldl (fun d' value => Header_Add d' key value) d values) k =
  if decide (CanonicalMIMEHeaderKey key = k)
  then (Values d k ++ values)%list else Values d k.
Proof.
  revert d. induction values as [|v values IH]; intros d; cbn [foldl].
  - destruct (decide _); [rewrite app_nil_r|]; reflexivity.
  - rewrite IH. unfold Header_Add. rewrite Values_insert.
    destruct (decide (CanonicalMIMEHeaderKey key = k)) as [->|Hne].
    + unfold Values. rewrite <- app_assoc. reflexivity.
    + reflexivity.
Qed.

(** With canonical keys [copyHeaders] appends, key by key, the values of
    the source to those of the destination. *)
Lemma copyHeaders_Values (dst src : Header) :
  canonicalKeys src = true ->
  forall k, Values (copyHeaders dst src) k = (Values dst k ++ Values src k)%list.
Proof.
  intros Hcanon.
  assert (Hk : forall k vs, src !! k = Some vs -> CanonicalMIMEHeaderKey k = k)
    by (intros k vs; apply canonicalKeys_lookup; exact Hcanon).
  clear Hcanon. revert Hk. unfold copyHeaders.
  apply (map_fold_weak_ind
           (fun r (m : Header) =>
              (forall k vs, m !! k = Some vs -> CanonicalMIMEHeaderKey k = k) ->
              forall k, Values r k = (Values dst k ++ Values m k)%list)).
  - intros _ k. unfold Values at 3. rewrite lookup_empty. cbn.
    rewrite app_nil_r. reflexivity.
  - intros i x m r Hnone IH Hk k.
    rewrite Values_foldl_Add.
    assert (Hi : CanonicalMIMEHeaderKey i = i).
    { apply (Hk i x). apply lookup_insert_eq. }
    rewrite Hi. rewrite Values_insert.
    assert (IH' : forall k, Values r k = (Values dst k ++ Values m k)%list).
    { apply IH. intros k' vs' Hk'. apply (Hk k' vs').
      rewrite lookup_insert_ne; [exact Hk'|]. intros ->. congruence. }
    destruct (decide (i = k)) as [->|Hne].
    + rewrite IH'.
      assert (Hm : Values m k = []) by (unfold Values; rewrite Hnone; reflexivity).
      rewrite Hm, app_nil_r. reflexivity.
    + apply IH'.
Qed.

Lemma copyHeaders_empty_Values (src : Header) (k : string) :
  canonicalKeys src = true -> Values (copyHeaders ∅ src) k = Values src k.
Proof.
  intros Hc. rewrite copyHeaders_Values by exact Hc.
  unfold Values at 1. rewrite lookup_empty. reflexivity.
Qed.

End HeaderFacts.

(** ** proxy.go: sequence numbers and the upstream request *)

Section ProxyFacts.

Import GoInt GoStrings HTTP Journal Proxy.

Lemma nextSeq_unknown_session (p : ProxyState) (sid : string) :
  seqNums p !! sid = None ->
  fst (nextSeq p sid) = 0%Z
  /\ seqNums (snd (nextSeq p sid)) !! sid = Some 1%Z.
Proof.
  intros Hnone. unfold nextSeq. rewrite Hnone. cbn. split; [reflexivity|].
  apply lookup_insert_eq.
Qed.

(** C3. [nextSeq] hands out the counter as it was before the increment:
    on a new proxy the first number of every session is 0 and the second
    is 1, and the [request] entry [ServeHTTP] writes for the first
    request of a session carries [seq = 0]. *)
Theorem nextSeq_first_request_gets_zero :
  (forall (l : Logger) (sid : string),
     fst (nextSeq (NewProxyWithLogger l) sid) = 0%Z
     /\ fst (nextSeq (snd (nextSeq (NewProxyWithLogger l) sid)) sid) = 1%Z)
  /\ match ServeHTTP Samples.env Samples.proxy newResponseWriter Samples.request with
     | (_, p', _) =>
         (fun l => request_seqs Samples.sessionID (calls l)) <$> logger p'
         = Some [0%Z]
     end.
Proof.
  split.
  - intros l sid. split; [reflexivity|].
    unfold nextSeq, NewProxyWithLogger; cbn.
    rewrite lookup_empty. cbn. rewrite lookup_insert_eq. reflexivity.
  - vm_compute. reflexivity.
Qed.

(** C5. The request built for the upstream has its [Host] set to the
    upstream host, and its headers are the client's with nothing
    removed: the hop-by-hop headers [Connection] and
    [Proxy-Authorization] of the sample request reach the upstream. *)
Theorem upstream_request_keeps_hop_by_hop_headers :
  (forall (upstream path reqBody : string) (r : Request),
     up_host (buildUpstreamRequest upstream path r reqBody) = upstream)
  /\ match ServeHTTP Samples.env Samples.proxy newResponseWriter Samples.request with
     | (_, _, Some up) =>
         up_host up = "api.anthropic.com"
         /\ up_header up !! "Connection" = Some ["keep-alive"]
         /\ up_header up !! "Proxy-Authorization" = Some ["Basic abc"]
     | _ => False
     end.
Proof.
  split.
  - reflexivity.
  - vm_compute. repeat split; reflexivity.
Qed.

(** Whatever the client sends is forwarded, key by key. *)
Lemma upstream_request_headers (upstream path reqBody : string) (r : Request)
      (k : string) :
  canonicalKeys (ReqHeader r) = true ->
  Values (up_header (buildUpstreamRequest upstream path r reqBody)) k
  = Values (ReqHeader r) k.
Proof. intros Hc. cbn. apply copyHeaders_empty_Values, Hc. Qed.

End ProxyFacts.

(** ** Byte strings *)

Section StringFacts.

Import GoStrings.

Lemma append_nil_l (s : string) : "" ++ s = s.
Proof. reflexivity. Qed.

Lemma append_cons (c : ascii) (s t : string) : String c s ++ t = String c (s ++ t).
Proof. reflexivity. Qed.

Lemma append_nil_r (s : string) : s ++ "" = s.
Proof.
  induction s as [|c s IH]; [reflexivity|]. rewrite append_cons, IH. reflexivity.
Qed.

Lemma append_assoc (a b c : string) : (a ++ b) ++ c = a ++ (b ++ c).
Proof.
  induction a as [|x a IH]; [reflexivity|]. rewrite !append_cons, IH. reflexivity.
Qed.

Lemma length_append (a b : string) :
  String.length (a ++ b) = (String.length a + String.length b)%nat.
Proof.
  induction a as [|x a IH]; [reflexivity|]. rewrite append_cons. simpl.
  rewrite IH. reflexivity.
Qed.

Lemma prefix_append (p s : string) : String.prefix p (p ++ s) = true.
Proof.
  induction p as [|c p IH].
  - destruct s; reflexivity.
  - rewrite append_cons. simpl. destruct (ascii_dec c c); [exact IH|congruence].
Qed.

Lemma string_drop_append (p s : string) : drop (String.length p) (p ++ s) = s.
Proof. induction p as [|c p IH]; [reflexivity|]. rewrite append_cons. exact IH. Qed.

Lemma string_take_append (p s : string) : take (String.length p) (p ++ s) = p.
Proof.
  induction p as [|c p IH]; [reflexivity|]. rewrite append_cons. simpl.
  rewrite IH. reflexivity.
Qed.

Lemma string_drop_append_ge (n : nat) (p s : string) :
  (String.length p <= n)%nat ->
  drop n (p ++ s) = drop (n - String.length p) s.
Proof.
  revert n. induction p as [|c p IH]; intros n Hn; simpl in *.
  - rewrite append_nil_l, Nat.sub_0_r. reflexivity.
  - destruct n as [|n]; [lia|]. rewrite append_cons. simpl. apply IH. lia.
Qed.

Lemma string_drop_all (s : string) : drop (String.length s) s = "".
Proof. induction s as [|c s IH]; [reflexivity|exact IH]. Qed.

Lemma string_take_drop (n : nat) (s : string) : take n s ++ drop n s = s.
Proof.
  revert s. induction n as [|n IH]; intros s; [reflexivity|].
  destruct s as [|c s]; [reflexivity|]. simpl. rewrite append_cons, IH. reflexivity.
Qed.

Lemma string_length_drop (n : nat) (s : string) :
  String.length (drop n s) = (String.length s - n)%nat.
Proof.
  revert s. induction n as [|n IH]; intros s; simpl; [lia|].
  destruct s as [|c s]; simpl; [reflexivity|]. apply IH.
Qed.

Lemma string_length_take (n : nat) (s : string) :
  String.length (take n s) = Nat.min n (String.length s).
Proof.
  revert s. induction n as [|n IH]; intros s; simpl; [reflexivity|].
  destruct s as [|c s]; simpl; [reflexivity|]. rewrite IH. reflexivity.
Qed.

End StringFacts.

(** ** streaming.go and the response path of proxy.go *)

Section StreamingFacts.

Import GoStrings HTTP Journal Proxy Streaming.

Lemma bodyOf_app (o1 o2 : list WriterOp) : bodyOf (o1 ++ o2) = bodyOf o1 ++ bodyOf o2.
Proof.
  induction o1 as [|op o1 IH]; cbn; [reflexivity|].
  fold (bodyOf (o1 ++ o2)). fold (bodyOf o1). rewrite IH.
  destruct op; try reflexivity. rewrite append_assoc. reflexivity.
Qed.

Lemma bodyOf_lineOps (ls : list string) : bodyOf (lineOps ls) = joined ls.
Proof.
  induction ls as [|l ls IH]; cbn; [reflexivity|].
  fold (lineOps ls). fold (bodyOf (lineOps ls)). rewrite IH. reflexivity.
Qed.

Lemma writes_lineOps (ls : list string) : writes (lineOps ls) = ls.
Proof.
  induction ls as [|l ls IH]; cbn; [reflexivity|].
  fold (lineOps ls). unfold writes in IH. rewrite IH. reflexivity.
Qed.


(** What [ReadBytes] returns: the line and the rest make up the data; a
    found line is framed and ends in the delimiter, and the rest is
    shorter; without a delimiter the whole data is returned. *)
Lemma ReadBytes_spec (data : string) :
  let '(line, rest, found) := ReadBytes newline data in
  line ++ rest = data
  /\ (if found
      then is_line line = true /\ ends_with_newline line = true
           /\ (String.length rest < String.length data)%nat
      else rest = "" /\ (line = "" \/ is_line line = true)).
Proof.
  induction data as [|c data IH]; simpl.
  - split; [reflexivity|]. split; [reflexivity|left; reflexivity].
  - destruct (Ascii.eqb c newline) eqn:Hc.
    + simpl. split; [reflexivity|]. rewrite Hc. repeat split. lia.
    + destruct (ReadBytes newline data) as [[line rest] found].
      destruct IH as [Hcat Hrest]. rewrite append_cons, Hcat.
      split; [reflexivity|].
      destruct found.
      * destruct Hrest as (Hl & He & Hlen).
        destruct line as [|d line]; [discriminate|].
        change (is_line (String c (String d line)))
          with (negb (Ascii.eqb c newline) && is_line (String d line)).
        change (ends_with_newline (String c (String d line)))
          with (ends_with_newline (String d line)).
        rewrite Hc. repeat split; try assumption. simpl. lia.
      * destruct Hrest as [-> Hline]. split; [reflexivity|]. right.
        destruct line as [|d line]; [reflexivity|].
        change (is_line (String c (String d line)))
          with (negb (Ascii.eqb c newline) && is_line (String d line)).
        rewrite Hc.
        destruct Hline as [Hline|Hline]; [discriminate|exact Hline].
Qed.

Lemma SW_line_ops (env : StreamEnv) (sw : StreamingResponseWriter) (line : string) :
  rw_ops (sw_writer (SW_Flush (SW_Write env sw line)))
  = (rw_ops (sw_writer sw) ++ lineOps [line])%list
  /\ rw_header (sw_writer (SW_Flush (SW_Write env sw line)))
     = rw_header (sw_writer sw).
Proof. cbn. rewrite <- app_assoc. split; reflexivity. Qed.


End StreamingFacts.

Section ByteFaithfulness.

Import GoStrings HTTP Journal Proxy Streaming.





End ByteFaithfulness.

(** ** loki_exporter.go: Push *)

Section PushFacts.

Import GoInt Loki.

Variable parseRFC3339Nano : string -> option Time.

(** C6. [Push] is a function of the exporter state: every call ends, in
    one step, whatever the state of the queue. With room in the queue
    the entry is appended to it and no counter moves; with a full queue
    the queue is left as it is and [entriesDropped] grows by one. The
    queued entry holds the pushed entry and provider; its timestamp is
    the parsed [_meta.ts] when [_meta] is a map, [ts] a string and the
    string parses as RFC3339Nano, and the current time otherwise; its
    log type is [type] when that is a string and "unknown" otherwise;
    its machine is [_meta.machine] when that is a string and "unknown"
    otherwise. Nothing else in the exporter changes. *)
Theorem Push_spec (now : Time) (e : LokiExporter) (entry : Entry) (provider : string) :
  let e' := Push parseRFC3339Nano now e entry provider in
  let queued :=
    mkLokiEntry entry provider
      (match entry !! "_meta" with
       | Some (VMap meta) =>
           match meta !! "ts" with
           | Some (VString ts) =>
               match parseRFC3339Nano ts with
               | Some parsed => parsed
               | None => now
               end
           | _ => now
           end
       | _ => now
       end)
      (match entry !! "type" with
       | Some (VString t) => t
       | _ => "unknown"
       end)
      (match entry !! "_meta" with
       | Some (VMap meta) =>
           match meta !! "machine" with
           | Some (VString m) => m
           | _ => "unknown"
           end
       | _ => "unknown"
       end) in
  (if (BufferSize (config e) <=? Z.of_nat (length (entryChan e)))%Z
   then entryChan e' = entryChan e
        /\ entriesDropped e' = add (entriesDropped e) 1
   else entryChan e' = (entryChan e ++ [queued])%list
        /\ entriesDropped e' = entriesDropped e)
  /\ entriesSent e' = entriesSent e
  /\ entriesFailed e' = entriesFailed e
  /\ batchesSent e' = batchesSent e
  /\ batch e' = batch e
  /\ config e' = config e
  /\ attempts e' = attempts e
  /\ closeCalled e' = closeCalled e
  /\ workerDone e' = workerDone e.
Proof.
  cbv zeta. unfold Push.
  assert (Hq : mkLokiEntry entry provider (extractTimestamp parseRFC3339Nano now entry)
                           (extractLogType entry) (extractMachine entry)
               = mkLokiEntry entry provider
                   (match entry !! "_meta" with
                    | Some (VMap meta) =>
                        match meta !! "ts" with
                        | Some (VString ts) =>
                            match parseRFC3339Nano ts with
                            | Some parsed => parsed
                            | None => now
                            end
                        | _ => now
                        end
                    | _ => now
                    end)
                   (match entry !! "type" with
                    | Some (VString t) => t
                    | _ => "unknown"
                    end)
                   (match entry !! "_meta" with
                    | Some (VMap meta) =>
                        match meta !! "machine" with
                        | Some (VString m) => m
                        | _ => "unknown"
                        end
                    | _ => "unknown"
                    end)).
  { unfold extractTimestamp, extractLogType, extractMachine, metaOf, stringAt.
    f_equal.
    - destruct (entry !! "_meta") as [[]|]; try reflexivity.
      destruct (_ !! "ts") as [[]|]; reflexivity.
    - destruct (entry !! "type") as [[]|]; reflexivity.
    - destruct (entry !! "_meta") as [[]|]; try reflexivity.
      destruct (_ !! "machine") as [[]|]; reflexivity. }
  rewrite Hq. clear Hq.
  destruct (Z.of_nat (length (entryChan e)) <? BufferSize (config e))%Z eqn:Hroom.
  - apply Z.ltb_lt in Hroom.
    destruct (BufferSize (config e) <=? Z.of_nat (length (entryChan e)))%Z eqn:Hfull;
      [apply Z.leb_le in Hfull; lia|].
    cbn. repeat split; reflexivity.
  - apply Z.ltb_ge in Hroom.
    destruct (BufferSize (config e) <=? Z.of_nat (length (entryChan e)))%Z eqn:Hfull;
      [|apply Z.leb_gt in Hfull; lia].
    cbn. repeat split; reflexivity.
Qed.

(** The queue never grows beyond its capacity. *)
Lemma Push_bounded (now : Time) (e : LokiExporter) (entry : Entry) (provider : string) :
  (Z.of_nat (length (entryChan e)) <= BufferSize (config e))%Z ->
  (Z.of_nat (length (entryChan (Push parseRFC3339Nano now e entry provider)))
   <= BufferSize (config e))%Z.
Proof.
  intros Hle. unfold Push.
  destruct (Z.of_nat (length (entryChan e)) <? BufferSize (config e))%Z eqn:Hroom.
  - apply Z.ltb_lt in Hroom. cbn. rewrite length_app. cbn. lia.
  - cbn. exact Hle.
Qed.

End PushFacts.

(** ** multi_writer.go *)

Section MultiWriterFacts.

Import HTTP Journal Loki MultiWriter.

Variable parseRFC3339Nano : string -> option Time.
Variable ts : string.
Variable now : Time.

Lemma logVia_unfold (m : MultiWriter) (c : LogCall) :
  logVia parseRFC3339Nano ts now m c
  = (fst (callFile m c),
     pushLoki parseRFC3339Nano now (snd (callFile m c))
              (entryOf ts (snd (callFile m c)) c) (providerOf c)).
Proof. destruct c; reflexivity. Qed.

(** C7, as the code has it. Every log method calls the file logger
    first and then, whenever an exporter is present and whether or not
    the file logger failed, pushes the entry it builds to the exporter;
    it returns the file logger's error as it is, so nothing of the
    exporter reaches the caller of a log method. [Close] closes the
    exporter first and the file logger second, and returns the
    exporter's error if there is one and the file logger's otherwise. *)
Theorem MultiWriter_log_and_close (m : MultiWriter) (c : LogCall) (timedOut : bool) :
  let err := fst (logVia parseRFC3339Nano ts now m c) in
  let m' := snd (logVia parseRFC3339Nano ts now m c) in
  let entry := entryOf ts m' c in
  err = fst (Journal.log (file m) c)
  /\ file m' = snd (Journal.log (file m) c)
  /\ loki m' = (fun e => Push parseRFC3339Nano now e entry (providerOf c)) <$> loki m
  /\ trace m' = (trace m ++ EvJournal c
                   :: match loki m with
                      | Some _ => [EvPush entry (providerOf c)]
                      | None => []
                      end)%list
  /\ trace (snd (Close timedOut m))
     = (trace m ++ match loki m with
                   | Some _ => [EvLokiClose; EvJournalClose]
                   | None => [EvJournalClose]
                   end)%list
  /\ fst (Close timedOut m)
     = match loki m with
       | Some e =>
           match fst (Loki.Close timedOut e) with
           | Some lokiErr => Some lokiErr
           | None => fst (Journal.Close (file m))
           end
       | None => fst (Journal.Close (file m))
       end.
Proof.
  cbv zeta. rewrite logVia_unfold. unfold callFile, pushLoki, Close.
  destruct (log (file m) c) as [err f'] eqn:Hlog. cbn [fst snd file loki trace].
  destruct (loki m) as [e|]; cbn [fst snd file loki trace fmap option_fmap option_map].
  - destruct (Loki.Close timedOut e) as [lokiErr e'].
    destruct (Journal.Close (file m)) as [fileErr f2].
    cbn [fst snd file loki trace].
    repeat split; rewrite <- ?app_assoc; try reflexivity.
    destruct fileErr, lokiErr; reflexivity.
  - destruct (Journal.Close (file m)) as [fileErr f2].
    cbn [fst snd file loki trace].
    repeat split; try reflexivity.
    destruct fileErr; reflexivity.
Qed.

End MultiWriterFacts.

Section MultiWriterExamples.

Import HTTP Journal Loki MultiWriter.

(** C7 fails as stated: when the file logger fails, the entry is pushed
    to the exporter all the same. *)
Lemma MultiWriter_pushes_after_journal_error :
  let res := logVia Samples.noParse "2026-01-13T10:15:00Z" 7
                    Samples.failingWriter Samples.requestCall in
  fst res = Some "no space left on device"
  /\ (length ∘ entryChan) <$> loki (snd res) = Some 1%nat
  /\ exists entry,
       trace (snd res) = [EvJournal Samples.requestCall; EvPush entry "anthropic"].
Proof.
  cbv zeta. rewrite logVia_unfold.
  split; [reflexivity|]. split; [reflexivity|].
  eexists. reflexivity.
Qed.

End MultiWriterExamples.

(** ** The event engine *)

Section EngineFacts.

Import GoInt Session Engine.

Lemma ComputePatterns_frame (st : PatternState) (first : string) :
  LastWasError (snd (ComputePatterns st first)) = LastWasError st
  /\ TurnCount (snd (ComputePatterns st first)) = TurnCount st.
Proof.
  unfold ComputePatterns. destruct (String.eqb first ""); split; reflexivity.
Qed.

Lemma foldToolResults_frame (st : PatternState) (results : list ToolResult) :
  turnStarts (fst (foldToolResults st results)) = []
  /\ TurnCount (snd (foldToolResults st results)) = TurnCount st
  /\ LastWasError (snd (foldToolResults st results)) = LastWasError st.
Proof.
  revert st. induction results as [|r results IH]; intros st; cbn.
  - repeat split.
  - destruct (foldToolResults _ results) as [evs st2] eqn:Hfold.
    specialize (IH (with_pending st (delete (ToolUseID r) (PendingToolIDs st)))).
    rewrite Hfold in IH. cbn in *. exact IH.
Qed.

Lemma turnStarts_toolCalls (calls : list ToolCall) :
  turnStarts (map toolCallEvent calls) = [].
Proof. induction calls as [|c calls IH]; cbn; [reflexivity|exact IH]. Qed.

Lemma turnStarts_app (a b : list Event) :
  turnStarts (a ++ b) = (turnStarts a ++ turnStarts b)%list.
Proof. apply omap_app. Qed.

Lemma runCycle_turn_start (st : PatternState) (results : list ToolResult)
      (resp : Response) :
  turnStarts (fst (runCycle st results resp))
  = [(add (TurnCount st) 1, LastWasError st)]
  /\ LastWasError (snd (runCycle st results resp)) = anyError results
  /\ TurnCount (snd (runCycle st results resp)) = add (TurnCount st) 1.
Proof.
  unfold runCycle, processToolResultsAndEmitEvents.
  destruct (foldToolResults_frame st results) as (Hts & Htc & _).
  destruct (foldToolResults st results) as [evs st1]. cbn [fst snd] in *.
  set (st2 := recordPending _ _).
  set (first := match extractToolCalls (content resp) with
                | [] => ""
                | c :: _ => tc_ToolName c
                end).
  destruct (ComputePatterns_frame st2 first) as [Hl Ht].
  destruct (ComputePatterns st2 first) as [isRetry st3]. cbn [fst snd] in *.
  rewrite !turnStarts_app, Hts, turnStarts_toolCalls. cbn.
  rewrite Hl, Ht. subst st2. cbn. rewrite Htc. repeat split.
Qed.

(** C2, as the engine has it. The tool results of the request are folded
    before [turn_start] is emitted and leave [last_was_error] equal to
    the OR of their [is_error] flags. The one [turn_start] of the cycle
    carries [turn_depth = turn_count + 1] and, as [error_recovered], the
    value [last_was_error] had when the cycle began, before the fold
    overwrote it. The cycle ends with [last_was_error] equal to the OR of
    the flags of its own request, so that an [is_error] tool result in
    a turn's request shows in the [error_recovered] of the following
    turn and not in its own. *)
Theorem turn_start_reports_previous_error (st : PatternState)
        (results : list ToolResult) (resp : Response)
        (results' : list ToolResult) (resp' : Response) :
  let evs := fst (runCycle st results resp) in
  let st' := snd (runCycle st results resp) in
  LastWasError (stateAtTurnStart st results) = anyError results
  /\ (exists after,
        evs = (fst (processToolResultsAndEmitEvents st results)
                 ++ TurnStart (add (TurnCount st) 1) (LastWasError st) :: after)%list)
  /\ turnStarts evs = [(add (TurnCount st) 1, LastWasError st)]
  /\ LastWasError st' = anyError results
  /\ turnStarts (fst (runCycle st' results' resp'))
     = [(add (TurnCount st') 1, anyError results)].
Proof.
  cbv zeta.
  destruct (runCycle_turn_start st results resp) as (Hts & Hl & Ht).
  split.
  { unfold stateAtTurnStart, processToolResultsAndEmitEvents.
    destruct (foldToolResults st results). reflexivity. }
  split.
  { unfold runCycle, processToolResultsAndEmitEvents.
    destruct (foldToolResults_frame st results) as (_ & Htc & _).
    destruct (foldToolResults st results) as [evs st1]. cbn [fst snd] in *.
    destruct (ComputePatterns _ _) as [isRetry st3]. cbn [fst snd].
    cbn [with_last_was_error TurnCount]. rewrite Htc. eexists. reflexivity. }
  split; [exact Hts|]. split; [exact Hl|].
  destruct (runCycle_turn_start (snd (runCycle st results resp)) results' resp')
    as (Hts' & _ & _).
  rewrite Hts', Hl. reflexivity.
Qed.

(** C2 fails as stated: in the first turn of a session whose request
    carries an [is_error] tool result, the fold has set [last_was_error]
    by the time [turn_start] is emitted, yet the event's
    [error_recovered] is [false]. *)
Lemma turn_start_is_not_the_folded_flag :
  LastWasError (stateAtTurnStart defaultPatternState [mkToolResult "t1" true]) = true
  /\ turnStarts (fst (runCycle defaultPatternState [mkToolResult "t1" true]
                               Samples.textResponse))
     = [(1%Z, false)].
Proof. split; vm_compute; reflexivity. Qed.

(** The model run on the three turns of [TestErrorRecoveredFlag] gives
    what the test expects: [error_recovered] is false, false, true, and
    the second turn is a retry. *)
Lemma TestErrorRecoveredFlag_replay :
  let evs := fst (runCycles defaultPatternState Samples.errorRecoveryTurns) in
  map snd (turnStarts evs) = [false; false; true]
  /\ map fst (turnStarts evs) = [1%Z; 2%Z; 3%Z]
  /\ turnEndRetries evs !! 1%nat = Some true.
Proof. vm_compute. repeat split; reflexivity. Qed.

(** In the second turn of that test the fold leaves [last_was_error]
    set when [turn_start] is emitted, while the test requires the event to
    carry [error_recovered = false]: the event cannot be reading the
    folded flag. *)
Lemma TestErrorRecoveredFlag_second_turn :
  let st1 := snd (runCycles defaultPatternState (take 1 Samples.errorRecoveryTurns)) in
  LastWasError (stateAtTurnStart st1 [mkToolResult "tool_err" true]) = true
  /\ LastWasError st1 = false.
Proof. vm_compute. split; reflexivity. Qed.

End EngineFacts.

(** ** loki_exporter.go: the counters *)

Section Accounting.

Import GoInt Loki.

Variable parseRFC3339Nano : string -> option Time.

Lemma cong64_refl (a : Z) : cong64 a a.
Proof. exists 0%Z. lia. Qed.

Lemma cong64_trans (a b c : Z) : cong64 a b -> cong64 b c -> cong64 a c.
Proof. intros [k ->] [j ->]. exists (k + j)%Z. lia. Qed.

Lemma cong64_plus (a b c d : Z) : cong64 a b -> cong64 c d -> cong64 (a + c) (b + d).
Proof. intros [k ->] [j ->]. exists (k + j)%Z. lia. Qed.

Lemma wrap64_cong (z : Z) : cong64 (wrap64 z) z.
Proof.
  unfold wrap64, cong64. exists (- ((z + 2 ^ 63) / 2 ^ 64))%Z.
  pose proof (Z.div_mod (z + 2 ^ 63) (2 ^ 64) ltac:(lia)). lia.
Qed.

Lemma add_cong (a b : Z) : cong64 (add a b) (a + b).
Proof. apply wrap64_cong. Qed.

Lemma cong64_wrap64 (a b : Z) : cong64 a b -> wrap64 a = wrap64 b.
Proof.
  intros [k ->]. unfold wrap64. f_equal.
  replace (b + k * 2 ^ 64 + 2 ^ 63)%Z with (b + 2 ^ 63 + k * 2 ^ 64)%Z by lia.
  apply Z_mod_plus_full.
Qed.

Lemma unmarshalable_app (a b : list lokiEntry) :
  unmarshalable (a ++ b) = (unmarshalable a + unmarshalable b)%nat.
Proof. unfold unmarshalable. rewrite List.filter_app, length_app. reflexivity. Qed.

Lemma unmarshalable_cons (le : lokiEntry) (q : list lokiEntry) :
  unmarshalable (le :: q)
  = ((if marshalsEntry (le_entry le) then 0 else 1) + unmarshalable q)%nat.
Proof.
  unfold unmarshalable. cbn [List.filter].
  destruct (marshalsEntry (le_entry le)); reflexivity.
Qed.

(** The first loop of [sendBatch] adds one failure per rejected entry. *)
Lemma countMarshalFailures_spec (entries : list lokiEntry) (e : LokiExporter) :
  let e' := countMarshalFailures e entries in
  cong64 (accounted e') (accounted e + Z.of_nat (unmarshalable entries))
  /\ entryChan e' = entryChan e /\ batch e' = batch e /\ config e' = config e
  /\ closeCalled e' = closeCalled e /\ workerDone e' = workerDone e.
Proof.
  cbv zeta. unfold countMarshalFailures.
  revert e. induction entries as [|le entries IH]; intros e.
  - split; [exists 0%Z; cbn; lia|repeat split].
  - cbn [foldl]. rewrite unmarshalable_cons.
    destruct (marshalsEntry (le_entry le)).
    + apply IH.
    + destruct (IH (with_counters e (entriesSent e) (add (entriesFailed e) 1)
                                  (entriesDropped e) (batchesSent e)
                                  (attempts e)))
        as (Hacc & Hrest).
      split; [|exact Hrest].
      eapply cong64_trans; [exact Hacc|].
      unfold accounted. cbn.
      destruct (add_cong (entriesFailed e) 1) as [k ->].
      exists k. lia.
Qed.

Lemma trySend_spec (n : nat) (e : LokiExporter) :
  let e' := snd (trySend n e) in
  accounted e' = accounted e /\ entriesSent e' = entriesSent e
  /\ entriesFailed e' = entriesFailed e /\ entriesDropped e' = entriesDropped e
  /\ entryChan e' = entryChan e /\ batch e' = batch e /\ config e' = config e
  /\ closeCalled e' = closeCalled e /\ workerDone e' = workerDone e.
Proof.
  cbv zeta. revert e. induction n as [|n IH]; intros e; cbn.
  - repeat split.
  - destruct (network e (attempts e)).
    + cbn. repeat split.
    + destruct (IH (with_counters e (entriesSent e) (entriesFailed e)
                                  (entriesDropped e) (batchesSent e)
                                  (S (attempts e))))
        as (H1 & H2 & H3 & H4 & H5 & H6 & H7 & H8 & H9).
      repeat split; assumption.
Qed.

(** [sendBatch] accounts for every entry of the batch once, as sent or
    as failed, and once more for every entry it could not serialize. *)
Lemma sendBatch_spec (e : LokiExporter) (entries : list lokiEntry) :
  let e' := sendBatch e entries in
  cong64 (accounted e')
         (accounted e + Z.of_nat (length entries)
          + Z.of_nat (unmarshalable entries))
  /\ entryChan e' = entryChan e /\ batch e' = batch e /\ config e' = config e
  /\ closeCalled e' = closeCalled e /\ workerDone e' = workerDone e.
Proof.
  cbv zeta. unfold sendBatch.
  destruct entries as [|le entries].
  - split; [exists 0%Z; cbn; lia|repeat split].
  - set (b := le :: entries).
    destruct (countMarshalFailures_spec b e) as (Hacc & Hc1 & Hb1 & Hcf1 & Hcc1 & Hwd1).
    set (e1 := countMarshalFailures e b) in *.
    destruct (trySend_spec (Z.to_nat (RetryMax (config e1) + 1)) e1)
      as (Hacc2 & Hs2 & Hf2 & Hd2 & Hc2 & Hb2 & Hcf2 & Hcc2 & Hwd2).
    destruct (trySend _ e1) as [ok e2]. cbn [snd] in *.
    assert (Hgoal : forall e3,
               cong64 (accounted e3) (accounted e2 + Z.of_nat (length b)) ->
               cong64 (accounted e3)
                      (accounted e + Z.of_nat (length b)
                       + Z.of_nat (unmarshalable b))).
    { intros e3 [k Hk]. destruct Hacc as [j Hj]. rewrite Hacc2, Hj in Hk.
      exists (k + j)%Z. lia. }
    destruct ok; cbn [entryChan batch config closeCalled workerDone with_counters].
    + split; [|repeat split; congruence].
      apply Hgoal. unfold accounted.
      cbn [entriesSent entriesFailed entriesDropped with_counters].
      destruct (add_cong (entriesSent e2) (Z.of_nat (length b))) as [k ->].
      exists k. lia.
    + split; [|repeat split; congruence].
      apply Hgoal. unfold accounted.
      cbn [entriesSent entriesFailed entriesDropped with_counters].
      destruct (add_cong (entriesFailed e2) (Z.of_nat (length b))) as [k ->].
      exists k. lia.
Qed.

Lemma Push_balance (now : Time) (e : LokiExporter) (entry : Entry) (provider : string) :
  let e' := Push parseRFC3339Nano now e entry provider in
  cong64 (balance e')
         (balance e + 1
          + Z.of_nat (unmarshalable (drop (length (entryChan e)) (entryChan e'))))
  /\ config e' = config e
  /\ closeCalled e' = closeCalled e /\ workerDone e' = workerDone e.
Proof.
  cbv zeta. unfold Push.
  destruct (Z.of_nat (length (entryChan e)) <? BufferSize (config e))%Z.
  - cbn [entryChan with_chan config closeCalled workerDone].
    rewrite drop_app_length. split; [|repeat split].
    unfold balance, accounted.
    cbn [entriesSent entriesFailed entriesDropped entryChan batch with_chan].
    rewrite unmarshalable_app, length_app. cbn [length].
    exists 0%Z. lia.
  - cbn [entryChan with_counters config closeCalled workerDone].
    rewrite drop_all. split; [|repeat split].
    unfold balance, accounted.
    cbn [entriesSent entriesFailed entriesDropped entryChan batch with_counters].
    destruct (add_cong (entriesDropped e) 1) as [k ->].
    exists k. cbn. lia.
Qed.

Lemma sent_batch_balance (e : LokiExporter) (b : list lokiEntry) :
  let e' := with_batch (sendBatch e b) [] in
  cong64 (balance e') (balance (with_batch e b))
  /\ config e' = config e
  /\ closeCalled e' = closeCalled e /\ workerDone e' = workerDone e.
Proof.
  cbv zeta.
  destruct (sendBatch_spec e b) as (Hacc & Hc & _ & Hcf & Hcc & Hwd).
  cbn [config closeCalled workerDone batch entryChan with_batch].
  split; [|repeat split; assumption].
  unfold balance.
  cbn [entryChan batch with_batch].
  replace (accounted (with_batch (sendBatch e b) [])) with (accounted (sendBatch e b))
    by reflexivity.
  replace (accounted (with_batch e b)) with (accounted e) by reflexivity.
  rewrite Hc. destruct Hacc as [k ->]. exists k. cbn [length].
  change (unmarshalable []) with 0%nat. lia.
Qed.

Lemma workerRecv_balance (e : LokiExporter) :
  cong64 (balance (workerRecv e)) (balance e)
  /\ config (workerRecv e) = config e
  /\ closeCalled (workerRecv e) = closeCalled e
  /\ workerDone (workerRecv e) = workerDone e.
Proof.
  unfold workerRecv. destruct (entryChan e) as [|entry q] eqn:Hq.
  - repeat split. apply cong64_refl.
  - assert (H1 : balance (with_batch (with_chan e q) (batch e ++ [entry])) = balance e).
    { unfold balance, accounted.
      cbn [entriesSent entriesFailed entriesDropped entryChan batch with_batch
           with_chan].
      rewrite Hq, unmarshalable_app, length_app, !unmarshalable_cons.
      cbn [length]. change (unmarshalable []) with 0%nat. lia. }
    destruct (BatchSize (config e) <=? Z.of_nat (length (batch e ++ [entry])))%Z.
    + destruct (sent_batch_balance (with_chan e q) (batch e ++ [entry]))
        as (Hbal & Hcf & Hcc & Hwd).
      rewrite H1 in Hbal. repeat split; assumption.
    + rewrite H1. repeat split. apply cong64_refl.
Qed.

Lemma workerTick_balance (e : LokiExporter) :
  cong64 (balance (workerTick e)) (balance e)
  /\ config (workerTick e) = config e
  /\ closeCalled (workerTick e) = closeCalled e
  /\ workerDone (workerTick e) = workerDone e.
Proof.
  unfold workerTick. destruct (batch e) as [|x b] eqn:Hb.
  - repeat split. apply cong64_refl.
  - destruct (sent_batch_balance e (x :: b)) as (Hbal & Hcf & Hcc & Hwd).
    assert (H1 : balance (with_batch e (x :: b)) = balance e).
    { unfold balance, accounted.
      cbn [entriesSent entriesFailed entriesDropped entryChan batch with_batch].
      rewrite Hb. reflexivity. }
    rewrite H1 in Hbal. repeat split; assumption.
Qed.

Lemma step_balance (e : LokiExporter) (a : Action) :
  cong64 (balance (step parseRFC3339Nano e a))
         (balance e + (if isPush a then 1 else 0)
          + Z.of_nat (unmarshalable (accepted parseRFC3339Nano e [a])))
  /\ closeCalled (step parseRFC3339Nano e a) = closeCalled e
  /\ workerDone (step parseRFC3339Nano e a) = workerDone e.
Proof.
  destruct a as [now entry provider| |]; cbn [step isPush accepted].
  - rewrite app_nil_r.
    destruct (Push_balance now e entry provider) as (Hbal & _ & Hcc & Hwd).
    repeat split; assumption.
  - change (unmarshalable []) with 0%nat.
    replace (balance e + 0 + Z.of_nat 0)%Z with (balance e) by lia.
    destruct (workerDone e) eqn:Hwd.
    + repeat split; [apply cong64_refl|exact Hwd].
    + destruct (workerRecv_balance e) as (Hbal & _ & Hcc & Hwd').
      repeat split; [exact Hbal|exact Hcc|congruence].
  - change (unmarshalable []) with 0%nat.
    replace (balance e + 0 + Z.of_nat 0)%Z with (balance e) by lia.
    destruct (workerDone e) eqn:Hwd.
    + repeat split; [apply cong64_refl|exact Hwd].
    + destruct (workerTick_balance e) as (Hbal & _ & Hcc & Hwd').
      repeat split; [exact Hbal|exact Hcc|congruence].
Qed.

Lemma accepted_cons (e : LokiExporter) (a : Action) (acts : list Action) :
  accepted parseRFC3339Nano e (a :: acts)
  = (accepted parseRFC3339Nano e [a]
       ++ accepted parseRFC3339Nano (step parseRFC3339Nano e a) acts)%list.
Proof. destruct a; cbn [accepted]; rewrite ?app_nil_r; reflexivity. Qed.

Lemma runActions_balance (acts : list Action) (e : LokiExporter) :
  let e' := runActions parseRFC3339Nano e acts in
  cong64 (balance e')
         (balance e + Z.of_nat (pushCount acts)
          + Z.of_nat (unmarshalable (accepted parseRFC3339Nano e acts)))
  /\ closeCalled e' = closeCalled e /\ workerDone e' = workerDone e.
Proof.
  cbv zeta. revert e. induction acts as [|a acts IH]; intros e.
  - cbn. split; [exists 0%Z; lia|split; reflexivity].
  - change (runActions parseRFC3339Nano e (a :: acts))
      with (runActions parseRFC3339Nano (step parseRFC3339Nano e a) acts).
    destruct (IH (step parseRFC3339Nano e a)) as (Hbal & Hcc & Hwd).
    destruct (step_balance e a) as (Hstep & Hcc1 & Hwd1).
    split; [|split; congruence].
    rewrite accepted_cons, unmarshalable_app.
    destruct Hbal as [k ->]. destruct Hstep as [j ->].
    exists (k + j)%Z. unfold pushCount. cbn [List.filter].
    destruct (isPush a); cbn [length]; lia.
Qed.

Lemma workerShutdown_balance (e : LokiExporter) :
  cong64 (accounted (workerShutdown e)) (balance e).
Proof.
  unfold workerShutdown.
  set (b := (batch e ++ entryChan e)%list).
  set (e1 := with_batch (with_chan e []) b).
  assert (H1 : balance e1 = balance e).
  { unfold balance, accounted, e1, b.
    cbn [entriesSent entriesFailed entriesDropped entryChan batch with_batch
         with_chan].
    rewrite unmarshalable_app, length_app. cbn [length].
    change (unmarshalable []) with 0%nat. lia. }
  assert (Hacc : cong64 (accounted match b with [] => e1 | _ :: _ => sendBatch e1 b end)
                        (balance e1)).
  { destruct b as [|x b'] eqn:Hb.
    - unfold balance, e1.
      cbn [entriesSent entriesFailed entriesDropped entryChan batch with_batch
           with_chan length].
      change (unmarshalable []) with 0%nat. exists 0%Z. lia.
    - destruct (sendBatch_spec e1 (x :: b')) as (Hsend & _).
      eapply cong64_trans; [exact Hsend|].
      unfold balance, e1.
      cbn [entriesSent entriesFailed entriesDropped entryChan batch with_batch
           with_chan length].
      change (unmarshalable []) with 0%nat. exists 0%Z. lia. }
  rewrite <- H1.
  exact Hacc.
Qed.

(** After a [Close] that waits for the worker, the counters hold what
    the balance held before the run, plus what the run added. *)
Lemma accounting_after_Close (e0 : LokiExporter) (acts : list Action) :
  closeCalled e0 = false -> workerDone e0 = false ->
  cong64 (accounted (snd (Close false (runActions parseRFC3339Nano e0 acts))))
         (balance e0 + Z.of_nat (pushCount acts)
          + Z.of_nat (unmarshalable (accepted parseRFC3339Nano e0 acts))).
Proof.
  intros Hcc0 Hwd0.
  destruct (runActions_balance acts e0) as (Hbal & Hcc & Hwd).
  unfold Close. rewrite Hcc, Hwd, Hcc0, Hwd0. cbn [snd].
  eapply cong64_trans; [|exact Hbal].
  change (accounted (with_flags (workerShutdown (runActions parseRFC3339Nano e0 acts))
                                true true))
    with (accounted (workerShutdown (runActions parseRFC3339Nano e0 acts))).
  apply workerShutdown_balance.
Qed.

(** X10. The law of the counters. After a run of pushes and worker steps
    on a new exporter and a [Close] that waits for the worker, the sum
    [sent + failed + dropped] is, modulo 2^64, the number of [Push] calls
    plus the number of queued entries that could not be serialized. *)
Lemma exporter_accounting (net : nat -> bool) (cfg : LokiExporterConfig)
      (e0 : LokiExporter) (acts : list Action) :
  NewLokiExporter net cfg = (Some e0, None) ->
  let e := snd (Close false (runActions parseRFC3339Nano e0 acts)) in
  cong64 (accounted e)
         (Z.of_nat (pushCount acts)
          + Z.of_nat (unmarshalable (accepted parseRFC3339Nano e0 acts))).
Proof.
  unfold NewLokiExporter. destruct (String.eqb (URL cfg) ""); [discriminate|].
  intros [= <-]. cbv zeta.
  set (e0 := mkExporter _ _ _ _ _ _ _ _ _ _ _).
  destruct (accounting_after_Close e0 acts eq_refl eq_refl) as [k Hk].
  exists k. rewrite Hk. unfold balance, accounted, e0.
  cbn [entriesSent entriesFailed entriesDropped entryChan batch length].
  change (unmarshalable []) with 0%nat. lia.
Qed.

Lemma accepted_marshal (acts : list Action) (e : LokiExporter) :
  forallb marshalsEntry (pushedEntries acts) = true ->
  unmarshalable (accepted parseRFC3339Nano e acts) = 0%nat.
Proof.
  revert e. induction acts as [|a acts IH]; intros e Hall; [reflexivity|].
  rewrite accepted_cons, unmarshalable_app.
  destruct a as [now entry provider| |]; cbn [pushedEntries omap] in Hall.
  - cbn [forallb] in Hall. apply andb_true_iff in Hall as [Hentry Hall].
    rewrite (IH _ Hall). cbn [accepted step]. rewrite app_nil_r. unfold Push.
    destruct (Z.of_nat (length (entryChan e)) <? BufferSize (config e))%Z.
    + cbn [entryChan with_chan]. rewrite drop_app_length, unmarshalable_cons.
      cbn [le_entry]. rewrite Hentry. reflexivity.
    + cbn [entryChan with_counters]. rewrite drop_all. reflexivity.
  - rewrite (IH _ Hall). reflexivity.
  - rewrite (IH _ Hall). reflexivity.
Qed.

(** X11. When every pushed entry can be serialized, each [Push] is
    counted exactly once: after a [Close] that waits for the worker,
    [sent + failed + dropped] is the number of [Push] calls (modulo
    2^64), whatever the network did and however pushes and worker steps
    were interleaved. *)
Lemma exporter_accounting_marshalable (net : nat -> bool) (cfg : LokiExporterConfig)
      (e0 : LokiExporter) (acts : list Action) :
  NewLokiExporter net cfg = (Some e0, None) ->
  forallb marshalsEntry (pushedEntries acts) = true ->
  cong64 (accounted (snd (Close false (runActions parseRFC3339Nano e0 acts))))
         (Z.of_nat (pushCount acts)).
Proof.
  unfold NewLokiExporter. destruct (String.eqb (URL cfg) ""); [discriminate|].
  intros [= <-] Hall.
  set (e0 := mkExporter _ _ _ _ _ _ _ _ _ _ _).
  destruct (accounting_after_Close e0 acts eq_refl eq_refl) as [k Hk].
  rewrite (accepted_marshal acts e0 Hall) in Hk.
  exists k. rewrite Hk. unfold balance, accounted, e0.
  cbn [entriesSent entriesFailed entriesDropped entryChan batch length].
  change (unmarshalable []) with 0%nat. lia.
Qed.

End Accounting.

Section AccountingExample.

Import GoInt Loki.

(** C8. One entry that [json.Marshal] rejects is pushed to a new
    exporter and the exporter is closed. With a network that accepts the
    batch the counters end at sent = 1, failed = 1, dropped = 0; with one
    that refuses it they end at sent = 0, failed = 2, dropped = 0. In
    both runs [sent + failed + dropped] is 2 for a single [Push]. *)
Theorem marshal_failure_is_counted_twice :
  let acts := [APush 1%Z Samples.badEntry "anthropic"] in
  let run net :=
    snd (Close false (runActions Samples.noParse (Samples.exporter net) acts)) in
  pushCount acts = 1%nat
  /\ (entriesSent (run (fun _ => true)), entriesFailed (run (fun _ => true)),
      entriesDropped (run (fun _ => true))) = (1%Z, 1%Z, 0%Z)
  /\ (entriesSent (run (fun _ => false)), entriesFailed (run (fun _ => false)),
      entriesDropped (run (fun _ => false))) = (0%Z, 2%Z, 0%Z)
  /\ accounted (run (fun _ => true)) = 2%Z
  /\ accounted (run (fun _ => false)) = 2%Z.
Proof. vm_compute. repeat split; reflexivity. Qed.

End AccountingExample.

(** ** obfuscate.go *)

Section ObfuscateFacts.

Import GoStrings HTTP Obfuscate.

Lemma prefix_nil (s : string) : String.prefix "" s = true.
Proof. destruct s; reflexivity. Qed.

Lemma prefix_cons (a c : ascii) (q s : string) :
  String.prefix (String a q) (String c s)
  = if Ascii.eqb a c then String.prefix q s else false.
Proof.
  simpl. destruct (ascii_dec a c) as [->|Hne].
  - rewrite Ascii.eqb_refl. reflexivity.
  - apply Ascii.eqb_neq in Hne. rewrite Hne. reflexivity.
Qed.

(** [strings.Index(s, "-")] is the index of the first hyphen. *)
Lemma index_hyphen (s : string) : String.index 0 "-" s = first_hyphen s.
Proof.
  induction s as [|c s IH]; [reflexivity|].
  change (String.index 0 "-" (String c s))
    with (if String.prefix "-" (String c s) then Some 0%nat
          else match String.index 0 "-" s with
               | Some n => Some (S n)
               | None => None
               end).
  change "-" with (String hyphen "") at 1. rewrite prefix_cons, prefix_nil, IH.
  cbn [first_hyphen]. rewrite (Ascii.eqb_sym hyphen c).
  destruct (Ascii.eqb c hyphen); reflexivity.
Qed.

Lemma Index_hyphen (s : string) :
  Index s "-" = match first_hyphen s with
                | Some n => Z.of_nat n
                | None => (-1)%Z
                end.
Proof. unfold Index. rewrite index_hyphen. reflexivity. Qed.

Lemma first_hyphen_None (s : string) :
  first_hyphen s = None <-> has_hyphen s = false.
Proof.
  induction s as [|c s IH]; cbn; [tauto|].
  destruct (Ascii.eqb c hyphen); cbn; [split; discriminate|].
  destruct (first_hyphen s); [|tauto].
  split; [discriminate|]. intros H. apply IH in H. discriminate.
Qed.

Lemma has_hyphen_drop (n : nat) (s : string) :
  has_hyphen s = false -> has_hyphen (drop n s) = false.
Proof.
  revert s. induction n as [|n IH]; intros s Hs; [exact Hs|].
  destruct s as [|c s]; [reflexivity|]. cbn in *.
  apply orb_false_iff in Hs as [_ Hs]. apply IH, Hs.
Qed.

Lemma has_hyphen_append (a b : string) :
  has_hyphen (a ++ b) = has_hyphen a || has_hyphen b.
Proof.
  induction a as [|c a IH]; [reflexivity|].
  rewrite append_cons. cbn. rewrite IH, orb_assoc. reflexivity.
Qed.

(** The first hyphen of a key is also the first hyphen of anything that
    starts with the key's bytes up to that hyphen. *)
Lemma first_hyphen_take (s t : string) (idx : nat) :
  first_hyphen s = Some idx ->
  first_hyphen (take (S idx) s ++ t) = Some idx
  /\ String.length (take (S idx) s) = S idx.
Proof.
  revert idx. induction s as [|c s IH]; intros idx Hidx; [discriminate|].
  cbn in Hidx. cbn [take]. rewrite append_cons. cbn [first_hyphen String.length].
  destruct (Ascii.eqb c hyphen).
  - injection Hidx as <-. split; reflexivity.
  - destruct (first_hyphen s) as [n|]; [|discriminate].
    injection Hidx as <-. destruct (IH n eq_refl) as [H1 H2].
    rewrite H1, H2. split; reflexivity.
Qed.

(** A prefix test that succeeds on the obfuscated form of a key succeeds
    on the key itself when it only looks at bytes up to the first
    hyphen. *)
Lemma prefix_upto_hyphen (q0 : string) (s t : string) (idx : nat) :
  has_hyphen q0 = false ->
  first_hyphen s = Some idx ->
  String.prefix (q0 ++ "-") (take (S idx) s ++ t) = true ->
  String.prefix (q0 ++ "-") s = true.
Proof.
  revert s idx. induction q0 as [|a q0 IH]; intros s idx Hq Hidx Hp.
  - rewrite append_nil_l in *. destruct s as [|c s]; [discriminate|].
    cbn [take] in Hp. rewrite append_cons in Hp.
    change "-" with (String hyphen "") in *.
    rewrite prefix_cons in *. destruct (Ascii.eqb hyphen c); [|discriminate].
    apply prefix_nil.
  - cbn in Hq. apply orb_false_iff in Hq as [Ha Hq].
    destruct s as [|c s]; [discriminate|].
    cbn [take] in Hp. rewrite !append_cons in *. rewrite prefix_cons in *.
    destruct (Ascii.eqb a c) eqn:Hac; [|discriminate].
    apply Ascii.eqb_eq in Hac. subst c.
    cbn in Hidx. rewrite Ha in Hidx.
    destruct (first_hyphen s) as [n|] eqn:Hn; [|discriminate].
    injection Hidx as <-. apply (IH s n Hq Hn Hp).
Qed.

Lemma prefix_no_hyphen (q : string) (s t : string) (idx : nat) :
  has_hyphen q = false ->
  first_hyphen s = Some idx ->
  String.prefix q (take (S idx) s ++ t) = true ->
  String.prefix q s = true.
Proof.
  revert s idx. induction q as [|a q IH]; intros s idx Hq Hidx Hp.
  - apply prefix_nil.
  - cbn in Hq. apply orb_false_iff in Hq as [Ha Hq].
    destruct s as [|c s]; [discriminate|].
    cbn [take] in Hp. rewrite append_cons in Hp. rewrite prefix_cons in *.
    destruct (Ascii.eqb a c) eqn:Hac; [|discriminate].
    apply Ascii.eqb_eq in Hac. subst c.
    cbn in Hidx. rewrite Ha in Hidx.
    destruct (first_hyphen s) as [n|] eqn:Hn; [|discriminate].
    injection Hidx as <-. apply (IH s n Hq Hn Hp).
Qed.

Lemma prefix_weaken (a b s : string) :
  String.prefix (a ++ b) s = true -> String.prefix a s = true.
Proof.
  revert s. induction a as [|x a IH]; intros s H; [apply prefix_nil|].
  destruct s as [|c s]; [discriminate|].
  rewrite append_cons in H. rewrite prefix_cons in *.
  destruct (Ascii.eqb x c); [apply IH, H|discriminate].
Qed.

Lemma prefix_has_hyphen (q0 s : string) :
  String.prefix (q0 ++ "-") s = true -> has_hyphen s = true.
Proof.
  revert s. induction q0 as [|a q0 IH]; intros s H.
  - rewrite append_nil_l in H. destruct s as [|c s]; [discriminate|].
    change "-" with (String hyphen "") in H. rewrite prefix_cons in H.
    cbn. rewrite (Ascii.eqb_sym c hyphen).
    destruct (Ascii.eqb hyphen c); [reflexivity|discriminate].
  - destruct s as [|c s]; [discriminate|].
    rewrite append_cons, prefix_cons in H.
    destruct (Ascii.eqb a c); [|discriminate].
    cbn. rewrite (IH s H). apply orb_true_r.
Qed.

(** No listed prefix matches exactly when ["sk-"] does not. *)
Lemma find_prefixes_None (x : string) :
  find (HasPrefix x) prefixes = None <-> HasPrefix x "sk-" = false.
Proof.
  unfold prefixes, HasPrefix. cbn [find]. split.
  - destruct (String.prefix "sk-ant-api03-" x); [discriminate|].
    destruct (String.prefix "sk-ant-" x); [discriminate|].
    destruct (String.prefix "sk-proj-" x); [discriminate|].
    destruct (String.prefix "sk-" x); [discriminate|reflexivity].
  - intros Hsk.
    assert (Hw : forall b, String.prefix ("sk-" ++ b) x = false).
    { intros b. destruct (String.prefix ("sk-" ++ b) x) eqn:Hb; [|reflexivity].
      apply prefix_weaken in Hb. congruence. }
    pose proof (Hw "ant-api03-") as H1. pose proof (Hw "ant-") as H2.
    pose proof (Hw "proj-") as H3.
    change ("sk-" ++ "ant-api03-") with "sk-ant-api03-" in H1.
    change ("sk-" ++ "ant-") with "sk-ant-" in H2.
    change ("sk-" ++ "proj-") with "sk-proj-" in H3.
    rewrite H1, H2, H3, Hsk. reflexivity.
Qed.

(** A listed prefix found on a key is found again on its obfuscation. *)
Lemma find_prefixes_Some (key q t : string) :
  find (HasPrefix key) prefixes = Some q ->
  TrimSuffix q "-" ++ "-" = q
  /\ find (HasPrefix (q ++ "..." ++ t)) prefixes = Some q.
Proof.
  unfold prefixes. cbn [find].
  destruct (HasPrefix key "sk-ant-api03-");
    [intros [= <-]; split; reflexivity|].
  destruct (HasPrefix key "sk-ant-");
    [intros [= <-]; split; reflexivity|].
  destruct (HasPrefix key "sk-proj-");
    [intros [= <-]; split; reflexivity|].
  destruct (HasPrefix key "sk-");
    [intros [= <-]; split; reflexivity|discriminate].
Qed.

Lemma dots_no_prefix (t q : string) :
  In q prefixes \/ q = "Bearer " -> String.prefix q ("..." ++ t) = false.
Proof.
  unfold prefixes. cbn [In].
  intros [[<-|[<-|[<-|[<-|[]]]]]| ->]; reflexivity.
Qed.

(** The prefix extracted from an obfuscated key is the prefix of the
    key, provided the key has a hyphen that is not its first byte, or the
    kept suffix has no hyphen. *)
Lemma extractPrefix_obfuscated (key t : string) :
  (has_hyphen key = true /\ starts_with_hyphen key = false) \/ has_hyphen t = false ->
  extractPrefix (extractPrefix key ++ "..." ++ t) = extractPrefix key.
Proof.
  intros Hcond. unfold extractPrefix at 2 3.
  destruct (find (HasPrefix key) prefixes) as [q|] eqn:Hfind.
  - destruct (find_prefixes_Some key q t Hfind) as [Hq Hfind'].
    rewrite Hq. unfold extractPrefix. rewrite Hfind'. exact Hq.
  - apply find_prefixes_None in Hfind. rewrite Index_hyphen.
    destruct (first_hyphen key) as [[|n]|] eqn:Hidx.
    + (* the key begins with a hyphen *)
      cbn [Z.of_nat Z.ltb Z.compare]. rewrite append_nil_l.
      assert (Ht : has_hyphen t = false).
      { destruct Hcond as [[_ Hs]|Ht]; [|exact Ht].
        destruct key as [|c key]; [discriminate|]. cbn in Hidx, Hs.
        rewrite Hs in Hidx. destruct (first_hyphen key); discriminate. }
      unfold extractPrefix.
      assert (Hnone : find (HasPrefix ("..." ++ t)) prefixes = None).
      { apply find_prefixes_None. reflexivity. }
      rewrite Hnone, Index_hyphen.
      assert (Hfh : first_hyphen ("..." ++ t) = None).
      { apply first_hyphen_None. rewrite has_hyphen_append, Ht. reflexivity. }
      rewrite Hfh. reflexivity.
    + (* the first hyphen comes later *)
      assert (Hpos : (0 <? Z.of_nat (S n))%Z = true) by (apply Z.ltb_lt; lia).
      rewrite Hpos.
      replace (Z.to_nat (Z.of_nat (S n)) + 1)%nat with (S (S n)) by lia.
      destruct (first_hyphen_take key ("..." ++ t) (S n) Hidx) as [Hfh Hlen].
      unfold extractPrefix.
      assert (Hnone : find (HasPrefix (take (S (S n)) key ++ "..." ++ t)) prefixes = None).
      { apply find_prefixes_None. unfold HasPrefix in *.
        destruct (String.prefix "sk-" (take (S (S n)) key ++ "..." ++ t)) eqn:Hp;
          [|reflexivity].
        change "sk-" with ("sk" ++ "-") in Hp.
        apply (prefix_upto_hyphen "sk" key ("..." ++ t) (S n) eq_refl Hidx) in Hp.
        change ("sk" ++ "-") with "sk-" in Hp. congruence. }
      rewrite Hnone, Index_hyphen, Hfh, Hpos.
      replace (Z.to_nat (Z.of_nat (S n)) + 1)%nat with (S (S n)) by lia.
      rewrite <- Hlen at 1. apply string_take_append.
    + (* the key has no hyphen *)
      cbn [Z.ltb Z.compare]. rewrite append_nil_l.
      assert (Ht : has_hyphen t = false).
      { destruct Hcond as [[Hh _]|Ht]; [|exact Ht].
        apply first_hyphen_None in Hidx. congruence. }
      unfold extractPrefix.
      assert (Hnone : find (HasPrefix ("..." ++ t)) prefixes = None).
      { apply find_prefixes_None. reflexivity. }
      rewrite Hnone, Index_hyphen.
      assert (Hfh : first_hyphen ("..." ++ t) = None).
      { apply first_hyphen_None. rewrite has_hyphen_append, Ht. reflexivity. }
      rewrite Hfh. reflexivity.
Qed.

Lemma eqb_append_dots (p t : string) : String.eqb (p ++ "..." ++ t) "" = false.
Proof.
  apply String.eqb_neq. intros H.
  apply (f_equal String.length) in H. rewrite !length_append in H. cbn in H. lia.
Qed.

(** The four-byte suffix kept from a long key is kept again. *)
Lemma suffix_obfuscated (p key : string) :
  (4 < String.length key)%nat ->
  let t := drop (String.length key - 4) key in
  let r := p ++ "..." ++ t in
  (4 <? String.length r)%nat = true
  /\ drop (String.length r - 4) r = t.
Proof.
  intros Hlen t r.
  assert (Ht : String.length t = 4%nat).
  { unfold t. rewrite string_length_drop. lia. }
  assert (Hr : String.length r = (String.length p + 7)%nat).
  { unfold r. rewrite !length_append, Ht. reflexivity. }
  split.
  - apply Nat.ltb_lt. lia.
  - rewrite Hr. unfold r.
    rewrite string_drop_append_ge by lia.
    replace (String.length p + 7 - 4 - String.length p)%nat with 3%nat by lia.
    reflexivity.
Qed.

Lemma no_hyphen_extractPrefix (key : string) :
  has_hyphen key = false -> extractPrefix key = "".
Proof.
  intros Hh. unfold extractPrefix.
  assert (Hnone : find (HasPrefix key) prefixes = None).
  { apply find_prefixes_None. unfold HasPrefix.
    destruct (String.prefix "sk-" key) eqn:Hp; [|reflexivity].
    change "sk-" with ("sk" ++ "-") in Hp. apply prefix_has_hyphen in Hp. congruence. }
  rewrite Hnone, Index_hyphen.
  apply first_hyphen_None in Hh. rewrite Hh. reflexivity.
Qed.

(** [ObfuscateAPIKey] applied twice is [ObfuscateAPIKey] applied once on
    the stable keys. *)
Lemma ObfuscateAPIKey_idempotent (key : string) :
  stableKey key = true ->
  ObfuscateAPIKey (ObfuscateAPIKey key) = ObfuscateAPIKey key.
Proof.
  unfold stableKey. intros Hst.
  unfold ObfuscateAPIKey at 2 3.
  destruct (String.eqb key "") eqn:Hempty; [reflexivity|].
  cbn [orb] in Hst.
  unfold ObfuscateAPIKey. rewrite eqb_append_dots.
  destruct (has_hyphen key) eqn:Hh; cbn [negb orb] in Hst.
  - (* a hyphen, more than four bytes, no hyphen in front *)
    apply andb_true_iff in Hst as [Hlen Hstart].
    apply negb_true_iff in Hstart.
    rewrite Hlen. apply Nat.ltb_lt in Hlen.
    destruct (suffix_obfuscated (extractPrefix key) key Hlen) as [Hlong Hsuf].
    rewrite Hlong, Hsuf.
    rewrite extractPrefix_obfuscated by (left; split; assumption).
    reflexivity.
  - (* no hyphen at all *)
    clear Hst. rewrite (no_hyphen_extractPrefix key Hh).
    destruct (4 <? String.length key)%nat eqn:Hlen.
    + apply Nat.ltb_lt in Hlen.
      destruct (suffix_obfuscated "" key Hlen) as [Hlong Hsuf].
      rewrite Hlong, Hsuf.
      pose proof (extractPrefix_obfuscated key (drop (String.length key - 4) key)
                    (or_intror (has_hyphen_drop _ _ Hh))) as Hp.
      rewrite (no_hyphen_extractPrefix key Hh) in Hp. rewrite Hp. reflexivity.
    + reflexivity.
Qed.

(** The obfuscation of a value that does not start with ["Bearer "] does
    not start with it either. *)
Lemma ObfuscateAPIKey_not_Bearer (value : string) :
  HasPrefix value "Bearer " = false ->
  HasPrefix (ObfuscateAPIKey value) "Bearer " = false.
Proof.
  intros Hb. unfold ObfuscateAPIKey.
  destruct (String.eqb value ""); [reflexivity|].
  set (t := if (4 <? String.length value)%nat then _ else _). clearbody t.
  unfold extractPrefix.
  destruct (find (HasPrefix value) prefixes) as [q|] eqn:Hfind.
  - destruct (find_prefixes_Some value q t Hfind) as [Hq _]. rewrite Hq.
    revert Hfind. unfold prefixes. cbn [find].
    destruct (HasPrefix value "sk-ant-api03-"); [intros [= <-]; reflexivity|].
    destruct (HasPrefix value "sk-ant-"); [intros [= <-]; reflexivity|].
    destruct (HasPrefix value "sk-proj-"); [intros [= <-]; reflexivity|].
    destruct (HasPrefix value "sk-"); [intros [= <-]; reflexivity|discriminate].
  - rewrite Index_hyphen.
    destruct (first_hyphen value) as [[|n]|] eqn:Hidx; try reflexivity.
    assert (Hpos : (0 <? Z.of_nat (S n))%Z = true) by (apply Z.ltb_lt; lia).
    rewrite Hpos.
    replace (Z.to_nat (Z.of_nat (S n)) + 1)%nat with (S (S n)) by lia.
    unfold HasPrefix in *.
    destruct (String.prefix "Bearer " (take (S (S n)) value ++ "..." ++ t)) eqn:Hp;
      [|reflexivity].
    apply (prefix_no_hyphen "Bearer " value ("..." ++ t) (S n) eq_refl Hidx) in Hp.
    congruence.
Qed.

Lemma obfuscateHeaderValue_idempotent (value : string) :
  stableValue value = true ->
  obfuscateHeaderValue (obfuscateHeaderValue value) = obfuscateHeaderValue value.
Proof.
  unfold stableValue, keyOf. intros Hst.
  unfold obfuscateHeaderValue at 2 3.
  destruct (HasPrefix value "Bearer ") eqn:Hb.
  - set (token := TrimPrefix value "Bearer ") in *. clearbody token.
    unfold obfuscateHeaderValue, TrimPrefix, HasPrefix.
    rewrite prefix_append, (string_drop_append "Bearer ").
    rewrite (ObfuscateAPIKey_idempotent _ Hst). reflexivity.
  - unfold obfuscateHeaderValue.
    rewrite (ObfuscateAPIKey_not_Bearer value Hb).
    apply ObfuscateAPIKey_idempotent, Hst.
Qed.

(** [ObfuscateHeaders] key by key. *)
Lemma ObfuscateHeaders_lookup (h : Header) (k : string) :
  ObfuscateHeaders h !! k = newValues k <$> h !! k.
Proof.
  unfold ObfuscateHeaders.
  apply (map_fold_weak_ind
           (fun (r m : Header) => r !! k = newValues k <$> m !! k)).
  - rewrite !lookup_empty. reflexivity.
  - intros i x m r Hnone IH.
    destruct (decide (i = k)) as [->|Hne].
    + rewrite !lookup_insert_eq. reflexivity.
    + rewrite !lookup_insert_ne by exact Hne. exact IH.
Qed.


Lemma newValues_idempotent (k : string) (vs : list string) :
  (isAPIKeyHeader k = true -> forallb stableValue vs = true) ->
  newValues k (newValues k vs) = newValues k vs.
Proof.
  unfold newValues. intros Hst. rewrite List.map_map.
  destruct (isAPIKeyHeader k); [|reflexivity].
  specialize (Hst eq_refl). rewrite forallb_forall in Hst.
  apply List.map_ext_in. intros v Hv.
  apply obfuscateHeaderValue_idempotent, Hst, Hv.
Qed.




End ObfuscateFacts.

(** ** obfuscate.go on the store *)

Section HeapFacts.

Import HTTP Obfuscate Heap.

Lemma fill_spec (values : list string) (st : Store) (dst : loc) (key : string)
      (pre : list string) :
  arrays st !! dst = Some (pre ++ replicate (length values) "")%list ->
  arrays (fill st dst key (length pre) values)
  = <[dst := (pre ++ newValues key values)%list]> (arrays st)
  /\ maps (fill st dst key (length pre) values) = maps st.
Proof.
  revert st pre. induction values as [|v values IH]; intros st pre Hdst.
  - cbn in *. rewrite app_nil_r in *. split; [|reflexivity].
    symmetry. apply insert_id. exact Hdst.
  - cbn [fill].
    set (v' := if isAPIKeyHeader key then obfuscateHeaderValue v else v).
    set (st1 := slice_set st dst (length pre) v').
    assert (H1 : arrays st1 !! dst
                 = Some ((pre ++ [v']) ++ replicate (length values) "")%list).
    { unfold st1, slice_set. cbn [arrays]. rewrite lookup_alter_eq, Hdst. cbn.
      f_equal. rewrite insert_app_r_alt by lia. rewrite Nat.sub_diag.
      rewrite <- app_assoc. reflexivity. }
    destruct (IH st1 (pre ++ [v'])%list H1) as [Harr Hmaps].
    rewrite length_app in Harr, Hmaps. cbn [length] in Harr, Hmaps.
    rewrite Nat.add_1_r in Harr, Hmaps.
    rewrite Harr, Hmaps. split; [|reflexivity].
    unfold st1, slice_set. cbn [arrays].
    rewrite <- app_assoc. cbn [app newValues map].
    apply map_eq. intros l. destruct (decide (dst = l)) as [->|Hne].
    + rewrite !lookup_insert_eq. reflexivity.
    + rewrite !lookup_insert_ne by exact Hne.
      rewrite lookup_alter_ne by exact Hne. reflexivity.
Qed.

Lemma obfuscate_key_step (st0 st : Store) (result : loc) (R : gmap string loc)
      (key : string) (vloc : loc) :
  loopInv st0 result st R ->
  is_Some (arrays st0 !! vloc) ->
  exists nv,
    loopInv st0 result (obfuscate_key result st (key, vloc)) (<[key := nv]> R)
    /\ arrays st !! nv = None
    /\ arrays (obfuscate_key result st (key, vloc))
       = <[nv := newValues key (read_slice st0 vloc)]> (arrays st).
Proof.
  intros (Hmaps & Hframe & Hres) [a Ha].
  unfold obfuscate_key.
  assert (Hread : read_slice st vloc = read_slice st0 vloc).
  { unfold read_slice. rewrite Ha, (Hframe vloc a Ha). reflexivity. }
  rewrite Hread. unfold alloc_slice.
  set (values := read_slice st0 vloc).
  set (nv := fresh (dom (arrays st))).
  assert (Hnv : arrays st !! nv = None).
  { apply not_elem_of_dom. apply is_fresh. }
  set (st1 := mkStore (<[nv := replicate (length values) ""]> (arrays st)) (maps st)).
  destruct (fill_spec values st1 nv key [] (lookup_insert_eq _ _ _)) as [Harr Hm].
  cbn [length app] in Harr, Hm.
  assert (Harr' : arrays (fill st1 nv key 0 values)
                  = <[nv := newValues key values]> (arrays st)).
  { rewrite Harr. unfold st1. cbn [arrays]. apply insert_insert_eq. }
  exists nv. split; [|split; [exact Hnv|]].
  - unfold loopInv, map_set. cbn [maps arrays]. rewrite Hm, Harr'.
    unfold st1. cbn [maps]. split; [|split].
    + rewrite Hmaps. rewrite alter_insert_eq. reflexivity.
    + intros l b Hl. rewrite lookup_insert_ne; [apply Hframe, Hl|].
      intros <-. rewrite (Hframe _ _ Hl) in Hnv. discriminate.
    + intros k nv' Hk. destruct (decide (key = k)) as [->|Hne].
      * rewrite lookup_insert_eq in Hk. injection Hk as <-.
        rewrite lookup_insert_eq. split; [eexists; reflexivity|].
        destruct (arrays st0 !! nv) as [b|] eqn:Hb; [|reflexivity].
        rewrite (Hframe _ _ Hb) in Hnv. discriminate.
      * rewrite lookup_insert_ne in Hk by exact Hne.
        destruct (Hres k nv' Hk) as [[b Hb] Hnone]. split; [|exact Hnone].
        rewrite lookup_insert_ne; [eexists; exact Hb|].
        intros <-. congruence.
  - unfold map_set. cbn [arrays]. exact Harr'.
Qed.

Lemma obfuscate_loop (st0 : Store) (result : loc) (l : list (string * loc)) :
  forall (st : Store) (R : gmap string loc),
    loopInv st0 result st R ->
    NoDup (l.*1) ->
    (forall k v, (k, v) ∈ l -> is_Some (arrays st0 !! v)) ->
    exists R',
      loopInv st0 result (foldl (obfuscate_key result) st l) R'
      /\ forall k,
           (read_slice (foldl (obfuscate_key result) st l) <$> R') !! k
           = match (list_to_map l : gmap string loc) !! k with
             | Some v => Some (newValues k (read_slice st0 v))
             | None => (read_slice st <$> R) !! k
             end.
Proof.
  induction l as [|[key vloc] l IH]; intros st R Hinv Hnd Halloc.
  - exists R. split; [exact Hinv|]. intros k. cbn. rewrite lookup_empty. reflexivity.
  - cbn [foldl].
    destruct (obfuscate_key_step st0 st result R key vloc Hinv)
      as (nv & Hinv' & Hnv & Harr).
    { apply (Halloc key vloc). left. }
    cbn [fmap list_fmap fst] in Hnd. apply NoDup_cons in Hnd as [Hnotin Hnd].
    destruct (IH _ _ Hinv' Hnd) as (R' & Hfinal & Hlook).
    { intros k v Hin. apply (Halloc k v). right. exact Hin. }
    exists R'. split; [exact Hfinal|].
    intros k. rewrite Hlook. rewrite list_to_map_cons.
    destruct (decide (key = k)) as [->|Hne].
    + rewrite lookup_insert_eq.
      rewrite (not_elem_of_list_to_map_1 _ _ Hnotin).
      rewrite lookup_fmap, lookup_insert_eq. cbn [fmap option_fmap option_map].
      unfold read_slice. rewrite Harr, lookup_insert_eq. reflexivity.
    + rewrite lookup_insert_ne by exact Hne.
      destruct (list_to_map l !! k); [reflexivity|].
      rewrite !lookup_fmap, lookup_insert_ne by exact Hne.
      destruct Hinv as (_ & _ & Hres).
      destruct (R !! k) as [nv'|] eqn:Hk; [|reflexivity].
      cbn [fmap option_fmap option_map]. f_equal. unfold read_slice. rewrite Harr.
      rewrite lookup_insert_ne; [reflexivity|].
      intros <-. destruct (Hres k nv Hk) as [[b Hb] _]. congruence.
Qed.

Lemma valuesAllocated_lookup (st : Store) (headers : loc) (k : string) (v : loc) :
  valuesAllocated st headers = true ->
  read_map st headers !! k = Some v -> is_Some (arrays st !! v).
Proof.
  unfold valuesAllocated. rewrite forallb_forall. intros Hall Hk.
  specialize (Hall (k, v)). cbn [snd] in Hall.
  destruct (arrays st !! v); [eexists; reflexivity|].
  discriminate Hall. apply list_elem_of_In, elem_of_map_to_list. exact Hk.
Qed.

(** C10. [ObfuscateHeaders] returns a map that was not allocated before
    the call; every map and every array that existed before the call is
    the same after it, so the header map passed in has the same keys and
    values; the returned map holds the obfuscated headers in arrays of its
    own, none of which existed before the call. *)
Theorem ObfuscateHeaders_allocates_and_preserves (st : Store) (headers : loc)
        (Halloc : valuesAllocated st headers = true) :
  let result := fst (Heap.ObfuscateHeaders st headers) in
  let st' := snd (Heap.ObfuscateHeaders st headers) in
  maps st !! result = None
  /\ (forall l m, maps st !! l = Some m -> maps st' !! l = Some m)
  /\ (forall l a, arrays st !! l = Some a -> arrays st' !! l = Some a)
  /\ header_at st' headers = header_at st headers
  /\ header_at st' result = Obfuscate.ObfuscateHeaders (header_at st headers)
  /\ (forall k v, read_map st' result !! k = Some v -> arrays st !! v = None).
Proof.
  unfold Heap.ObfuscateHeaders, alloc_map. cbn [fst snd].
  set (result := fresh (dom (maps st))).
  set (st1 := mkStore (arrays st) (<[result := ∅]> (maps st))).
  assert (Hfresh : maps st !! result = None).
  { apply not_elem_of_dom. apply is_fresh. }
  assert (Hinv0 : loopInv st result st1 ∅).
  { unfold loopInv, st1. cbn [maps arrays]. split; [reflexivity|].
    split; [tauto|]. intros k nv Hk. rewrite lookup_empty in Hk. discriminate. }
  destruct (obfuscate_loop st result (map_to_list (read_map st headers)) st1 ∅ Hinv0)
    as (R' & (Hmaps & Hframe & Hres) & Hlook).
  { apply NoDup_fst_map_to_list. }
  { intros k v Hin. apply elem_of_map_to_list in Hin.
    apply (valuesAllocated_lookup st headers k v Halloc Hin). }
  set (st' := foldl (obfuscate_key result) st1 _) in *.
  assert (Hother : forall l m, maps st !! l = Some m -> maps st' !! l = Some m).
  { intros l m Hl. rewrite Hmaps. rewrite lookup_insert_ne; [exact Hl|].
    intros <-. congruence. }
  assert (Hresult : read_map st' result = R').
  { unfold read_map. rewrite Hmaps, lookup_insert_eq. reflexivity. }
  split; [exact Hfresh|]. split; [exact Hother|]. split; [exact Hframe|].
  split; [|split].
  - unfold header_at. apply map_eq. intros k. rewrite !lookup_fmap.
    assert (Hrm : read_map st' headers = read_map st headers).
    { unfold read_map. destruct (maps st !! headers) as [m|] eqn:Hm.
      - rewrite (Hother _ _ Hm). reflexivity.
      - rewrite Hmaps. destruct (decide (result = headers)) as [<-|Hne].
        + rewrite lookup_insert_eq. cbn.
          apply map_eq. intros k'. rewrite lookup_empty.
          destruct (R' !! k') as [nv|] eqn:Hk'; [|reflexivity].
          specialize (Hlook k'). rewrite lookup_fmap, Hk' in Hlook.
          unfold read_map in Hlook. rewrite Hm in Hlook. cbn in Hlook.
          rewrite map_to_list_empty in Hlook. cbn in Hlook.
          rewrite lookup_empty in Hlook. discriminate.
        + rewrite lookup_insert_ne by exact Hne. rewrite Hm. reflexivity. }
    rewrite Hrm.
    destruct (read_map st headers !! k) as [v|] eqn:Hk; [|reflexivity].
    cbn. f_equal.
    destruct (valuesAllocated_lookup st headers k v Halloc Hk) as [a Ha].
    unfold read_slice. rewrite Ha, (Hframe _ _ Ha). reflexivity.
  - unfold header_at at 1. rewrite Hresult. apply map_eq. intros k.
    rewrite Hlook, list_to_map_to_list, ObfuscateHeaders_lookup.
    unfold header_at. rewrite !lookup_fmap, lookup_empty.
    destruct (read_map st headers !! k); reflexivity.
  - intros k v Hk. rewrite Hresult in Hk. apply (Hres k v Hk).
Qed.

Lemma ObfuscateHeaders_allocates_and_preserves_witness :
  valuesAllocated Samples.headerStore 1%positive = true
  /\ header_at (snd (Heap.ObfuscateHeaders Samples.headerStore 1%positive)) 1%positive
     = header_at Samples.headerStore 1%positive.
Proof.
  split; [vm_compute; reflexivity|].
  apply (ObfuscateHeaders_allocates_and_preserves Samples.headerStore 1%positive).
  vm_compute. reflexivity.
Defined.

End HeapFacts.

(** ** session.go: sequence numbers of the session manager *)

Section SessionManagerFacts.

Import GoInt SessionStore SessionManager.

Lemma add_wrap64 (x y : Z) : add (wrap64 x) y = wrap64 (x + y).
Proof.
  unfold add. apply cong64_wrap64, cong64_plus; [apply wrap64_cong|apply cong64_refl].
Qed.

(** The first request with a client session id creates the session and
    gets sequence number 1. *)
Lemma getOrCreate_new_session (env : Env) (sm : SessionManager)
      (cid provider upstream : string) :
  by_client (db sm) !! cid = None ->
  rows (db sm) !! env_sessionID env = None ->
  env_mkdirErr env = None ->
  let res := getOrCreateByClientSessionID env sm cid provider upstream in
  fst res = (env_sessionID env, 1%Z, true, None)
  /\ by_client (db (snd res)) !! cid = Some (env_sessionID env)
  /\ last_seq <$> rows (db (snd res)) !! env_sessionID env = Some 1%Z.
Proof.
  intros Hcid Hrow Hmk. cbv zeta.
  unfold getOrCreateByClientSessionID, FindByClientSessionID.
  rewrite Hcid. change (default "" (@None string)) with "". cbn [negb String.eqb].
  unfold createNewSessionWithClientID, CreateSessionWithClientID.
  rewrite Hmk, Hrow, Hcid. cbn [fst snd db by_client rows].
  rewrite !lookup_insert_eq. repeat split.
Qed.

(** A request that continues a session gets the stored [last_seq] plus
    one, and that number is stored. *)
Lemma getOrCreate_existing_session (env : Env) (sm : SessionManager)
      (cid provider upstream sid : string) (r : SessionRow) :
  by_client (db sm) !! cid = Some sid ->
  sid <> "" ->
  rows (db sm) !! sid = Some r ->
  let res := getOrCreateByClientSessionID env sm cid provider upstream in
  fst res = (sid, add (last_seq r) 1, false, None)
  /\ by_client (db (snd res)) = by_client (db sm)
  /\ last_seq <$> rows (db (snd res)) !! sid = Some (add (last_seq r) 1).
Proof.
  intros Hcid Hsid Hrow. cbv zeta.
  unfold getOrCreateByClientSessionID, FindByClientSessionID.
  rewrite Hcid. change (default "" (Some sid)) with sid.
  apply String.eqb_neq in Hsid. rewrite Hsid. cbn [negb].
  unfold GetSessionWithClientID, UpdateSessionSeq. rewrite Hrow.
  cbn [fst snd db by_client rows]. rewrite lookup_insert_eq. repeat split.
Qed.

Lemma seqsOf_existing (envs : list Env) :
  forall (sm : SessionManager) (cid provider upstream sid : string) (r : SessionRow),
    by_client (db sm) !! cid = Some sid ->
    sid <> "" ->
    rows (db sm) !! sid = Some r ->
    seqsOf envs sm cid provider upstream
    = map (fun i => wrap64 (last_seq r + Z.of_nat i)) (seq 1 (length envs)).
Proof.
  induction envs as [|env envs IH]; intros sm cid provider upstream sid r Hcid Hsid Hrow;
    [reflexivity|].
  cbn [seqsOf length seq map].
  destruct (getOrCreate_existing_session env sm cid provider upstream sid r
              Hcid Hsid Hrow) as (Hres & Hbc & Hls).
  destruct (getOrCreateByClientSessionID env sm cid provider upstream)
    as [[[[sid' seq'] isNew] err] sm'].
  cbn [fst snd] in *. injection Hres as -> -> -> ->.
  f_equal.
  destruct (rows (db sm') !! sid) as [r'|] eqn:Hrow'; [|discriminate].
  cbn in Hls. injection Hls as Hls.
  rewrite (IH sm' cid provider upstream sid r') by (rewrite ?Hbc; assumption).
  rewrite <- (seq_shift (length envs) 1), List.map_map.
  apply List.map_ext. intros i.
  rewrite Hls. unfold add. apply cong64_wrap64.
  destruct (wrap64_cong (last_seq r + 1)) as [k ->]. exists k. lia.
Qed.

(** The requests of one client session get, in order, the numbers
    1, 2, 3, ... (as Go integers). *)
Lemma seqsOf_new_session (env : Env) (envs : list Env) (sm : SessionManager)
      (cid provider upstream : string) :
  by_client (db sm) !! cid = None ->
  rows (db sm) !! env_sessionID env = None ->
  env_mkdirErr env = None ->
  env_sessionID env <> "" ->
  seqsOf (env :: envs) sm cid provider upstream
  = map (fun i => wrap64 (Z.of_nat i)) (seq 1 (S (length envs))).
Proof.
  intros Hcid Hrow Hmk Hsid. cbn [seqsOf].
  destruct (getOrCreate_new_session env sm cid provider upstream Hcid Hrow Hmk)
    as (Hres & Hbc & Hls).
  destruct (getOrCreateByClientSessionID env sm cid provider upstream)
    as [[[[sid' seq'] isNew] err] sm'].
  cbn [fst snd] in *. injection Hres as -> -> -> ->.
  destruct (rows (db sm') !! env_sessionID env) as [r'|] eqn:Hrow'; [|discriminate].
  cbn in Hls. injection Hls as Hls.
  rewrite (seqsOf_existing envs sm' cid provider upstream (env_sessionID env) r'
             Hbc Hsid Hrow').
  cbn [seq map]. f_equal.
  rewrite <- (seq_shift (length envs) 1), List.map_map.
  apply List.map_ext. intros i.
  rewrite Hls. f_equal. lia.
Qed.

End SessionManagerFacts.

(** ** urlparse.go *)

Section ParseProxyURLFacts.

Import GoStrings Proxy.

Lemma index_byte (c : ascii) (s : string) :
  String.index 0 (String c "") s = first_byte c s.
Proof.
  induction s as [|x s IH]; [reflexivity|].
  change (String.index 0 (String c "") (String x s))
    with (if String.prefix (String c "") (String x s) then Some 0%nat
          else match String.index 0 (String c "") s with
               | Some n => Some (S n)
               | None => None
               end).
  rewrite prefix_cons, prefix_nil, IH. cbn [first_byte].
  rewrite (Ascii.eqb_sym c x). destruct (Ascii.eqb x c); reflexivity.
Qed.

Lemma first_byte_split (c : ascii) (s : string) (i : nat) :
  first_byte c s = Some i ->
  s = take i s ++ String c (drop (S i) s)
  /\ has_byte c (take i s) = false
  /\ String.length (take i s) = i.
Proof.
  revert i. induction s as [|x s IH]; intros i Hi; [discriminate|].
  cbn [first_byte] in Hi. destruct (Ascii.eqb x c) eqn:Hx.
  - injection Hi as <-. apply Ascii.eqb_eq in Hx. subst x.
    repeat split.
  - destruct (first_byte c s) as [n|]; [|discriminate].
    injection Hi as <-. destruct (IH n eq_refl) as (Hs & Hh & Hl).
    change (drop (S (S n)) (String x s)) with (drop (S n) s).
    cbn [take has_byte String.length]. rewrite append_cons, <- Hs, Hx, Hh, Hl.
    repeat split.
Qed.

Lemma first_byte_append (c : ascii) (a b : string) :
  has_byte c a = false ->
  first_byte c (a ++ String c b) = Some (String.length a).
Proof.
  induction a as [|x a IH]; intros Ha.
  - rewrite append_nil_l. cbn. rewrite Ascii.eqb_refl. reflexivity.
  - cbn in Ha. apply orb_false_iff in Ha as [Hx Ha].
    rewrite append_cons. cbn [first_byte String.length].
    rewrite Hx, (IH Ha). reflexivity.
Qed.

(** [cut] splits at the first separator byte. *)
Lemma cut_Some (c : ascii) (s a b : string) :
  cut s (String c "") = Some (a, b) ->
  s = a ++ String c b /\ has_byte c a = false.
Proof.
  unfold cut. rewrite index_byte.
  destruct (first_byte c s) as [i|] eqn:Hi; [|discriminate].
  intros [= <- <-]. destruct (first_byte_split c s i Hi) as (Hs & Hh & _).
  cbn [String.length]. rewrite Nat.add_1_r. split; [exact Hs|exact Hh].
Qed.

Lemma cut_append (c : ascii) (a b : string) :
  has_byte c a = false ->
  cut (a ++ String c b) (String c "") = Some (a, b).
Proof.
  intros Ha. unfold cut. rewrite index_byte, (first_byte_append c a b Ha).
  cbn [String.length]. rewrite Nat.add_1_r.
  rewrite string_take_append.
  change (S (String.length a)) with (String.length (String c a)) at 1.
  replace (String.length (String c a)) with (String.length (a ++ String c ""))
    by (rewrite length_append; cbn; lia).
  replace (a ++ String c b) with ((a ++ String c "") ++ b)
    by (rewrite append_assoc; reflexivity).
  rewrite string_drop_append. reflexivity.
Qed.

Lemma validProviders_no_slash (provider : string) :
  validProviders provider = true -> has_byte "/"%char provider = false.
Proof.
  unfold validProviders. intros H. apply orb_true_iff in H as [H|H];
    apply String.eqb_eq in H; subst provider; reflexivity.
Qed.

(** X1. A path [ParseProxyURL] accepts is made of exactly what it
    returns: without its leading slash it reads provider, slash, upstream
    and the returned path, which begins with a slash; the provider is
    [anthropic] or [openai], the upstream is not empty, and neither holds
    a slash. *)
Theorem ParseProxyURL_sound (urlPath provider upstream path : string)
        (Hok : ParseProxyURL urlPath = (provider, upstream, path, None)) :
  TrimPrefix urlPath "/" = provider ++ "/" ++ upstream ++ path
  /\ HasPrefix path "/" = true
  /\ validProviders provider = true
  /\ upstream <> ""
  /\ has_byte "/"%char provider = false
  /\ has_byte "/"%char upstream = false.
Proof.
  unfold ParseProxyURL in Hok. set (trimmed := TrimPrefix urlPath "/") in *.
  cbn [SplitN] in Hok.
  destruct (cut trimmed "/") as [[a b]|] eqn:Hcut1; [|discriminate].
  destruct (cut b "/") as [[a2 b2]|] eqn:Hcut2; [|discriminate].
  destruct (validProviders a) eqn:Hvalid; cbn [negb] in Hok; [|discriminate].
  destruct (String.eqb a2 "") eqn:Hup; [discriminate|].
  injection Hok as <- <- <-.
  apply (cut_Some "/"%char) in Hcut1 as [H1 Hh1].
  apply (cut_Some "/"%char) in Hcut2 as [H2 Hh2].
  split; [rewrite H1, H2; reflexivity|].
  split; [unfold HasPrefix; apply prefix_append|]. split; [exact Hvalid|].
  split; [apply String.eqb_neq, Hup|]. split; assumption.
Qed.

Lemma ParseProxyURL_sound_witness :
  ParseProxyURL "/openai/localhost:8080/v1/chat/completions"
  = ("openai", "localhost:8080", "/v1/chat/completions", None)
  /\ TrimPrefix "/openai/localhost:8080/v1/chat/completions" "/"
     = "openai" ++ "/" ++ "localhost:8080" ++ "/v1/chat/completions".
Proof.
  split; [reflexivity|].
  apply (ParseProxyURL_sound "/openai/localhost:8080/v1/chat/completions"
                             "openai" "localhost:8080" "/v1/chat/completions").
  reflexivity.
Defined.

(** X2. Every path of the form slash, provider, slash, upstream, slash,
    rest, with a known provider and a non-empty upstream free of slashes,
    is accepted and split into these parts; the rest keeps its own
    slashes and gets the leading one. *)
Theorem ParseProxyURL_complete (provider upstream rest : string)
        (Hvalid : validProviders provider = true)
        (Hup : upstream <> "")
        (Hslash : has_byte "/"%char upstream = false) :
  ParseProxyURL ("/" ++ provider ++ "/" ++ upstream ++ "/" ++ rest)
  = (provider, upstream, "/" ++ rest, None).
Proof.
  unfold ParseProxyURL, TrimPrefix, HasPrefix.
  rewrite prefix_append, (string_drop_append "/").
  cbn [SplitN].
  change ("/" ++ upstream ++ "/" ++ rest) with (String "/"%char (upstream ++ "/" ++ rest)).
  rewrite (cut_append "/"%char provider _ (validProviders_no_slash _ Hvalid)).
  change ("/" ++ rest) with (String "/"%char rest).
  rewrite (cut_append "/"%char upstream rest Hslash).
  rewrite Hvalid. cbn [negb].
  apply String.eqb_neq in Hup. rewrite Hup. reflexivity.
Qed.

Lemma ParseProxyURL_complete_witness :
  validProviders "anthropic" = true
  /\ "api.anthropic.com" <> ""
  /\ has_byte "/"%char "api.anthropic.com" = false
  /\ ParseProxyURL ("/" ++ "anthropic" ++ "/" ++ "api.anthropic.com" ++ "/" ++ "v1/messages")
     = ("anthropic", "api.anthropic.com", "/" ++ "v1/messages", None).
Proof.
  split; [reflexivity|]. split; [discriminate|]. split; [reflexivity|].
  apply (ParseProxyURL_complete "anthropic" "api.anthropic.com" "v1/messages").
  - reflexivity.
  - discriminate.
  - reflexivity.
Defined.

End ParseProxyURLFacts.

(** ** proxy.go: refused requests, journal order, sequence numbers *)

Section ProxyFacts.

Import GoInt GoStrings HTTP Journal Proxy.

(** X3. A request that does not go upstream is answered with 400 or 500
    and leaves the proxy as it was: no sequence number is used and
    nothing is journaled. A request that goes upstream carries the method
    and the body of the client's request and is addressed to the upstream
    named in the path. *)
Theorem ServeHTTP_refuses_or_forwards (env : Env) (p : ProxyState)
        (w : ResponseWriter) (r : Request) :
  match ServeHTTP env p w r with
  | (w', p', None) =>
      p' = p
      /\ exists msg, w' = Error w msg StatusBadRequest
                     \/ w' = Error w msg StatusInternalServerError
  | (w', p', Some up) =>
      exists provider upstream path,
        ParseProxyURL (URLPath r) = (provider, upstream, path, None)
        /\ env_newRequestErr env = None
        /\ up_method up = Method r
        /\ up_host up = upstream
        /\ (ReqBody r = None /\ up_body up = ""
            \/ ReqBody r = Some (up_body up, None))
  end.
Proof.
  unfold ServeHTTP.
  destruct (ParseProxyURL (URLPath r)) as [[[provider upstream] path] [err|]].
  { split; [reflexivity|]. exists err. left. reflexivity. }
  destruct (ReqBody r) as [[data [e|]]|] eqn:Hbody.
  - split; [reflexivity|]. eexists. right. reflexivity.
  - destruct (env_newRequestErr env) as [e|] eqn:Hnew.
    { split; [reflexivity|]. eexists. right. reflexivity. }
    destruct (logRequest env p provider upstream path r data) as [[sid seq] p1].
    destruct (forwardResponse _ _ _ _ _ _ _) as [w' p2].
    exists provider, upstream, path. cbn.
    repeat split. right. reflexivity.
  - destruct (env_newRequestErr env) as [e|] eqn:Hnew.
    { split; [reflexivity|]. eexists. right. reflexivity. }
    destruct (logRequest env p provider upstream path r "") as [[sid seq] p1].
    destruct (forwardResponse _ _ _ _ _ _ _) as [w' p2].
    exists provider, upstream, path. cbn.
    repeat split. left. split; reflexivity.
Qed.

(** X4. With a journal attached, a forwarded request adds to the journal
    a [session_start] entry and a [request] entry, in this order, and
    then a [response] entry exactly when the upstream answered and its
    body could be read. The three carry the same session id, and request
    and response the same sequence number, which is the session's counter
    before the call. A refused request adds nothing. *)
Theorem ServeHTTP_journal (env : Env) (l : Logger) (seqs : gmap string Z)
        (w : ResponseWriter) (r : Request) :
  let sid := env_sessionID env in
  let seq := default 0%Z (seqs !! sid) in
  match ServeHTTP env (mkProxy (Some l) seqs) w r with
  | (_, p', None) => logger p' = Some l
  | (_, p', Some up) =>
      exists l' provider upstream path,
        logger p' = Some l'
        /\ ParseProxyURL (URLPath r) = (provider, upstream, path, None)
        /\ let start :=
             [CallSessionStart sid provider upstream;
              CallRequest sid provider seq (Method r) path (ReqHeader r)
                          (up_body up) ""] in
           match env_upstream env up with
           | DoResponse status hdr body None =>
               calls l' =
               (calls l ++ start ++
                [CallResponse sid provider seq status hdr body None
                              (mkTiming (env_ttfb env) (env_total env)) ""])%list
           | _ => calls l' = (calls l ++ start)%list
           end
  end.
Proof.
  intros sid seq. unfold ServeHTTP.
  destruct (ParseProxyURL (URLPath r)) as [[[provider upstream] path] [err|]];
    [reflexivity|].
  assert (Hgen : forall body,
    let up := buildUpstreamRequest upstream path r body in
    let '(sessionID, n, p1) :=
      logRequest env (mkProxy (Some l) seqs) provider upstream path r body in
    let '(w', p2) := forwardResponse env p1 w provider sessionID n (env_upstream env up) in
    exists l',
      logger p2 = Some l'
      /\ let start :=
           [CallSessionStart sid provider upstream;
            CallRequest sid provider seq (Method r) path (ReqHeader r) body ""] in
         match env_upstream env up with
         | DoResponse status hdr body None =>
             calls l' =
             (calls l ++ start ++
              [CallResponse sid provider seq status hdr body None
                            (mkTiming (env_ttfb env) (env_total env)) ""])%list
         | _ => calls l' = (calls l ++ start)%list
         end).
  { intros body up. unfold logRequest, nextSeq, log, with_logger. cbn.
    fold sid. fold seq.
    destruct (env_upstream env up) as [msg|status hdr respBody [e|]]; cbn.
    - eexists. split; [reflexivity|]. cbn. rewrite <- app_assoc. reflexivity.
    - eexists. split; [reflexivity|]. cbn. rewrite <- app_assoc. reflexivity.
    - eexists. split; [reflexivity|]. cbn. rewrite <- !app_assoc. reflexivity. }
  destruct (ReqBody r) as [[data [e|]]|]; [reflexivity| |].
  - destruct (env_newRequestErr env); [reflexivity|].
    specialize (Hgen data). cbn zeta in Hgen.
    destruct (logRequest _ _ _ _ _ _ _) as [[sessionID n] p1].
    destruct (forwardResponse _ _ _ _ _ _ _) as [w' p2].
    destruct Hgen as (l' & Hl & Hcalls).
    exists l', provider, upstream, path. repeat split; [exact Hl|exact Hcalls].
  - destruct (env_newRequestErr env); [reflexivity|].
    specialize (Hgen ""). cbn zeta in Hgen.
    destruct (logRequest _ _ _ _ _ _ _) as [[sessionID n] p1].
    destruct (forwardResponse _ _ _ _ _ _ _) as [w' p2].
    destruct Hgen as (l' & Hl & Hcalls).
    exists l', provider, upstream, path. repeat split; [exact Hl|exact Hcalls].
Qed.

Lemma seqsFor_cons (sid sid0 : string) (n : Z) (out : list (string * Z)) :
  seqsFor sid ((sid0, n) :: out) =
  if String.eqb sid0 sid then n :: seqsFor sid out else seqsFor sid out.
Proof.
  unfold seqsFor. cbn. destruct (String.eqb sid0 sid); reflexivity.
Qed.

Lemma nextSeqs_counts (sids : list string) :
  forall (p : ProxyState) (sid : string) (k : nat),
    default 0%Z (seqNums p !! sid) = wrap64 (Z.of_nat k) ->
    seqsFor sid (fst (nextSeqs p sids)) =
    map (fun i => wrap64 (Z.of_nat (k + i))) (seq 0 (callsFor sid sids)).
Proof.
  induction sids as [|sid0 rest IH]; intros p sid k Hk; [reflexivity|].
  cbn [nextSeqs]. unfold nextSeq.
  set (p1 := mkProxy _ _).
  destruct (nextSeqs p1 rest) as [out p2] eqn:Hrest.
  cbn [fst]. rewrite seqsFor_cons. unfold callsFor. cbn [List.filter].
  rewrite (String.eqb_sym sid sid0).
  destruct (String.eqb sid0 sid) eqn:Heq.
  - apply String.eqb_eq in Heq. subst sid0.
    cbn [length seq map]. rewrite Nat.add_0_r, Hk. f_equal.
    specialize (IH p1 sid (S k)). rewrite Hrest in IH. cbn [fst] in IH.
    rewrite IH.
    + rewrite <- (seq_shift _ 0), map_map. apply map_ext. intros i.
      apply (f_equal wrap64). lia.
    + subst p1. cbn [seqNums]. rewrite lookup_insert_eq. cbn [default].
      rewrite Hk, add_wrap64. apply (f_equal wrap64). lia.
  - apply String.eqb_neq in Heq.
    specialize (IH p1 sid k). rewrite Hrest in IH. cbn [fst] in IH.
    apply IH. subst p1. cbn [seqNums].
    rewrite lookup_insert_ne by exact Heq. exact Hk.
Qed.

(** X5. On a new proxy, however the calls of [nextSeq] for different
    sessions are interleaved, the numbers one session receives are
    0, 1, 2, ... in this order (as 64-bit integers): a session's counter
    is not moved by the calls made for other sessions. *)
Theorem nextSeq_counts_per_session (l : option Logger) (sids : list string)
        (sid : string) :
  seqsFor sid (fst (nextSeqs (mkProxy l ∅) sids)) =
  map (fun i => wrap64 (Z.of_nat i)) (seq 0 (callsFor sid sids)).
Proof.
  apply (nextSeqs_counts sids (mkProxy l ∅) sid 0). reflexivity.
Qed.

(** X6. [copyHeaders] only ever appends: under every key the values the
    destination held before are still there, in the same order, in front
    of whatever was copied, whatever the keys of the source look like. *)
Theorem copyHeaders_keeps_destination (dst src : Header) (k : string) :
  exists added, Values (copyHeaders dst src) k = (Values dst k ++ added)%list.
Proof.
  unfold copyHeaders.
  apply (map_fold_weak_ind
           (fun r (m : Header) =>
              exists added, Values r k = (Values dst k ++ added)%list)).
  - exists []. rewrite app_nil_r. reflexivity.
  - intros i x m r _ [added IH]. rewrite Values_foldl_Add.
    destruct (decide (CanonicalMIMEHeaderKey i = k)).
    + exists (added ++ x)%list. rewrite IH, app_assoc. reflexivity.
    + exists added. exact IH.
Qed.

End ProxyFacts.

(** ** streaming.go: what is recorded of a streamed response *)

Section StreamedJournal.

Import GoStrings HTTP Journal Proxy Streaming.

Lemma streamLoop_chunks (fuel : nat) (env : StreamEnv) (sw : StreamingResponseWriter)
      (data : string) (readErr : option string) :
  (String.length data < fuel)%nat ->
  exists sw' ls,
    streamLoop fuel env sw data readErr = Some (sw', readErr)
    /\ rw_ops (sw_writer sw') = (rw_ops (sw_writer sw) ++ lineOps ls)%list
    /\ sw_chunks sw' =
       (sw_chunks sw
        ++ chunksFrom env (sw_startTime sw) (length (sw_chunks sw)) ls)%list
    /\ joined ls = data.
Proof.
  revert sw data. induction fuel as [|fuel IH]; intros sw data Hlen; [lia|].
  cbn [streamLoop].
  pose proof (ReadBytes_spec data) as Hrb.
  destruct (ReadBytes newline data) as [[line rest] found].
  destruct Hrb as [Hcat Hcase].
  destruct found.
  - destruct Hcase as (Hline & Hend & Hshort).
    destruct line as [|c line]; [discriminate|].
    cbn [String.length Nat.ltb Nat.leb].
    set (sw1 := SW_Flush (SW_Write env sw (String c line))).
    destruct (IH sw1 rest ltac:(lia)) as (sw' & ls & Hrun & Hops & Hch & Hj).
    exists sw', (String c line :: ls). split; [exact Hrun|].
    destruct (SW_line_ops env sw (String c line)) as [Hops1 _].
    fold sw1 in Hops1.
    repeat split.
    + rewrite Hops, Hops1, <- app_assoc. reflexivity.
    + rewrite Hch. subst sw1. cbn [SW_Flush SW_Write sw_chunks sw_startTime].
      rewrite length_app, Nat.add_1_r, <- app_assoc. reflexivity.
    + cbn. fold (joined ls). rewrite Hj. exact Hcat.
  - destruct Hcase as [-> Hline]. rewrite append_nil_r in Hcat. subst line.
    destruct data as [|c data].
    + exists sw, []. cbn. rewrite !app_nil_r. repeat split; reflexivity.
    + cbn [String.length Nat.ltb Nat.leb].
      exists (SW_Flush (SW_Write env sw (String c data))), [String c data].
      split; [reflexivity|].
      destruct (SW_line_ops env sw (String c data)) as [Hops1 _].
      repeat split; try assumption.
      cbn. rewrite append_nil_r. reflexivity.
Qed.

Lemma chunksFrom_Raw (env : StreamEnv) (startTime : Z) (ls : list string) :
  forall i, map Raw (chunksFrom env startTime i ls) = ls.
Proof.
  induction ls as [|l ls IH]; intros i; cbn; [reflexivity|].
  rewrite IH. reflexivity.
Qed.

Lemma chunksFrom_lookup (env : StreamEnv) (startTime : Z) (ls : list string) :
  forall i k c,
    chunksFrom env startTime i ls !! k = Some c ->
    Timestamp c = clock env (i + k)
    /\ DeltaMs c = (clock env (i + k) - startTime)%Z.
Proof.
  induction ls as [|l ls IH]; intros i k c Hc; [discriminate|].
  destruct k as [|k]; cbn in Hc.
  - injection Hc as <-. rewrite Nat.add_0_r. split; reflexivity.
  - destruct (IH (S i) k c Hc) as [Ht Hd].
    replace (i + S k)%nat with (S i + k)%nat by lia. split; assumption.
Qed.

(** What [streamResponse] does on a fresh writer when the body ends with
    EOF and a journal is attached. *)
Lemma streamResponse_EOF (env : StreamEnv) (status : Z) (hdr : Header)
      (body : string) (l : Logger) (sid provider : string) (seq startTime : Z) :
  exists w' ls,
    let cs := chunksFrom env (clock_start env) 0 ls in
    let ttfb := match cs with c :: _ => DeltaMs c | [] => 0%Z end in
    streamResponse env newResponseWriter status hdr body None (Some l) sid
                   provider seq startTime
    = Some (w',
            Some (snd (log l (CallResponse sid provider seq status hdr ""
                                (Some cs)
                                (mkTiming ttfb (clock_end env - startTime)) ""))),
            None)
    /\ writes (rw_ops w') = ls
    /\ joined ls = body.
Proof.
  unfold streamResponse.
  set (sw0 := mkSW _ _ _ _ _ _).
  destruct (streamLoop_chunks (loopFuel body) env sw0 body None)
    as (sw' & ls & Hrun & Hops & Hch & Hj); [unfold loopFuel; lia|].
  rewrite Hrun. exists (sw_writer sw'), ls. cbn zeta.
  subst sw0. cbn [sw_chunks sw_startTime NewStreamingResponseWriter app length] in Hch.
  rewrite Hch. split; [reflexivity|]. split; [|exact Hj].
  rewrite Hops. cbn [sw_writer WriteHeader rw_ops rw_with_header newResponseWriter app].
  unfold writes. cbn [omap]. apply writes_lineOps.
Qed.

(** X7. When a streamed body ends normally, exactly one [response] entry
    is journaled; its body field is empty and its chunks are, one for
    one and in order, the pieces written to the client, so that the
    chunks' raw bytes put together are the upstream body. The i-th chunk
    is stamped with the i-th clock reading, and the entry's time to first
    byte is the first chunk's delay (0 when nothing was written). *)
Theorem streamResponse_journals_what_was_written (env : StreamEnv) (status : Z)
        (hdr : Header) (body : string) (l : Logger) (sid provider : string)
        (seq startTime : Z) :
  exists w' l' cs timing,
    streamResponse env newResponseWriter status hdr body None (Some l) sid
                   provider seq startTime = Some (w', Some l', None)
    /\ calls l' =
       (calls l ++ [CallResponse sid provider seq status hdr "" (Some cs)
                                 timing ""])%list
    /\ map Raw cs = writes (rw_ops w')
    /\ joined (map Raw cs) = body
    /\ (forall i c, cs !! i = Some c ->
          Timestamp c = clock env i
          /\ DeltaMs c = (clock env i - clock_start env)%Z)
    /\ TTFBMs timing = match cs with c :: _ => DeltaMs c | [] => 0%Z end
    /\ TotalMs timing = (clock_end env - startTime)%Z.
Proof.
  destruct (streamResponse_EOF env status hdr body l sid provider seq startTime)
    as (w' & ls & Hrun & Hw & Hj).
  cbn zeta in Hrun. rewrite Hrun.
  eexists _, _, _, _. split; [reflexivity|].
  split; [reflexivity|].
  rewrite chunksFrom_Raw.
  split; [symmetry; exact Hw|]. split; [exact Hj|].
  split; [|split; reflexivity].
  intros i c Hc. apply (chunksFrom_lookup env (clock_start env) ls 0 i c Hc).
Qed.

(** X8. When reading the upstream body fails part-way, [streamResponse]
    returns the read error and journals nothing: the journal is the one
    it was given, although the bytes read before the failure have
    already been written to the client. *)
Theorem streamResponse_read_error_journals_nothing (env : StreamEnv) (status : Z)
        (hdr : Header) (body e : string) (lg : option Logger)
        (sid provider : string) (seq startTime : Z) :
  exists w',
    streamResponse env newResponseWriter status hdr body (Some e) lg sid
                   provider seq startTime = Some (w', lg, Some e)
    /\ client_body w' = body.
Proof.
  unfold streamResponse.
  set (sw0 := mkSW _ _ _ _ _ _).
  destruct (streamLoop_chunks (loopFuel body) env sw0 body (Some e))
    as (sw' & ls & Hrun & Hops & _ & Hj); [unfold loopFuel; lia|].
  rewrite Hrun. exists (sw_writer sw'). split; [reflexivity|].
  unfold client_body. rewrite Hops.
  subst sw0. cbn [sw_writer WriteHeader rw_ops rw_with_header newResponseWriter app].
  cbn [bodyOf foldr]. fold (bodyOf (lineOps ls)).
  rewrite bodyOf_lineOps. exact Hj.
Qed.

(** X9. With a clock that does not run backwards, the delays recorded in
    the chunks of a streamed response are non-negative and
    non-decreasing, and so is the time to first byte. *)
Theorem streamResponse_delays_ordered (env : StreamEnv) (status : Z)
        (hdr : Header) (body : string) (l : Logger) (sid provider : string)
        (seq startTime : Z)
        (Hstart : (clock_start env <= clock env 0)%Z)
        (Hmono : forall i j, (i <= j)%nat -> (clock env i <= clock env j)%Z) :
  exists w' l' cs timing,
    streamResponse env newResponseWriter status hdr body None (Some l) sid
                   provider seq startTime = Some (w', Some l', None)
    /\ last (calls l') =
       Some (CallResponse sid provider seq status hdr "" (Some cs) timing "")
    /\ (0 <= TTFBMs timing)%Z
    /\ forall i j ci cj,
         (i <= j)%nat -> cs !! i = Some ci -> cs !! j = Some cj ->
         (0 <= DeltaMs ci <= DeltaMs cj)%Z.
Proof.
  destruct (streamResponse_EOF env status hdr body l sid provider seq startTime)
    as (w' & ls & Hrun & Hw & Hj).
  cbn zeta in Hrun. rewrite Hrun.
  eexists _, _, _, _. split; [reflexivity|].
  split; [cbn [log snd calls]; apply last_snoc|].
  split.
  - cbn [TTFBMs]. destruct ls as [|x ls]; cbn; [lia|]. lia.
  - intros i j ci cj Hij Hi Hjj.
    destruct (chunksFrom_lookup env (clock_start env) ls 0 i ci Hi) as [_ Hdi].
    destruct (chunksFrom_lookup env (clock_start env) ls 0 j cj Hjj) as [_ Hdj].
    cbn [Nat.add] in Hdi, Hdj. rewrite Hdi, Hdj.
    pose proof (Hmono 0%nat i ltac:(lia)). pose proof (Hmono i j Hij). lia.
Qed.

Lemma streamResponse_delays_ordered_witness :
  exists w' l' cs timing,
    streamResponse Samples.streamEnv newResponseWriter 200 Samples.sseHeaders
                   Samples.sseBody None (Some (newLogger "m" Samples.quietDisk))
                   "s" "anthropic" 0 0 = Some (w', Some l', None)
    /\ last (calls l') =
       Some (CallResponse "s" "anthropic" 0 200 Samples.sseHeaders "" (Some cs)
                          timing "")
    /\ (0 <= TTFBMs timing)%Z
    /\ forall i j ci cj,
         (i <= j)%nat -> cs !! i = Some ci -> cs !! j = Some cj ->
         (0 <= DeltaMs ci <= DeltaMs cj)%Z.
Proof.
  apply (streamResponse_delays_ordered Samples.streamEnv 200 Samples.sseHeaders
           Samples.sseBody (newLogger "m" Samples.quietDisk) "s" "anthropic" 0 0).
  - cbn. lia.
  - intros i j Hij. cbn. lia.
Defined.

End StreamedJournal.

(** ** loki_exporter.go: configuration, bounds, retries, shutdown *)

Section ExporterFacts.

Import GoInt Loki.

Variable parseRFC3339Nano : string -> option Time.


Lemma Push_frame (now : Time) (e : LokiExporter) (entry : Entry) (provider : string) :
  let e' := Push parseRFC3339Nano now e entry provider in
  config e' = config e /\ batch e' = batch e
  /\ entriesSent e' = entriesSent e /\ entriesFailed e' = entriesFailed e
  /\ batchesSent e' = batchesSent e /\ attempts e' = attempts e
  /\ closeCalled e' = closeCalled e /\ workerDone e' = workerDone e.
Proof.
  cbv zeta. unfold Push.
  destruct (Z.of_nat (length (entryChan e)) <? BufferSize (config e))%Z;
    repeat split.
Qed.

Lemma step_bounds (e : LokiExporter) (a : Action) :
  (Z.of_nat (length (entryChan e)) <= BufferSize (config e))%Z ->
  (Z.of_nat (length (batch e)) < BatchSize (config e))%Z ->
  let e' := step parseRFC3339Nano e a in
  config e' = config e
  /\ (Z.of_nat (length (entryChan e')) <= BufferSize (config e))%Z
  /\ (Z.of_nat (length (batch e')) < BatchSize (config e))%Z.
Proof.
  intros Hq Hb. cbv zeta. destruct a as [now entry provider| |]; cbn [step].
  - destruct (Push_frame now e entry provider) as (Hc & Hbt & _).
    rewrite Hc, Hbt. split; [reflexivity|]. split; [|exact Hb].
    apply Push_bounded. exact Hq.
  - destruct (workerDone e); [repeat split; assumption|].
    unfold workerRecv. destruct (entryChan e) as [|entry q] eqn:Hchan;
      [rewrite Hchan; repeat split; assumption|].
    cbn [length] in Hq.
    destruct (BatchSize (config e) <=? _)%Z eqn:Hfull.
    + destruct (sendBatch_spec (with_chan e q) (batch e ++ [entry]))
        as (_ & Hc1 & _ & Hcf1 & _).
      cbn [with_batch config entryChan batch length].
      rewrite Hcf1, Hc1. cbn [with_chan config entryChan].
      repeat split; lia.
    + apply Z.leb_gt in Hfull.
      cbn [with_batch with_chan config entryChan batch].
      repeat split; lia.
  - destruct (workerDone e); [repeat split; assumption|].
    unfold workerTick. destruct (batch e) as [|le b] eqn:Hbatch;
      [rewrite Hbatch; repeat split; assumption|].
    destruct (sendBatch_spec e (le :: b)) as (_ & Hc1 & _ & Hcf1 & _).
    cbn [with_batch config entryChan batch length].
    rewrite Hcf1, Hc1. repeat split; lia.
Qed.

Lemma runActions_bounds (acts : list Action) (e : LokiExporter) :
  (Z.of_nat (length (entryChan e)) <= BufferSize (config e))%Z ->
  (Z.of_nat (length (batch e)) < BatchSize (config e))%Z ->
  let e' := runActions parseRFC3339Nano e acts in
  config e' = config e
  /\ (Z.of_nat (length (entryChan e')) <= BufferSize (config e))%Z
  /\ (Z.of_nat (length (batch e')) < BatchSize (config e))%Z.
Proof.
  revert e. induction acts as [|a acts IH]; intros e Hq Hb; cbv zeta.
  - repeat split; assumption.
  - unfold runActions. cbn [foldl]. fold (runActions parseRFC3339Nano).
    destruct (step_bounds e a Hq Hb) as (Hc & Hq1 & Hb1).
    rewrite <- Hc in Hq1, Hb1.
    destruct (IH _ Hq1 Hb1) as (Hc2 & Hq2 & Hb2).
    rewrite Hc in Hc2, Hq2, Hb2. repeat split; assumption.
Qed.

Lemma NewLokiExporter_positive (net : nat -> bool) (cfg : LokiExporterConfig)
      (e0 : LokiExporter) :
  NewLokiExporter net cfg = (Some e0, None) ->
  config e0 = applyDefaults cfg
  /\ (0 < BatchSize (applyDefaults cfg))%Z
  /\ (0 < BufferSize (applyDefaults cfg))%Z.
Proof.
  unfold NewLokiExporter. destruct (String.eqb (URL cfg) ""); [discriminate|].
  intros [= <-]. split; [reflexivity|].
  unfold applyDefaults. cbn [BatchSize BufferSize].
  destruct (Z.leb_spec (BatchSize cfg) 0), (Z.leb_spec (BufferSize cfg) 0); lia.
Qed.

(** X13. The exporter's memory is bounded. Starting from a new exporter,
    whatever is pushed and whenever the worker runs, the queue never
    holds more than [BufferSize] entries and the worker's batch always
    holds fewer than [BatchSize]; the configuration is never changed. *)
Theorem exporter_is_bounded (net : nat -> bool) (cfg : LokiExporterConfig)
        (e0 : LokiExporter) (acts : list Action)
        (Hnew : NewLokiExporter net cfg = (Some e0, None)) :
  let e := runActions parseRFC3339Nano e0 acts in
  config e = applyDefaults cfg
  /\ (Z.of_nat (length (entryChan e)) <= BufferSize (applyDefaults cfg))%Z
  /\ (Z.of_nat (length (batch e)) < BatchSize (applyDefaults cfg))%Z.
Proof.
  destruct (NewLokiExporter_positive net cfg e0 Hnew) as (_ & Hbs & Hbuf).
  unfold NewLokiExporter in Hnew.
  destruct (String.eqb (URL cfg) ""); [discriminate|].
  injection Hnew as <-.
  apply (runActions_bounds acts (mkExporter (applyDefaults cfg) [] [] 0 0 0 0 net 0
                                            false false)).
  - cbn [entryChan config length]. lia.
  - cbn [batch config length]. lia.
Qed.

Lemma countMarshalFailures_frame (entries : list lokiEntry) (e : LokiExporter) :
  let e' := countMarshalFailures e entries in
  attempts e' = attempts e /\ network e' = network e
  /\ batchesSent e' = batchesSent e /\ entriesSent e' = entriesSent e
  /\ config e' = config e.
Proof.
  cbv zeta. unfold countMarshalFailures.
  revert e. induction entries as [|le entries IH]; intros e; [repeat split|].
  cbn [foldl]. destruct (marshalsEntry (le_entry le)); [apply IH|].
  destruct (IH (with_counters e (entriesSent e) (add (entriesFailed e) 1)
                              (entriesDropped e) (batchesSent e) (attempts e)))
    as (H1 & H2 & H3 & H4 & H5).
  repeat split; assumption.
Qed.

(** The retry loop stops at the first call of [doSend] that succeeds. *)
Lemma trySend_attempts (n : nat) (e : LokiExporter) :
  exists k,
    attempts (snd (trySend n e)) = (attempts e + k)%nat
    /\ network (snd (trySend n e)) = network e
    /\ batchesSent (snd (trySend n e)) = batchesSent e
    /\ (if fst (trySend n e)
        then (0 < k <= n)%nat
             /\ network e (attempts e + k - 1)%nat = true
             /\ forall i, (i < k - 1)%nat -> network e (attempts e + i)%nat = false
        else k = n
             /\ forall i, (i < n)%nat -> network e (attempts e + i)%nat = false).
Proof.
  revert e. induction n as [|n IH]; intros e; cbn [trySend].
  - exists 0%nat. cbn [fst snd].
    split; [lia|]. split; [reflexivity|]. split; [reflexivity|].
    split; [reflexivity|]. intros i Hi. lia.
  - destruct (network e (attempts e)) eqn:Hnet.
    + exists 1%nat. cbn [fst snd attempts network batchesSent with_counters].
      split; [lia|]. split; [reflexivity|]. split; [reflexivity|].
      split; [lia|]. split.
      * replace (attempts e + 1 - 1)%nat with (attempts e) by lia. exact Hnet.
      * intros i Hi. lia.
    + set (e1 := with_counters _ _ _ _ _ _).
      destruct (IH e1) as (k & Ha & Hn & Hb & Hcase).
      exists (S k). rewrite Ha, Hn, Hb. subst e1.
      cbn [attempts network batchesSent with_counters] in *.
      split; [lia|]. split; [reflexivity|]. split; [reflexivity|].
      destruct (fst (trySend n _)).
      * destruct Hcase as (Hk & Hlast & Hbefore). split; [lia|]. split.
        -- replace (attempts e + S k - 1)%nat with (S (attempts e) + k - 1)%nat by lia.
           exact Hlast.
        -- intros i Hi. destruct i as [|i].
           ++ rewrite Nat.add_0_r. exact Hnet.
           ++ replace (attempts e + S i)%nat with (S (attempts e) + i)%nat by lia.
              apply Hbefore. lia.
      * destruct Hcase as (-> & Hall). split; [reflexivity|].
        intros i Hi. destruct i as [|i].
        -- rewrite Nat.add_0_r. exact Hnet.
        -- replace (attempts e + S i)%nat with (S (attempts e) + i)%nat by lia.
           apply Hall. lia.
Qed.

(** X14. [sendBatch] on a batch that is not empty calls [doSend] until
    one call succeeds, and at most [RetryMax + 1] times. If the k-th call
    is the first to succeed, it makes exactly k calls, counts the whole
    batch as sent and one more batch; if none of the [RetryMax + 1] calls
    succeeds, the batch count and the sent count stay as they were. *)
Theorem sendBatch_retries (e : LokiExporter) (le : lokiEntry)
        (rest : list lokiEntry) :
  let entries := le :: rest in
  let e' := sendBatch e entries in
  let n := Z.to_nat (RetryMax (config e) + 1) in
  exists k,
    attempts e' = (attempts e + k)%nat
    /\ (k <= n)%nat
    /\ ((0 < k)%nat
        /\ network e (attempts e + k - 1)%nat = true
        /\ (forall i, (i < k - 1)%nat -> network e (attempts e + i)%nat = false)
        /\ batchesSent e' = add (batchesSent e) 1
        /\ entriesSent e' = add (entriesSent e) (Z.of_nat (length entries))
        \/
        k = n
        /\ (forall i, (i < n)%nat -> network e (attempts e + i)%nat = false)
        /\ batchesSent e' = batchesSent e
        /\ entriesSent e' = entriesSent e).
Proof.
  cbv zeta. unfold sendBatch.
  set (entries := le :: rest).
  destruct (countMarshalFailures_frame entries e) as (Ha1 & Hn1 & Hb1 & Hs1 & Hc1).
  set (e1 := countMarshalFailures e entries) in *.
  destruct (trySend_attempts (Z.to_nat (RetryMax (config e1) + 1)) e1)
    as (k & Ha & Hn & Hb & Hcase).
  destruct (trySend_spec (Z.to_nat (RetryMax (config e1) + 1)) e1)
    as (_ & Hs & _).
  destruct (trySend _ e1) as [ok e2]. cbn [fst snd] in *.
  rewrite Hc1, Ha1, Hn1 in *. exists k.
  destruct ok; cbn [attempts batchesSent entriesSent with_counters].
  - destruct Hcase as (Hk & Hlast & Hbefore).
    split; [exact Ha|]. split; [lia|]. left.
    rewrite Hb, Hb1, Hs, Hs1. repeat split; try assumption. lia.
  - destruct Hcase as (-> & Hall).
    split; [exact Ha|]. split; [lia|]. right.
    rewrite Hb, Hb1, Hs, Hs1. repeat split; assumption.
Qed.

Lemma wrap64_in_range (z : Z) : in_range z -> wrap64 z = z.
Proof.
  unfold in_range, wrap64. intros H. rewrite Z.mod_small; lia.
Qed.

(** X15. Without overflow the delay before a retry doubles with each
    attempt, starting from [RetryWait], until it reaches ten seconds,
    where it stays: for attempt k it is the smaller of ten seconds and
    [RetryWait * 2^(k-1)]. *)
Theorem backoffDelay_capped_doubling (cfg : LokiExporterConfig) (attempt : Z)
        (Hattempt : (1 <= attempt)%Z)
        (Hwait : (0 < RetryWait cfg)%Z)
        (Hfits : (RetryWait cfg * 2 ^ (attempt - 1) < 2 ^ 63)%Z) :
  backoffDelay cfg attempt
  = Z.min (10 * second) (RetryWait cfg * 2 ^ (attempt - 1)).
Proof.
  unfold backoffDelay, shl64.
  assert (Hpow : (0 < 2 ^ (attempt - 1))%Z) by (apply Z.pow_pos_nonneg; lia).
  rewrite Z.mul_1_l.
  rewrite (wrap64_in_range (2 ^ (attempt - 1))) by (unfold in_range; nia).
  rewrite wrap64_in_range by (unfold in_range; nia).
  destruct (Z.ltb_spec (10 * second) (RetryWait cfg * 2 ^ (attempt - 1))); lia.
Qed.

Lemma backoffDelay_capped_doubling_witness :
  backoffDelay (applyDefaults Samples.lokiConfig) 3 = 400000000%Z
  /\ backoffDelay (applyDefaults Samples.lokiConfig) 9
     = Z.min (10 * second) (RetryWait (applyDefaults Samples.lokiConfig) * 2 ^ (9 - 1)).
Proof.
  split; [reflexivity|].
  apply (backoffDelay_capped_doubling (applyDefaults Samples.lokiConfig) 9).
  - lia.
  - reflexivity.
  - reflexivity.
Defined.

(** X16. From the 65th retry on there is no delay at all: the factor
    [1 << (attempt-1)] is computed on 64 bits and is zero once the shift
    count reaches 64, so the product with [RetryWait] is zero. *)
Theorem backoffDelay_vanishes (cfg : LokiExporterConfig) (attempt : Z)
        (Hattempt : (65 <= attempt)%Z) :
  backoffDelay cfg attempt = 0%Z.
Proof.
  unfold backoffDelay, shl64.
  assert (Hshift : wrap64 (1 * 2 ^ (attempt - 1)) = 0%Z).
  { unfold wrap64.
    replace (attempt - 1)%Z with (64 + (attempt - 65))%Z by lia.
    rewrite Z.pow_add_r by lia. rewrite Z.mul_1_l.
    rewrite Z.add_comm, (Z.mul_comm (2 ^ 64)), Z_mod_plus_full.
    reflexivity. }
  rewrite Hshift, Z.mul_0_r. reflexivity.
Qed.

Lemma backoffDelay_vanishes_witness :
  backoffDelay (applyDefaults Samples.lokiConfig) 65 = 0%Z.
Proof.
  apply (backoffDelay_vanishes (applyDefaults Samples.lokiConfig) 65). lia.
Defined.

End ExporterFacts.

(** ** loki_exporter.go: shutdown *)

Section ExporterShutdown.

Import GoInt Loki.

Variable parseRFC3339Nano : string -> option Time.




Lemma workerShutdown_drains (e : LokiExporter) :
  let e' := workerShutdown e in
  entryChan e' = [] /\ batch e' = (batch e ++ entryChan e)%list
  /\ config e' = config e /\ workerDone e' = true
  /\ closeCalled e' = closeCalled e.
Proof.
  cbv zeta. unfold workerShutdown.
  set (b := (batch e ++ entryChan e)%list).
  destruct b as [|le b'] eqn:Hb.
  - cbn. rewrite <- Hb. repeat split.
  - destruct (sendBatch_spec (with_batch (with_chan e []) (le :: b')) (le :: b'))
      as (_ & Hc & Hbt & Hcf & Hcc & _).
    cbn [with_flags entryChan batch config workerDone closeCalled].
    rewrite Hc, Hbt, Hcf, Hcc. repeat split.
Qed.



(** X17. [Close] on a running exporter waits for the worker, which
    takes everything that is still queued into its last batch and sends
    it: when [Close] returns without timeout the queue is empty and
    everything queued or batched has been handed to [sendBatch]. Calling
    [Close] again does nothing and returns no error, whether or not the
    second call would have timed out. *)
Theorem Close_drains_and_is_idempotent (net : nat -> bool)
        (cfg : LokiExporterConfig) (e0 : LokiExporter) (acts : list Action)
        (Hnew : NewLokiExporter net cfg = (Some e0, None)) :
  let e := runActions parseRFC3339Nano e0 acts in
  let e' := snd (Close false e) in
  fst (Close false e) = None
  /\ entryChan e' = []
  /\ batch e' = (batch e ++ entryChan e)%list
  /\ e' = with_flags (workerShutdown e) true true
  /\ forall timedOut, Close timedOut e' = (None, e').
Proof.
  cbv zeta.
  destruct (runActions_balance parseRFC3339Nano acts e0) as (_ & Hcc & Hwd).
  assert (Hflags : closeCalled e0 = false /\ workerDone e0 = false).
  { unfold NewLokiExporter in Hnew.
    destruct (String.eqb (URL cfg) ""); [discriminate|].
    injection Hnew as <-. split; reflexivity. }
  destruct Hflags as [Hcc0 Hwd0]. rewrite Hcc0 in Hcc. rewrite Hwd0 in Hwd.
  set (e := runActions parseRFC3339Nano e0 acts) in *.
  assert (Hclose : Close false e = (None, with_flags (workerShutdown e) true true)).
  { unfold Close. rewrite Hcc, Hwd. reflexivity. }
  rewrite Hclose. cbn [fst snd].
  destruct (workerShutdown_drains e) as (Hq & Hb & _).
  cbn [entryChan batch with_flags].
  split; [reflexivity|]. split; [exact Hq|]. split; [exact Hb|].
  split; [reflexivity|].
  intros timedOut. reflexivity.
Qed.


End ExporterShutdown.

(** ** multi_writer.go: the labels of what is pushed *)

Section FanOutLabels.

Import HTTP Journal Loki MultiWriter.

Variable parseRFC3339Nano : string -> option Time.
Variable ts : string.
Variable now : Time.

Lemma metaMap_machine (machine host session : string) (rid : option string) :
  metaMap ts machine host session rid !! "machine" = Some (VString machine).
Proof.
  unfold metaMap. destruct rid.
  - rewrite lookup_insert_ne by (intros H; discriminate H).
    rewrite lookup_insert_ne by (intros H; discriminate H).
    apply lookup_insert_eq.
  - rewrite lookup_insert_ne by (intros H; discriminate H).
    apply lookup_insert_eq.
Qed.

Lemma metaMap_ts (machine host session : string) (rid : option string) :
  metaMap ts machine host session rid !! "ts" = Some (VString ts).
Proof.
  unfold metaMap. destruct rid.
  - rewrite lookup_insert_ne by (intros H; discriminate H).
    apply lookup_insert_eq.
  - apply lookup_insert_eq.
Qed.

(** The [type] and [_meta] fields of the entry each log method builds. *)
Lemma entryOf_fields (m : MultiWriter) (c : LogCall) :
  exists host session rid,
    entryOf ts m c !! "_meta"
    = Some (VMap (metaMap ts (machineID (file m)) host session rid))
    /\ entryOf ts m c !! "type"
       = Some (VString match c with
                       | CallSessionStart _ _ _ => "session_start"
                       | CallRequest _ _ _ _ _ _ _ _ => "request"
                       | CallResponse _ _ _ _ _ _ _ _ _ => "response"
                       | CallFork _ _ _ _ => "fork"
                       end).
Proof.
  destruct c as [sid provider upstream
                |sid provider seq method path headers body rid
                |sid provider seq status headers body chunks timing rid
                |sid provider fromSeq parent]; cbn [entryOf].
  - exists upstream, sid, None. unfold sessionStartEntry.
    split; [|apply lookup_insert_eq].
    repeat (rewrite lookup_insert_ne by (intros H; discriminate H)).
    apply lookup_insert_eq.
  - exists (default "" (upstreams (file m) !! sid)), sid, (Some rid).
    unfold requestEntry. cbv zeta.
    split; [|apply lookup_insert_eq].
    repeat (rewrite lookup_insert_ne by (intros H; discriminate H)).
    apply lookup_insert_eq.
  - exists (default "" (upstreams (file m) !! sid)), sid, (Some rid).
    unfold responseEntry. cbv zeta.
    destruct chunks.
    + rewrite !(lookup_insert_ne _ "chunks") by (intros H; discriminate H).
      split; [|apply lookup_insert_eq].
      repeat (rewrite lookup_insert_ne by (intros H; discriminate H)).
      apply lookup_insert_eq.
    + rewrite !(lookup_insert_ne _ "body") by (intros H; discriminate H).
      split; [|apply lookup_insert_eq].
      repeat (rewrite lookup_insert_ne by (intros H; discriminate H)).
      apply lookup_insert_eq.
  - exists (default "" (upstreams (file m) !! sid)), sid, None.
    unfold forkEntry. cbv zeta.
    split; [|apply lookup_insert_eq].
    repeat (rewrite lookup_insert_ne by (intros H; discriminate H)).
    apply lookup_insert_eq.
Qed.

(** X19. What a log method of the fan-out writer queues on an exporter
    with room is never labelled "unknown": the queued entry carries the
    provider the caller passed, the machine id of the file logger, the
    log type [session_start], [request], [response] or [fork] of the
    method called, and as its time the writer's own timestamp (the
    current time if that does not parse). *)
Theorem MultiWriter_labels (m : MultiWriter) (c : LogCall) (e : LokiExporter)
        (Hloki : loki m = Some e)
        (Hroom : (Z.of_nat (length (entryChan e)) < BufferSize (config e))%Z) :
  let m' := snd (logVia parseRFC3339Nano ts now m c) in
  exists e' queued,
    loki m' = Some e'
    /\ entryChan e' = (entryChan e ++ [queued])%list
    /\ le_entry queued = entryOf ts m' c
    /\ le_provider queued = providerOf c
    /\ le_machine queued = machineID (file m)
    /\ le_logType queued = match c with
                           | CallSessionStart _ _ _ => "session_start"
                           | CallRequest _ _ _ _ _ _ _ _ => "request"
                           | CallResponse _ _ _ _ _ _ _ _ _ => "response"
                           | CallFork _ _ _ _ => "fork"
                           end
    /\ le_timestamp queued = default now (parseRFC3339Nano ts).
Proof.
  cbv zeta. rewrite logVia_unfold. cbn [snd].
  unfold callFile, log. cbn [snd]. unfold pushLoki. cbn [loki file].
  rewrite Hloki. cbn [loki file].
  set (m1 := mkMW _ _ _).
  destruct (entryOf_fields m1 c) as (host & session & rid & Hmeta & Htype).
  unfold Push. apply Z.ltb_lt in Hroom. rewrite Hroom.
  eexists _, _. split; [reflexivity|]. cbn [entryChan with_chan].
  split; [reflexivity|].
  cbn [le_entry le_provider le_machine le_logType le_timestamp].
  split; [reflexivity|]. split; [reflexivity|].
  unfold extractMachine, extractLogType, extractTimestamp, metaOf, stringAt.
  rewrite Hmeta, Htype, metaMap_machine, metaMap_ts.
  split; [reflexivity|]. split; [reflexivity|].
  destruct (parseRFC3339Nano ts); reflexivity.
Qed.

End FanOutLabels.

(** ** Instances *)

Section Instances.

Import GoInt HTTP Journal Loki.

Lemma exporter_accounting_witness :
  NewLokiExporter Samples.netUp Samples.lokiConfig
  = (Some (Samples.exporter Samples.netUp), None)
  /\ cong64 (accounted (snd (Close false
               (runActions Samples.noParse (Samples.exporter Samples.netUp)
                           Samples.lokiRun))))
            (Z.of_nat (pushCount Samples.lokiRun)
             + Z.of_nat (unmarshalable
                           (accepted Samples.noParse
                                     (Samples.exporter Samples.netUp)
                                     Samples.lokiRun))).
Proof.
  split; [reflexivity|].
  apply (exporter_accounting Samples.noParse Samples.netUp Samples.lokiConfig).
  reflexivity.
Defined.

Lemma exporter_accounting_marshalable_witness :
  NewLokiExporter Samples.netUp Samples.lokiConfig
  = (Some (Samples.exporter Samples.netUp), None)
  /\ forallb marshalsEntry (pushedEntries Samples.goodRun) = true
  /\ cong64 (accounted (snd (Close false
               (runActions Samples.noParse (Samples.exporter Samples.netUp)
                           Samples.goodRun))))
            (Z.of_nat (pushCount Samples.goodRun)).
Proof.
  split; [reflexivity|]. split; [reflexivity|].
  apply (exporter_accounting_marshalable Samples.noParse Samples.netUp
                                         Samples.lokiConfig).
  - reflexivity.
  - reflexivity.
Defined.

Lemma exporter_is_bounded_witness :
  NewLokiExporter Samples.netUp Samples.lokiConfig
  = (Some (Samples.exporter Samples.netUp), None)
  /\ (Z.of_nat (length (entryChan (runActions Samples.noParse
                                     (Samples.exporter Samples.netUp)
                                     Samples.lokiRun)))
      <= BufferSize (applyDefaults Samples.lokiConfig))%Z.
Proof.
  split; [reflexivity|].
  apply (exporter_is_bounded Samples.noParse Samples.netUp Samples.lokiConfig
                             (Samples.exporter Samples.netUp) Samples.lokiRun).
  reflexivity.
Defined.

Lemma Close_drains_and_is_idempotent_witness :
  NewLokiExporter Samples.netUp Samples.lokiConfig
  = (Some (Samples.exporter Samples.netUp), None)
  /\ entryChan (snd (Close false (runActions Samples.noParse
                                    (Samples.exporter Samples.netUp)
                                    Samples.lokiRun))) = [].
Proof.
  split; [reflexivity|].
  apply (Close_drains_and_is_idempotent Samples.noParse Samples.netUp
           Samples.lokiConfig (Samples.exporter Samples.netUp) Samples.lokiRun).
  reflexivity.
Defined.


Lemma MultiWriter_labels_witness :
  MultiWriter.loki Samples.failingWriter = Some (Samples.exporter Samples.netUp)
  /\ (Z.of_nat (length (entryChan (Samples.exporter Samples.netUp)))
      < BufferSize (config (Samples.exporter Samples.netUp)))%Z
  /\ exists e' queued,
       MultiWriter.loki
         (snd (MultiWriter.logVia Samples.noParse "2026-01-13T10:15:00Z" 7
                                  Samples.failingWriter Samples.requestCall))
       = Some e'
       /\ entryChan e' = (entryChan (Samples.exporter Samples.netUp) ++ [queued])%list
       /\ le_logType queued = "request"
       /\ le_machine queued = "user@host".
Proof.
  split; [reflexivity|]. split; [reflexivity|].
  destruct (MultiWriter_labels Samples.noParse "2026-01-13T10:15:00Z" 7
              Samples.failingWriter Samples.requestCall
              (Samples.exporter Samples.netUp) eq_refl eq_refl)
    as (e' & queued & H1 & H2 & _ & _ & H5 & H6 & _).
  exists e', queued. repeat split; assumption.
Defined.

End Instances.

(** ** session.go: tool streaks over a session *)

Section PatternRuns.

Import GoInt Session.

Lemma patternRun_snoc (st : PatternState) (turns : list (bool * string))
      (turn : bool * string) :
  patternRun st (turns ++ [turn])
  = snd (ComputePatterns (set_last_was_error (patternRun st turns) (fst turn))
                         (snd turn)).
Proof. unfold patternRun. rewrite foldl_app. reflexivity. Qed.

Lemma trailingRun_snoc (names : list string) (t : string) :
  trailingRun (names ++ [t])
  = if String.eqb t "" then O else S (countWhile t (rev names)).
Proof. unfold trailingRun. rewrite rev_app_distr. reflexivity. Qed.

Lemma incr_wrap64 (z : Z) : incr (wrap64 z) = wrap64 (z + 1).
Proof. apply (add_wrap64 z 1). Qed.

(** The streak is the trailing run of the tool named last; no other
    tool has a trailing run. *)
Lemma patternRun_streak (turns : list (bool * string)) :
  let st := patternRun defaultPatternState turns in
  let names := map snd turns in
  ToolStreak st = wrap64 (Z.of_nat (trailingRun names))
  /\ forall t, t <> "" ->
       if String.eqb t (LastToolName st)
       then wrap64 (Z.of_nat (countWhile t (rev names))) = ToolStreak st
       else countWhile t (rev names) = O.
Proof.
  induction turns as [|[err name] turns IH] using rev_ind; cbv zeta.
  - split; [reflexivity|]. intros t Ht. cbn.
    apply String.eqb_neq in Ht. rewrite Ht. reflexivity.
  - cbv zeta in IH. destruct IH as [Hstreak Hrun].
    rewrite patternRun_snoc, map_app. cbn [map fst snd].
    rewrite trailingRun_snoc, rev_app_distr. cbn [rev app].
    set (st := patternRun defaultPatternState turns) in *.
    unfold ComputePatterns.
    cbn [LastToolName ToolStreak set_last_was_error LastWasError].
    destruct (String.eqb name "") eqn:Hname.
    + cbn [snd ToolStreak LastToolName set_streak_retry]. split; [reflexivity|].
      intros t Ht. cbn [countWhile].
      apply String.eqb_eq in Hname. subst name.
      rewrite (String.eqb_sym "" t). apply String.eqb_neq in Ht. rewrite Ht.
      change (LastToolName (set_last_was_error st err)) with (LastToolName st).
      destruct (String.eqb t (LastToolName st)); reflexivity.
    + cbn [snd ToolStreak LastToolName set_streak_retry set_last_tool].
      assert (Hnew : (if String.eqb name (LastToolName st)
                      then incr (ToolStreak st) else 1%Z)
                     = wrap64 (Z.of_nat (S (countWhile name (rev (map snd turns)))))).
      { apply String.eqb_neq in Hname. specialize (Hrun name Hname).
        destruct (String.eqb name (LastToolName st)).
        - rewrite <- Hrun, incr_wrap64. apply (f_equal wrap64). lia.
        - rewrite Hrun. reflexivity. }
      split; [exact Hnew|].
      intros t Ht. cbn [countWhile]. rewrite (String.eqb_sym t name).
      destruct (String.eqb name t) eqn:Heq.
      * apply String.eqb_eq in Heq. subst t. symmetry. exact Hnew.
      * reflexivity.
Qed.

(** X20. Over a session that starts in the default state, whatever the
    error flags were, the tool streak after a response is the length of
    the run of equal first tool names that ends with this response (as a
    64-bit integer), and 0 after a response without tool; a response
    without tool in between starts the count again. *)
Theorem ToolStreak_is_trailing_run (turns : list (bool * string)) :
  ToolStreak (patternRun defaultPatternState turns)
  = wrap64 (Z.of_nat (trailingRun (map snd turns))).
Proof.
  destruct (patternRun_streak turns) as [Hstreak _]. exact Hstreak.
Qed.

(** X21. As long as a session has fewer than 2^63 responses, the retry
    count never exceeds the tool streak, neither is negative, and the
    streak never exceeds the number of responses. *)
Theorem RetryCount_within_ToolStreak (turns : list (bool * string))
        (Hlen : (Z.of_nat (length turns) < 2 ^ 63)%Z) :
  let st := patternRun defaultPatternState turns in
  (0 <= RetryCount st <= ToolStreak st)%Z
  /\ (ToolStreak st <= Z.of_nat (length turns))%Z.
Proof.
  revert Hlen. induction turns as [|[err name] turns IH] using rev_ind; intros Hlen; cbv zeta.
  - cbn. lia.
  - rewrite length_app in *. cbn [length] in *.
    destruct (IH ltac:(lia)) as [Hretry Hstreak].
    rewrite patternRun_snoc. cbn [fst snd].
    set (st := patternRun defaultPatternState turns) in *.
    unfold ComputePatterns.
    cbn [LastToolName ToolStreak RetryCount set_last_was_error LastWasError].
    destruct (String.eqb name ""); cbn [snd ToolStreak RetryCount set_streak_retry
                                          set_last_tool]; [lia|].
    unfold incr.
    rewrite (wrap64_in_range (ToolStreak st + 1)) by (unfold in_range; lia).
    destruct (String.eqb name (LastToolName st)); cbn [andb].
    + destruct err.
      * rewrite (wrap64_in_range (RetryCount st + 1)) by (unfold in_range; lia). lia.
      * lia.
    + lia.
Qed.


Lemma RetryCount_within_ToolStreak_witness :
  (Z.of_nat (length Samples.toolTurns) < 2 ^ 63)%Z
  /\ (0 <= RetryCount (patternRun defaultPatternState Samples.toolTurns)
      <= ToolStreak (patternRun defaultPatternState Samples.toolTurns))%Z.
Proof.
  split; [reflexivity|].
  apply (RetryCount_within_ToolStreak Samples.toolTurns). reflexivity.
Defined.

End PatternRuns.

(** ** obfuscate.go: what obfuscation keeps and what it settles to *)

Section ObfuscationFacts.

Import GoStrings HTTP Obfuscate.

Lemma starts_with_hyphen_append (a b : string) :
  a <> "" -> starts_with_hyphen (a ++ b) = starts_with_hyphen a.
Proof. destruct a as [|c a]; [congruence|]. intros _. reflexivity. Qed.

Lemma first_hyphen_starts (key : string) (idx : nat) :
  first_hyphen key = Some (S idx) -> starts_with_hyphen key = false.
Proof.
  destruct key as [|c key]; [discriminate|]. cbn.
  destruct (Ascii.eqb c hyphen); [discriminate|reflexivity].
Qed.

(** The prefix [extractPrefix] returns is empty, or has at least two
    bytes and does not begin with a hyphen. *)
Lemma extractPrefix_shape (key : string) :
  extractPrefix key = ""
  \/ ((2 <= String.length (extractPrefix key))%nat
      /\ starts_with_hyphen (extractPrefix key) = false).
Proof.
  unfold extractPrefix.
  destruct (find (HasPrefix key) prefixes) as [q|] eqn:Hfind.
  - right. destruct (find_prefixes_Some key q "" Hfind) as [-> _].
    unfold prefixes in Hfind. cbn [find] in Hfind.
    destruct (HasPrefix key "sk-ant-api03-");
      [injection Hfind as <-; split; [cbn; lia|reflexivity]|].
    destruct (HasPrefix key "sk-ant-");
      [injection Hfind as <-; split; [cbn; lia|reflexivity]|].
    destruct (HasPrefix key "sk-proj-");
      [injection Hfind as <-; split; [cbn; lia|reflexivity]|].
    destruct (HasPrefix key "sk-");
      [injection Hfind as <-; split; [cbn; lia|reflexivity]|discriminate].
  - rewrite Index_hyphen.
    destruct (first_hyphen key) as [[|idx]|] eqn:Hidx; cbn [Z.ltb Z.compare Z.of_nat];
      [left; reflexivity| |left; reflexivity].
    right.
    assert (Hpos : (0 <? Z.of_nat (S idx))%Z = true) by (apply Z.ltb_lt; lia).
    rewrite Hpos.
    replace (Z.to_nat (Z.of_nat (S idx)) + 1)%nat with (S (S idx)) by lia.
    destruct (first_hyphen_take key "" (S idx) Hidx) as [_ Hlen].
    split; [rewrite Hlen; lia|].
    destruct key as [|c key]; [discriminate|].
    cbn in Hidx |- *.
    destruct (Ascii.eqb c hyphen); [discriminate|reflexivity].
Qed.

(** Whatever the key, its obfuscated form is a key on which obfuscation
    changes nothing more. *)
Lemma ObfuscateAPIKey_stable (key : string) :
  stableKey (ObfuscateAPIKey key) = true.
Proof.
  unfold ObfuscateAPIKey.
  destruct (String.eqb key "") eqn:Hempty; [reflexivity|].
  set (suffix := if (4 <? String.length key)%nat then _ else _).
  assert (Hsuffix : suffix = "" \/ String.length suffix = 4%nat).
  { subst suffix. destruct (Nat.ltb_spec 4 (String.length key)); [right|left; reflexivity].
    rewrite string_length_drop. lia. }
  unfold stableKey. rewrite eqb_append_dots. cbn [orb].
  destruct (extractPrefix_shape key) as [-> | [Hlen Hstart]].
  - rewrite append_nil_l. destruct Hsuffix as [-> | Hfour].
    + reflexivity.
    + apply orb_true_iff. right.
      rewrite length_append, Hfour. reflexivity.
  - apply orb_true_iff. right. apply andb_true_iff. split.
    + apply Nat.ltb_lt. rewrite !length_append. cbn [String.length]. lia.
    + rewrite starts_with_hyphen_append, Hstart; [reflexivity|].
      intros Hnil. rewrite Hnil in Hlen. cbn in Hlen. lia.
Qed.

Lemma obfuscateHeaderValue_stable (value : string) :
  stableValue (obfuscateHeaderValue value) = true.
Proof.
  unfold stableValue, keyOf, obfuscateHeaderValue.
  destruct (HasPrefix value "Bearer ") eqn:Hb.
  - unfold HasPrefix, TrimPrefix, HasPrefix. rewrite prefix_append.
    rewrite (string_drop_append "Bearer "). apply ObfuscateAPIKey_stable.
  - rewrite (ObfuscateAPIKey_not_Bearer value Hb). apply ObfuscateAPIKey_stable.
Qed.

(** X22. Obfuscation settles after two applications at the latest: for
    every key, every header value and every header map, obfuscating an
    obfuscated form a second time gives a form that no further
    obfuscation changes. *)
Theorem obfuscation_settles_after_two (key : string) (h : Header) :
  ObfuscateAPIKey (ObfuscateAPIKey (ObfuscateAPIKey key))
  = ObfuscateAPIKey (ObfuscateAPIKey key)
  /\ ObfuscateHeaders (ObfuscateHeaders (ObfuscateHeaders h))
     = ObfuscateHeaders (ObfuscateHeaders h).
Proof.
  split.
  - apply ObfuscateAPIKey_idempotent, ObfuscateAPIKey_stable.
  - apply map_eq. intros k. rewrite !ObfuscateHeaders_lookup.
    destruct (h !! k) as [vs|]; [|reflexivity].
    cbn [fmap option_fmap option_map]. f_equal.
    apply newValues_idempotent. intros Hapi.
    unfold newValues. rewrite Hapi. apply forallb_forall.
    intros v Hv. apply in_map_iff in Hv as (v0 & <- & _).
    apply obfuscateHeaderValue_stable.
Qed.


Lemma first_hyphen_append (a b : string) :
  has_hyphen a = false ->
  first_hyphen (a ++ String hyphen b) = Some (String.length a).
Proof.
  induction a as [|x a IH]; intros Ha.
  - reflexivity.
  - cbn in Ha. apply orb_false_iff in Ha as [Hx Ha].
    rewrite append_cons. cbn [first_hyphen String.length].
    rewrite Hx, (IH Ha). reflexivity.
Qed.

Lemma no_sk_prefix (a b : string) :
  has_hyphen a = false -> a <> "sk" ->
  HasPrefix (a ++ String hyphen b) "sk-" = false.
Proof.
  intros Ha Hsk. unfold HasPrefix.
  destruct a as [|c1 a]; [reflexivity|].
  rewrite append_cons. change "sk-" with (String "s"%char "k-"). rewrite prefix_cons.
  destruct (Ascii.eqb "s"%char c1) eqn:H1; [|reflexivity].
  apply Ascii.eqb_eq in H1. subst c1.
  destruct a as [|c2 a]; [reflexivity|].
  rewrite append_cons. change "k-" with (String "k"%char "-"). rewrite prefix_cons.
  destruct (Ascii.eqb "k"%char c2) eqn:H2; [|reflexivity].
  apply Ascii.eqb_eq in H2. subst c2.
  destruct a as [|c3 a]; [congruence|].
  rewrite append_cons. change "-" with (String hyphen ""). rewrite prefix_cons.
  cbn in Ha. rewrite (Ascii.eqb_sym hyphen c3).
  destruct (Ascii.eqb c3 hyphen); [discriminate|reflexivity].
Qed.

(** X24. A key that does not begin with [sk-] and whose first hyphen is
    not its first byte keeps its whole first segment in the clear: the
    obfuscated form is the key up to and including the first hyphen,
    three dots, and the last four bytes of the key (nothing after the
    dots when the key has at most four bytes). *)
Theorem ObfuscateAPIKey_discloses_first_segment (a b : string)
        (Hne : a <> "") (Hsk : a <> "sk") (Hh : has_hyphen a = false) :
  let key := a ++ "-" ++ b in
  extractPrefix key = a ++ "-"
  /\ ObfuscateAPIKey key
     = a ++ "-" ++ "..."
         ++ (if (4 <? String.length key)%nat
             then drop (String.length key - 4) key else "").
Proof.
  cbv zeta. change ("-" ++ b) with (String hyphen b).
  assert (Hpre : extractPrefix (a ++ String hyphen b) = a ++ "-").
  { unfold extractPrefix.
    assert (Hnone : find (HasPrefix (a ++ String hyphen b)) prefixes = None)
      by (apply find_prefixes_None, no_sk_prefix; assumption).
    rewrite Hnone, Index_hyphen, (first_hyphen_append a b Hh).
    assert (Hpos : (0 <? Z.of_nat (String.length a))%Z = true).
    { apply Z.ltb_lt. destruct a; [congruence|]. cbn [String.length]. lia. }
    rewrite Hpos, Nat2Z.id.
    replace (String.length a + 1)%nat with (String.length (a ++ "-"))
      by (rewrite length_append; reflexivity).
    replace (a ++ String hyphen b) with ((a ++ "-") ++ b)
      by (rewrite append_assoc; reflexivity).
    apply string_take_append. }
  split; [exact Hpre|].
  unfold ObfuscateAPIKey. rewrite Hpre.
  assert (Hnonempty : String.eqb (a ++ String hyphen b) "" = false).
  { apply String.eqb_neq. destruct a; [congruence|]. rewrite append_cons. discriminate. }
  rewrite Hnonempty, append_assoc. reflexivity.
Qed.

Lemma ObfuscateAPIKey_discloses_first_segment_witness :
  "hunter2" <> "" /\ "hunter2" <> "sk" /\ has_hyphen "hunter2" = false
  /\ ObfuscateAPIKey ("hunter2" ++ "-" ++ "x")
     = "hunter2" ++ "-" ++ "..."
         ++ (if (4 <? String.length ("hunter2" ++ "-" ++ "x"))%nat
             then drop (String.length ("hunter2" ++ "-" ++ "x") - 4)
                       ("hunter2" ++ "-" ++ "x")
             else "").
Proof.
  split; [discriminate|]. split; [discriminate|]. split; [reflexivity|].
  apply (ObfuscateAPIKey_discloses_first_segment "hunter2" "x").
  - discriminate.
  - discriminate.
  - reflexivity.
Defined.

End ObfuscationFacts.

(** ** logger.go: the journal files *)

Section FileLoggerFacts.

Import GoStrings HTTP Journal Loki FileLogger.

Variable jsonMarshal : Entry -> string + string.
Variable ts : string.

Lemma logCall_unfold (os : Os) (l : Logger) (d : Disk) (c : Call) :
  logCall jsonMarshal ts os l d c
  = writeEntry jsonMarshal os l d (fst (sessionOf c)) (snd (sessionOf c))
               (entryOfCall ts c).
Proof. destruct c; reflexivity. Qed.

Lemma created_lookup (d : Disk) (path p : string) :
  default "" (created d path !! p) = default "" (d !! p)
  /\ (is_Some (d !! p) -> is_Some (created d path !! p))
  /\ (p <> path -> created d path !! p = d !! p)
  /\ is_Some (created d path !! path).
Proof.
  unfold created. destruct (d !! path) as [x|] eqn:Hpath.
  - repeat split; try tauto. rewrite Hpath. eexists; reflexivity.
  - destruct (decide (p = path)) as [->|Hne].
    + rewrite lookup_insert_eq, Hpath. repeat split; try tauto.
      * intros [y Hy]. discriminate.
      * eexists; reflexivity.
    + rewrite lookup_insert_ne by congruence. repeat split; try tauto.
      rewrite lookup_insert_eq. eexists; reflexivity.
Qed.

Lemma appended_lookup (d : Disk) (path data p : string) :
  appended d path data !! p
  = if decide (p = path) then Some (default "" (d !! path) ++ data) else d !! p.
Proof.
  unfold appended. destruct (decide (p = path)) as [->|Hne].
  - apply lookup_insert_eq.
  - apply lookup_insert_ne. congruence.
Qed.

Lemma pathOfSession_key (l : Logger) (sessionID provider : string) :
  pathOfSession l sessionID provider
  = baseDir l ++ "/" ++ keyOfSession sessionID provider ++ ".jsonl".
Proof.
  unfold pathOfSession, Join2, keyOfSession. rewrite !append_assoc. reflexivity.
Qed.

(** What [getFile] returns and leaves behind. *)
Lemma getFile_spec (os : Os) (l : Logger) (d : Disk) (sessionID provider : string) :
  let key := keyOfSession sessionID provider in
  let path := pathOfSession l sessionID provider in
  match files l ≫= (fun fs => fs !! key) with
  | Some stored =>
      getFile os l d sessionID provider = (GotFile stored, l, d)
  | None =>
      match os_mkdirErr os, os_openErr os with
      | Some e, _ => getFile os l d sessionID provider = (GetErr e, l, d)
      | None, Some e => getFile os l d sessionID provider = (GetErr e, l, d)
      | None, None =>
          match files l with
          | None =>
              getFile os l d sessionID provider = (GetPanic, l, created d path)
          | Some fs =>
              getFile os l d sessionID provider
              = (GotFile path, mkLogger (baseDir l) (Some (<[key := path]> fs)),
                 created d path)
          end
      end
  end.
Proof.
  cbv zeta. unfold getFile.
  destruct (files l ≫= _) as [stored|]; [reflexivity|].
  destruct (os_mkdirErr os); [reflexivity|].
  destruct (os_openErr os); [reflexivity|].
  destruct (files l); reflexivity.
Qed.

(** X25. The journal files are append-only. Whatever a log method is
    called with and however the call ends (nil, an error from the
    directory, the file, the serializer or the write, or a panic), it
    changes at most one file of the disk; what that file held before is
    still there, in front of what was added; and no file is removed. *)
Theorem logCall_only_appends (os : Os) (l : Logger) (d : Disk) (c : Call) :
  let d' := snd (logCall jsonMarshal ts os l d c) in
  exists path,
    (forall p, p <> path -> d' !! p = d !! p)
    /\ (exists added, default "" (d' !! path) = default "" (d !! path) ++ added)
    /\ (is_Some (d !! path) -> is_Some (d' !! path)).
Proof.
  cbv zeta. rewrite logCall_unfold.
  set (sid := fst (sessionOf c)). set (provider := snd (sessionOf c)).
  set (entry := entryOfCall ts c). clearbody sid provider entry.
  unfold writeEntry.
  pose proof (getFile_spec os l d sid provider) as Hget. cbv zeta in Hget.
  set (path0 := pathOfSession l sid provider) in *.
  assert (Hsame : exists path,
             (forall p, p <> path -> d !! p = d !! p)
             /\ (exists added, default "" (d !! path) = default "" (d !! path) ++ added)
             /\ (is_Some (d !! path) -> is_Some (d !! path))).
  { exists path0. split; [reflexivity|]. split; [|tauto].
    exists "". rewrite append_nil_r. reflexivity. }
  assert (Hcreated : exists path,
             (forall p, p <> path -> created d path0 !! p = d !! p)
             /\ (exists added, default "" (created d path0 !! path)
                               = default "" (d !! path) ++ added)
             /\ (is_Some (d !! path) -> is_Some (created d path0 !! path))).
  { exists path0. destruct (created_lookup d path0 path0) as (Hdef & Hsome & _).
    split; [intros p Hp; apply (created_lookup d path0 p), Hp|].
    split; [|exact Hsome]. exists "". rewrite append_nil_r. exact Hdef. }
  assert (Happ : forall d1 path data,
             (forall p, default "" (d1 !! p) = default "" (d !! p)) ->
             (forall p, p <> path -> d1 !! p = d !! p) ->
             exists path',
               (forall p, p <> path' -> appended d1 path data !! p = d !! p)
               /\ (exists added, default "" (appended d1 path data !! path')
                                 = default "" (d !! path') ++ added)
               /\ (is_Some (d !! path') -> is_Some (appended d1 path data !! path'))).
  { intros d1 path data Hdef Hframe. exists path.
    split; [|split].
    - intros p Hp. rewrite appended_lookup.
      destruct (decide (p = path)); [contradiction|]. apply Hframe, Hp.
    - exists data. rewrite appended_lookup.
      destruct (decide (path = path)); [|contradiction]. cbn [default].
      rewrite Hdef. reflexivity.
    - intros _. rewrite appended_lookup.
      destruct (decide (path = path)); [|contradiction]. eexists; reflexivity. }
  destruct (files l ≫= _) as [stored|] eqn:Hstored.
  - rewrite Hget.
    destruct (jsonMarshal entry) as [data|e]; [|exact Hsame].
    destruct (os_writeErr os) as [[n e]|]; cbn [snd];
      apply Happ; reflexivity.
  - destruct (os_mkdirErr os) as [e|]; [rewrite Hget; exact Hsame|].
    destruct (os_openErr os) as [e|]; [rewrite Hget; exact Hsame|].
    destruct (files l) as [fs|]; rewrite Hget; [|exact Hcreated].
    destruct (jsonMarshal entry) as [data|e]; [|exact Hcreated].
    destruct (os_writeErr os) as [[n e]|]; cbn [snd];
      (apply Happ;
       [intros p; apply (created_lookup d path0 p)
       |intros p Hp; apply (created_lookup d path0 p), Hp]).
Qed.

(** X26. A log call that returns nil has added exactly one line to the
    journal of its session: the file at baseDir/provider/sessionID.jsonl
    now holds what it held before (nothing, if it did not exist), then
    the serialized entry, then a newline. The file is registered as open
    under the session's key, and the logger's open files still sit at
    the paths of their keys. *)
Theorem logCall_appends_one_line (os : Os) (l : Logger) (d : Disk) (c : Call)
        (Hwf : wellFormed l)
        (Hok : fst (fst (logCall jsonMarshal ts os l d c)) = Done None) :
  let sid := fst (sessionOf c) in
  let provider := snd (sessionOf c) in
  let path := pathOfSession l sid provider in
  let l' := snd (fst (logCall jsonMarshal ts os l d c)) in
  let d' := snd (logCall jsonMarshal ts os l d c) in
  exists data,
    jsonMarshal (entryOfCall ts c) = inl data
    /\ d' !! path = Some (default "" (d !! path) ++ data ++ String "010"%char "")
    /\ (files l' ≫= (fun fs => fs !! keyOfSession sid provider)) = Some path
    /\ baseDir l' = baseDir l
    /\ wellFormed l'.
Proof.
  cbv zeta. revert Hok. rewrite logCall_unfold.
  set (sid := fst (sessionOf c)). set (provider := snd (sessionOf c)).
  set (entry := entryOfCall ts c). clearbody sid provider entry.
  unfold writeEntry.
  pose proof (getFile_spec os l d sid provider) as Hget. cbv zeta in Hget.
  set (path0 := pathOfSession l sid provider) in *.
  set (key := keyOfSession sid provider) in *.
  destruct (files l ≫= _) as [stored|] eqn:Hstored.
  - rewrite Hget.
    assert (Hpath : stored = path0).
    { destruct (files l) as [fs|] eqn:Hfiles; [|discriminate].
      cbn in Hstored. rewrite (Hwf fs key stored Hfiles Hstored).
      unfold path0. rewrite pathOfSession_key. reflexivity. }
    subst stored.
    destruct (jsonMarshal entry) as [data|e]; [|discriminate].
    destruct (os_writeErr os) as [[n e]|]; [discriminate|].
    intros _. cbn [fst snd]. exists data. split; [reflexivity|].
    split; [rewrite appended_lookup; destruct (decide (path0 = path0));
            [reflexivity|contradiction]|].
    split; [exact Hstored|]. split; [reflexivity|exact Hwf].
  - destruct (os_mkdirErr os) as [e|]; [rewrite Hget; discriminate|].
    destruct (os_openErr os) as [e|]; [rewrite Hget; discriminate|].
    destruct (files l) as [fs|] eqn:Hfiles; rewrite Hget; [|discriminate].
    destruct (jsonMarshal entry) as [data|e]; [|discriminate].
    destruct (os_writeErr os) as [[n e]|]; [discriminate|].
    intros _. cbn [fst snd]. exists data. split; [reflexivity|].
    split.
    { rewrite appended_lookup. destruct (decide (path0 = path0)); [|contradiction].
      destruct (created_lookup d path0 path0) as (Hdef & _). rewrite Hdef.
      reflexivity. }
    split; [cbn; apply lookup_insert_eq|]. split; [reflexivity|].
    intros fs' key' path' [= <-] Hlook. cbn [baseDir].
    destruct (decide (key' = key)) as [->|Hne].
    + rewrite lookup_insert_eq in Hlook. injection Hlook as <-.
      unfold path0. rewrite pathOfSession_key. reflexivity.
    + rewrite lookup_insert_ne in Hlook by congruence.
      apply (Hwf fs key' path' Hfiles Hlook).
Qed.

(** X27. After [Close] the logger cannot be used again: [Close] leaves
    a nil map of open files, so the next log call, for any session,
    creates the directory and the file and then panics on storing the
    file into the nil map. It returns an error instead only when creating
    the directory or opening the file fails; it never returns nil and
    never writes a line. *)
Theorem log_after_Close_panics (os : Os) (l : Logger) (d : Disk) (c : Call) :
  let closed := snd (Close l) in
  let path := pathOfSession l (fst (sessionOf c)) (snd (sessionOf c)) in
  fst (Close l) = None
  /\ logCall jsonMarshal ts os closed d c
     = match os_mkdirErr os, os_openErr os with
       | Some e, _ => (Done (Some e), closed, d)
       | None, Some e => (Done (Some e), closed, d)
       | None, None => (Panic, closed, created d path)
       end
  /\ forall p, default "" (snd (logCall jsonMarshal ts os closed d c) !! p)
               = default "" (d !! p).
Proof.
  cbv zeta. split; [reflexivity|].
  rewrite logCall_unfold.
  set (sid := fst (sessionOf c)). set (provider := snd (sessionOf c)).
  set (entry := entryOfCall ts c). clearbody sid provider entry.
  unfold writeEntry.
  pose proof (getFile_spec os (snd (Close l)) d sid provider) as Hget.
  cbv zeta in Hget. cbn [Close snd files mbind option_bind] in Hget |- *.
  destruct (os_mkdirErr os) as [e|]; [rewrite Hget; split; reflexivity|].
  destruct (os_openErr os) as [e|]; [rewrite Hget; split; reflexivity|].
  rewrite Hget. split; [reflexivity|].
  intros p. cbn [snd]. apply (created_lookup d _ p).
Qed.

End FileLoggerFacts.

Section FileLoggerInstances.

Import Loki FileLogger.

Lemma fileLogger_wellFormed : wellFormed Samples.fileLogger.
Proof.
  intros fs key path [= <-] Hlook. rewrite lookup_empty in Hlook. discriminate.
Defined.

Lemma logCall_appends_one_line_witness :
  wellFormed Samples.fileLogger
  /\ fst (fst (logCall Samples.marshalOk "t" Samples.osOk Samples.fileLogger ∅
                       (SessionStart "s1" "anthropic" "api.anthropic.com")))
     = Done None
  /\ exists data,
       Samples.marshalOk (entryOfCall "t" (SessionStart "s1" "anthropic"
                                                        "api.anthropic.com"))
       = inl data
       /\ snd (logCall Samples.marshalOk "t" Samples.osOk Samples.fileLogger ∅
                       (SessionStart "s1" "anthropic" "api.anthropic.com"))
          !! pathOfSession Samples.fileLogger "s1" "anthropic"
          = Some (default "" ((∅ : Disk) !! pathOfSession Samples.fileLogger "s1"
                                                           "anthropic")
                  ++ data ++ String "010"%char "").
Proof.
  split; [exact fileLogger_wellFormed|]. split; [reflexivity|].
  destruct (logCall_appends_one_line Samples.marshalOk "t" Samples.osOk
              Samples.fileLogger ∅
              (SessionStart "s1" "anthropic" "api.anthropic.com")
              fileLogger_wellFormed eq_refl)
    as (data & Hm & Hd & _).
  exists data. split; [exact Hm|exact Hd].
Defined.

End FileLoggerInstances.

(** ** fingerprint.go: canonical form and prior messages *)

Section FingerprintFacts.

Import Loki Fingerprint.

Lemma weight_in_list (l : list GoValue) (x : GoValue) :
  In x l -> (weight x < weight (VList l))%nat.
Proof.
  change (weight (VList l)) with (S (list_sum (map weight l))).
  induction l as [|y l IH]; intros Hin; [destruct Hin|].
  change (list_sum (map weight (y :: l)))
    with (weight y + list_sum (map weight l))%nat.
  destruct Hin as [->|Hin]; [lia|].
  specialize (IH Hin). lia.
Qed.

Lemma weight_in_map (m : Entry) (k : string) (x : GoValue) :
  m !! k = Some x -> (weight x < weight (VMap m))%nat.
Proof.
  change (weight (VMap m))
    with (S (map_fold (fun _ y acc => weight y + acc)%nat O m)).
  revert k x.
  apply (map_fold_weak_ind
           (fun (r : nat) (m' : Entry) =>
              forall k x, m' !! k = Some x -> (weight x < S r)%nat)).
  - intros k x Hk. rewrite lookup_empty in Hk. discriminate.
  - intros i y m' r _ IH k x Hk.
    destruct (decide (k = i)) as [->|Hne].
    + rewrite lookup_insert_eq in Hk. injection Hk as <-. lia.
    + rewrite lookup_insert_ne in Hk by congruence.
      specialize (IH k x Hk). lia.
Qed.

(** Rebuilding a map key by key from values that are left as they are
    gives the map back. *)
Lemma rebuild_map (f : GoValue -> GoValue) (m : Entry) :
  (forall k x, m !! k = Some x -> f x = x) ->
  map_fold (fun k x r => <[k := f x]> r) ∅ m = m.
Proof.
  apply (map_fold_weak_ind
           (fun (r m' : Entry) =>
              (forall k x, m' !! k = Some x -> f x = x) -> r = m')).
  - reflexivity.
  - intros i y m' r Hnone IH Hall.
    rewrite (Hall i y) by apply lookup_insert_eq.
    rewrite IH; [reflexivity|].
    intros k x Hk. apply (Hall k x).
    rewrite lookup_insert_ne; [exact Hk|]. intros ->. congruence.
Qed.

Lemma canonicalizeValue_id (n : nat) :
  forall v, (weight v < n)%nat -> canonicalizeValue v = v.
Proof.
  induction n as [|n IH]; intros v Hv; [lia|].
  destruct v as [| | | | | | |l|m|]; try reflexivity.
  - cbn [canonicalizeValue]. f_equal.
    rewrite <- (map_id l) at 2. apply map_ext_in. intros x Hx.
    apply IH. pose proof (weight_in_list l x Hx). lia.
  - cbn [canonicalizeValue]. f_equal.
    apply rebuild_map. intros k x Hk.
    apply IH. pose proof (weight_in_map m k x Hk). lia.
Qed.

(** X28. Canonicalization changes nothing of a decoded value:
    [canonicalizeMap] returns a map equal to its argument, at every
    depth, and [canonicalizeSlice] a slice equal to its argument (the
    order of the keys of a Go map is not part of its value; the sorted
    JSON is made by [json.Marshal]). On a message list the only change is
    that a nil message becomes an empty map. Hence the fingerprint of
    parsable JSON is the hash of the re-serialized decoded messages. *)
Theorem canonicalize_is_identity
        (unmarshalMessages : string -> option Messages)
        (marshalMessages : Messages -> string * option string)
        (sha256hex : string -> string) :
  (forall m : Entry, canonicalizeMap m = m)
  /\ (forall s : list GoValue, canonicalizeSlice s = s)
  /\ (forall messages : Messages,
        canonicalizeMessages messages
        = map (fun msg => Some (default ∅ msg)) messages)
  /\ (forall json messages,
        unmarshalMessages json = Some messages ->
        FingerprintMessages unmarshalMessages marshalMessages sha256hex json
        = sha256hex (fst (marshalMessages
                            (map (fun msg => Some (default ∅ msg)) messages)))).
Proof.
  assert (Hmap : forall m : Entry, canonicalizeMap m = m).
  { intros m. unfold canonicalizeMap. apply rebuild_map. intros k x _.
    apply (canonicalizeValue_id (S (weight x))). lia. }
  assert (Hmsgs : forall messages : Messages,
             canonicalizeMessages messages
             = map (fun msg => Some (default ∅ msg)) messages).
  { intros messages. unfold canonicalizeMessages. apply map_ext. intros msg.
    rewrite Hmap. reflexivity. }
  split; [exact Hmap|]. split; [|split; [exact Hmsgs|]].
  - intros l. unfold canonicalizeSlice. rewrite <- (map_id l) at 2.
    apply map_ext. intros x. apply (canonicalizeValue_id (S (weight x))). lia.
  - intros json messages Hjson. unfold FingerprintMessages.
    rewrite Hjson, Hmsgs. reflexivity.
Qed.

Variable unmarshalObject : string -> string + Entry.
Variable unmarshalMessages : string -> option Messages.
Variable marshalMessages : Messages -> string * option string.
Variable sha256hex : string -> string.

(** X29. The prior fingerprint chains requests of one conversation: when
    the messages of a request are those of an earlier, non-empty list
    followed by one more message, its prior messages are that earlier
    list, and its prior fingerprint is the fingerprint of that list's
    JSON. A request with a single message, or without any, has no prior
    messages and the empty prior fingerprint. *)
Theorem prior_fingerprint_chains (body provider : string)
        (earlier : Messages) (last : option Entry) (earlierJSON : string)
        (Hmsgs : ExtractMessages unmarshalObject body provider
                 = (Some (earlier ++ [last])%list, None))
        (Hjson : marshalMessages earlier = (earlierJSON, None)) :
  ExtractPriorMessages unmarshalObject body provider
  = (if decide (earlier = []) then None else Some earlier, None)
  /\ ComputePriorFingerprint unmarshalObject unmarshalMessages marshalMessages
                             sha256hex body provider
     = (if decide (earlier = []) then ""
        else FingerprintMessages unmarshalMessages marshalMessages sha256hex
                                 earlierJSON,
        None).
Proof.
  assert (Hprior : ExtractPriorMessages unmarshalObject body provider
                   = (if decide (earlier = []) then None else Some earlier, None)).
  { unfold ExtractPriorMessages. rewrite Hmsgs. cbv zeta.
    change (default [] (Some (earlier ++ [last])%list)) with (earlier ++ [last])%list.
    rewrite length_app. cbn [length].
    destruct earlier as [|m earlier']; [reflexivity|].
    destruct (decide (m :: earlier' = [])) as [Heq|_]; [discriminate|].
    set (l := m :: earlier').
    assert (Hlen : (length l + 1 <=? 1)%nat = false)
      by (apply Nat.leb_gt; cbn; lia).
    rewrite Hlen.
    replace (length l + 1 - 1)%nat with (length l) by lia.
    rewrite take_app_length. reflexivity. }
  split; [exact Hprior|].
  unfold ComputePriorFingerprint. rewrite Hprior.
  destruct (decide (earlier = [])); [reflexivity|].
  rewrite Hjson. reflexivity.
Qed.

End FingerprintFacts.

(** ** setup.go: patching the shell start files *)

Section SetupFacts.

Import GoStrings Setup.

Lemma substring_skip (a s : string) (k : nat) :
  substring (String.length a) k (a ++ s) = substring 0 k s.
Proof.
  induction a as [|c a IH]; [reflexivity|].
  rewrite append_cons. exact IH.
Qed.

Lemma substring_prefix (m b : string) :
  substring 0 (String.length m) (m ++ b) = m.
Proof.
  induction m as [|c m IH]; [destruct b; reflexivity|].
  rewrite append_cons. cbn [String.length substring]. rewrite IH. reflexivity.
Qed.

(** A string that has [m] in it contains [m]. *)
Lemma Contains_append (a m b : string) :
  m <> "" -> Contains (a ++ m ++ b) m = true.
Proof.
  intros Hm. unfold Contains.
  destruct (String.index 0 m (a ++ m ++ b)) eqn:Hidx; [reflexivity|].
  exfalso.
  apply (index_correct3 0 (String.length a) m (a ++ m ++ b) Hidx Hm);
    [lia|].
  rewrite substring_skip. apply substring_prefix.
Qed.

Lemma Contains_line (content : string) :
  Contains (content ++ line) shellRCMarker = true.
Proof.
  unfold line.
  replace (content ++ lf ++ shellRCMarker ++ lf ++ "eval " ++ quote
             ++ "$(llm-proxy --env)" ++ quote ++ lf)
    with ((content ++ lf) ++ shellRCMarker ++ lf ++ "eval " ++ quote
            ++ "$(llm-proxy --env)" ++ quote ++ lf)
    by (rewrite append_assoc; reflexivity).
  apply Contains_append. discriminate.
Qed.

(** X30. [PatchShellRC] is idempotent, as its comment says. Once a call
    has returned nil the file mentions the marker, so every later call
    that can read the file returns nil without opening or writing it and
    leaves the disk as it is. The call that patches keeps what the file
    held and adds the marker and the eval line behind it; no other file
    is touched, whatever the outcome. *)
Theorem PatchShellRC_idempotent (os1 os2 : Os) (d : Disk) (rcPath : string)
        (Hok : fst (PatchShellRC os1 d rcPath) = None)
        (Hread : os_readErr os2 = None) :
  let d1 := snd (PatchShellRC os1 d rcPath) in
  PatchShellRC os2 d1 rcPath = (None, d1)
  /\ Contains (default "" (d1 !! rcPath)) shellRCMarker = true
  /\ (d1 = d \/ d1 !! rcPath = Some (default "" (d !! rcPath) ++ line))
  /\ forall p, p <> rcPath -> d1 !! p = d !! p.
Proof.
  assert (Hcases :
            (PatchShellRC os1 d rcPath = (None, d)
             /\ Contains (default "" (d !! rcPath)) shellRCMarker = true)
            \/ PatchShellRC os1 d rcPath
               = (None, <[rcPath := default "" (d !! rcPath) ++ line]> d)).
  { revert Hok. unfold PatchShellRC.
    destruct (os_readErr os1) as [e|]; [discriminate|].
    destruct (Contains (default "" (d !! rcPath)) shellRCMarker);
      [left; split; reflexivity|].
    destruct (os_openErr os1) as [e|]; [discriminate|].
    destruct (os_writeErr os1) as [[n e]|]; [discriminate|].
    right. reflexivity. }
  cbv zeta. destruct Hcases as [[-> Hmarked] | ->]; cbn [snd].
  - unfold PatchShellRC. rewrite Hread, Hmarked.
    split; [reflexivity|]. split; [reflexivity|].
    split; [left; reflexivity|]. reflexivity.
  - unfold PatchShellRC.
    rewrite Hread, lookup_insert_eq.
    change (default "" (Some (default "" (d !! rcPath) ++ line)))
      with (default "" (d !! rcPath) ++ line).
    rewrite Contains_line.
    split; [reflexivity|]. split; [reflexivity|].
    split; [right; reflexivity|].
    intros p Hp. apply lookup_insert_ne. congruence.
Qed.

Lemma PatchShellRC_idempotent_witness :
  fst (PatchShellRC Samples.setupOk Samples.homeDisk "/home/u/.zshrc") = None
  /\ os_readErr Samples.setupOk = None
  /\ PatchShellRC Samples.setupOk
       (snd (PatchShellRC Samples.setupOk Samples.homeDisk "/home/u/.zshrc"))
       "/home/u/.zshrc"
     = (None, snd (PatchShellRC Samples.setupOk Samples.homeDisk "/home/u/.zshrc")).
Proof.
  split; [reflexivity|]. split; [reflexivity|].
  apply (PatchShellRC_idempotent Samples.setupOk Samples.setupOk Samples.homeDisk
                                 "/home/u/.zshrc"); reflexivity.
Defined.

Lemma PatchShellRC_keeps_files (os : Os) (d : Disk) (rcPath p : string) :
  is_Some (d !! rcPath) ->
  (snd (PatchShellRC os d rcPath) !! p = None <-> d !! p = None).
Proof.
  intros Hexists. unfold PatchShellRC.
  assert (Hins : forall x, <[rcPath := x]> d !! p = None <-> d !! p = None).
  { intros x. destruct (decide (p = rcPath)) as [->|Hne].
    - rewrite lookup_insert_eq. destruct Hexists as [y Hy]. rewrite Hy.
      split; discriminate.
    - rewrite lookup_insert_ne by congruence. tauto. }
  destruct (os_readErr os); [tauto|].
  destruct (Contains _ _); [tauto|].
  destruct (os_openErr os); [tauto|].
  destruct (os_writeErr os) as [[n e]|]; apply Hins.
Qed.

Lemma patchShells_keeps_files (todo : list string) :
  forall (oss : list Os) (d : Disk) (home p : string),
    snd (patchShells oss d home todo) !! p = None <-> d !! p = None.
Proof.
  induction todo as [|shell rest IH]; intros oss d home p; [tauto|].
  cbn [patchShells].
  destruct (d !! Join2 home shell) as [x|] eqn:Hrc; [|apply IH].
  pose proof (PatchShellRC_keeps_files
                (default (mkOs None None None) (head oss)) d (Join2 home shell) p
                ltac:(rewrite Hrc; eexists; reflexivity)) as Hkeep.
  destruct (PatchShellRC _ d (Join2 home shell)) as [[err|] d'];
    cbn [snd] in Hkeep |- *; [exact Hkeep|].
  rewrite IH. exact Hkeep.
Qed.

(** [PatchAllShells] never creates a file and never removes one: the
    disk holds exactly the same paths after the call as before it,
    whatever errors occur. A shell without start file stays without. *)
Lemma PatchAllShells_creates_nothing (oss : list Os) (d : Disk)
        (home p : string) :
  snd (PatchAllShells oss d home) !! p = None <-> d !! p = None.
Proof. unfold PatchAllShells. apply patchShells_keeps_files. Qed.

End SetupFacts.

Section FingerprintInstances.

Import Loki Fingerprint.

Lemma prior_fingerprint_chains_witness :
  ExtractMessages Samples.decodeObject "body" "anthropic"
  = (Some ([Some (Samples.userMessage "a"); None]
           ++ [Some (Samples.userMessage "b")])%list,
     None)
  /\ Samples.encodeMessages [Some (Samples.userMessage "a"); None]
     = (String (ascii_of_nat 2) "", None)
  /\ ExtractPriorMessages Samples.decodeObject "body" "anthropic"
     = (if decide ([Some (Samples.userMessage "a"); None] = []) then None
        else Some [Some (Samples.userMessage "a"); None], None).
Proof.
  split; [reflexivity|]. split; [reflexivity|].
  apply (prior_fingerprint_chains Samples.decodeObject (fun _ => None)
           Samples.encodeMessages (fun x => x) "body" "anthropic"
           [Some (Samples.userMessage "a"); None] (Some (Samples.userMessage "b"))
           (String (ascii_of_nat 2) "")).
  - reflexivity.
  - reflexivity.
Defined.

End FingerprintInstances.
